(** * FixPeriNeigh: the peridynamic bond store of src/PERI/fix_peri_neigh.cpp

    A shallow embedding of the C++ class [FixPeriNeigh] and proofs of the
    properties its specification states.

    Modelling conventions.
    - A C++ [int] is a [Z]; the counters of the class count the elements
      of the lists they walk and wrap-around is not modelled.
    - A finite C++ [double] is the rational number [Q] it denotes.  An
      arithmetic operation of the machine is the exact operation followed by
      the rounding [rnd] of the result to a [double]; every theorem holds
      for every [rnd], and [round64] is the rounding of IEEE 754 binary64
      (to nearest, ties to even), taken from the Standard Library's
      [SpecFloat].  Every operation is rounded on its own (no fused
      multiply-add, no extended precision).  Infinities and NaN are not
      values of the model: it follows the runs in which no operation
      overflows or divides by zero.
      [int_to_double] is the implicit conversion of an [int] stored into a
      [double]; [double_to_int] is [static_cast<int>], truncation toward
      zero.
    - The arrays owned by the class ([npartner], [partner], [r0], [vinter],
      [wvolume]) are lists; every read and write of them is bounds checked
      and an access outside the allocation yields [OutOfBounds] (undefined
      behaviour in C++).  A two-dimensional array is a list of rows, and
      [rd2] and [wr2] also refuse a column outside the row: the code never
      asks for one while [npartner[i] <= maxpartner].  The rows are slices
      of one block, so the machine does not refuse such a column;
      [wr2_block] is its write, and [unpack_exchange_block] is
      [unpack_exchange] as the machine runs it.
    - Arrays owned by other classes ([atom->x], [atom->tag], ...) and message
      buffers ([double *buf]) are total functions of the index.
    - [error->one] yields [Fatal]. *)

From Stdlib Require Import ZArith QArith Qabs Qreduction Lia Lqa String.
From Stdlib Require Import Floats.SpecFloat.
From stdpp Require Import base option list list_numbers.

Local Open Scope Z_scope.

(** ** Outcomes of a member function *)

Inductive result (A : Type) : Type :=
| Ok (a : A)
| OutOfBounds
| Fatal (msg : string).
Arguments Ok {A} a.
Arguments OutOfBounds {A}.
Arguments Fatal {A} msg.

#[global] Instance result_ret : MRet result := fun A a => Ok a.
#[global] Instance result_bind : MBind result := fun A B f m =>
  match m with
  | Ok a => f a
  | OutOfBounds => OutOfBounds
  | Fatal msg => Fatal msg
  end.

(** [for (n = ...; ...; n++) body] over the index values [l], threading the
    loop-carried variables [s]. *)
Fixpoint for_ {S : Type} (l : list Z) (body : Z → S → result S) (s : S) : result S :=
  match l with
  | [] => Ok s
  | n :: l' => s' ← body n s; for_ l' body s'
  end.

(** ** Numbers *)

Definition int_to_double (z : Z) : Q := inject_Z z.
Definition double_to_int (q : Q) : Z := Z.quot (Qnum q) (Zpos (Qden q)).

(** *** IEEE 754 binary64

    The rounding of a rational to the nearest [double], ties to even, and
    the correctly rounded square root, both computed by the Standard
    Library's specification of binary floating point at precision 53 and
    maximal exponent 1024.  A result that overflows is taken to [2^1024],
    beyond every [double]. *)

Definition Z2SF (z : Z) : spec_float :=
  match z with
  | Z0 => S754_zero false
  | Zpos p => S754_finite false p 0
  | Zneg p => S754_finite true p 0
  end.

Definition SF2Q (f : spec_float) : Q :=
  match f with
  | S754_zero _ => 0%Q
  | S754_finite s m e =>
      Qred (inject_Z (if s then Zneg m else Zpos m)
            * (if 0 <=? e then inject_Z (2 ^ e) else 1 # Pos.pow 2 (Z.to_pos (- e))))%Q
  | S754_infinity s => inject_Z (if s then - 2 ^ 1024 else 2 ^ 1024)
  | S754_nan => 0%Q
  end.

Definition Q2SF (q : Q) : spec_float :=
  let q := Qred q in
  SFdiv 53 1024 (Z2SF (Qnum q)) (Z2SF (Zpos (Qden q))).

Definition round64 (q : Q) : Q := SF2Q (Q2SF q).

Definition sqrt64 (q : Q) : Q := SF2Q (SFsqrt 53 1024 (Q2SF q)).

(** ** Arrays *)

Definition rd {A} (a : list A) (i : Z) : result A :=
  if 0 <=? i then
    match a !! Z.to_nat i with
    | Some v => Ok v
    | None => OutOfBounds
    end
  else OutOfBounds.

Definition wr {A} (a : list A) (i : Z) (v : A) : result (list A) :=
  if (0 <=? i) && (i <? Z.of_nat (length a)) then Ok (<[Z.to_nat i := v]> a)
  else OutOfBounds.

Definition rd2 {A} (a : list (list A)) (i k : Z) : result A :=
  row ← rd a i; rd row k.

Definition wr2 {A} (a : list (list A)) (i k : Z) (v : A) : result (list (list A)) :=
  row ← rd a i; row' ← wr row k v; wr a i row'.

(** A message buffer [double *buf]. *)
Abbreviation buffer := (Z → Q).

Definition buf_set (buf : buffer) (m : Z) (v : Q) : buffer :=
  fun k => if k =? m then v else buf k.

(** The words [buf[off .. off+len)]. *)
Definition buf_words (buf : buffer) (off len : Z) : list Q :=
  buf <$> seqZ off len.

(** ** The state of the class *)

Record FixPeriNeigh : Type := mkFix {
  first : Z;
  maxpartner : Z;
  npartner : list Z;
  partner : list (list Z);
  r0 : list (list Q);
  vinter : list Q;
  wvolume : list Q
}.

Definition set_first (v : Z) (st : FixPeriNeigh) : FixPeriNeigh :=
  mkFix v (maxpartner st) (npartner st) (partner st) (r0 st) (vinter st) (wvolume st).
Definition set_maxpartner (v : Z) (st : FixPeriNeigh) : FixPeriNeigh :=
  mkFix (first st) v (npartner st) (partner st) (r0 st) (vinter st) (wvolume st).
Definition set_npartner (v : list Z) (st : FixPeriNeigh) : FixPeriNeigh :=
  mkFix (first st) (maxpartner st) v (partner st) (r0 st) (vinter st) (wvolume st).
Definition set_partner (v : list (list Z)) (st : FixPeriNeigh) : FixPeriNeigh :=
  mkFix (first st) (maxpartner st) (npartner st) v (r0 st) (vinter st) (wvolume st).
Definition set_r0 (v : list (list Q)) (st : FixPeriNeigh) : FixPeriNeigh :=
  mkFix (first st) (maxpartner st) (npartner st) (partner st) v (vinter st) (wvolume st).
Definition set_vinter (v : list Q) (st : FixPeriNeigh) : FixPeriNeigh :=
  mkFix (first st) (maxpartner st) (npartner st) (partner st) (r0 st) v (wvolume st).
Definition set_wvolume (v : list Q) (st : FixPeriNeigh) : FixPeriNeigh :=
  mkFix (first st) (maxpartner st) (npartner st) (partner st) (r0 st) (vinter st) v.

(** The allocation invariant: every per-atom array has [nmax] slots and every
    row of [partner] and [r0] has [maxpartner] columns (what [grow_arrays]
    establishes). *)
Definition allocated (nmax : Z) (st : FixPeriNeigh) : Prop :=
  length (npartner st) = Z.to_nat nmax ∧
  length (partner st) = Z.to_nat nmax ∧
  Forall (fun row => length row = Z.to_nat (maxpartner st)) (partner st) ∧
  length (r0 st) = Z.to_nat nmax ∧
  Forall (fun row => length row = Z.to_nat (maxpartner st)) (r0 st) ∧
  length (vinter st) = Z.to_nat nmax ∧
  length (wvolume st) = Z.to_nat nmax.

(** The bond list of slot [i]: the first [npartner[i]] entries of
    [partner[i]] and [r0[i]], paired. *)
Definition bonds (st : FixPeriNeigh) (i : Z) : list (Z * Q) :=
  match npartner st !! Z.to_nat i, partner st !! Z.to_nat i, r0 st !! Z.to_nat i with
  | Some np, Some ps, Some rs => zip (take (Z.to_nat np) ps) (take (Z.to_nat np) rs)
  | _, _, _ => []
  end.

(** A bond whose partner tag is 0 is broken (a tombstone). *)
Definition live (b : Z * Q) : bool := negb (b.1 =? 0).

(** ** MigrationCodec: [pack_exchange] and [unpack_exchange] *)

Definition pack_exchange (st : FixPeriNeigh) (i : Z) (buf : buffer) : result (Z * buffer) :=
  np ← rd (npartner st) i;
  '(m, buf) ← for_ (seqZ 0 np) (fun n '(m, buf) =>
      p ← rd2 (partner st) i n;
      if p =? 0 then Ok (m, buf)
      else
        r ← rd2 (r0 st) i n;
        Ok (m + 2, buf_set (buf_set buf m (int_to_double p)) (m + 1) r))
    (1, buf);
  let buf := buf_set buf 0 (int_to_double (Z.quot m 2)) in
  vi ← rd (vinter st) i;
  let buf := buf_set buf m vi in
  wv ← rd (wvolume st) i;
  let buf := buf_set buf (m + 1) wv in
  Ok (m + 2, buf).

Definition unpack_exchange (st : FixPeriNeigh) (nlocal : Z) (buf : buffer)
  : result (Z * FixPeriNeigh) :=
  let m := 0 in
  a ← wr (npartner st) nlocal (double_to_int (buf m));
  let st := set_npartner a st in
  let m := m + 1 in
  np ← rd (npartner st) nlocal;
  '(m, st) ← for_ (seqZ 0 np) (fun n '(m, st) =>
      a ← wr2 (partner st) nlocal n (double_to_int (buf m));
      let st := set_partner a st in
      b ← wr2 (r0 st) nlocal n (buf (m + 1));
      let st := set_r0 b st in
      Ok (m + 2, st))
    (m, st);
  a ← wr (vinter st) nlocal (buf m);
  let st := set_vinter a st in
  b ← wr (wvolume st) nlocal (buf (m + 1));
  let st := set_wvolume b st in
  Ok (m + 2, st).

(** ** GhostSync: [pack_comm] and [unpack_comm] *)

(** Set by the constructor: one [double] per atom in a forward exchange. *)
Definition comm_forward : Z := 1.

Definition pack_comm (st : FixPeriNeigh) (n : Z) (list : Z → Z) (buf : buffer)
  : result (Z * buffer) :=
  '(m, buf) ← for_ (seqZ 0 n) (fun i '(m, buf) =>
      let j := list i in
      w ← rd (wvolume st) j;
      Ok (m + 1, buf_set buf m w))
    (0, buf);
  Ok (1, buf).

Definition unpack_comm (st : FixPeriNeigh) (n first : Z) (buf : buffer)
  : result FixPeriNeigh :=
  let m := 0 in
  let last := first + n in
  '(m, st) ← for_ (seqZ first (last - first)) (fun i '(m, st) =>
      a ← wr (wvolume st) i (buf m);
      Ok (m + 1, set_wvolume a st))
    (m, st);
  Ok st.

(** ** [copy_arrays] *)

Definition copy_arrays (st : FixPeriNeigh) (i j : Z) : result FixPeriNeigh :=
  v ← rd (npartner st) i;
  a ← wr (npartner st) j v;
  let st := set_npartner a st in
  np ← rd (npartner st) j;
  st ← for_ (seqZ 0 np) (fun m st =>
      p ← rd2 (partner st) i m;
      a ← wr2 (partner st) j m p;
      let st := set_partner a st in
      r ← rd2 (r0 st) i m;
      b ← wr2 (r0 st) j m r;
      Ok (set_r0 b st))
    st;
  v ← rd (vinter st) i;
  a ← wr (vinter st) j v;
  let st := set_vinter a st in
  w ← rd (wvolume st) i;
  b ← wr (wvolume st) j w;
  Ok (set_wvolume b st).

(** ** RestartCodec, per atom: [pack_restart] and [unpack_restart] *)

Definition pack_restart (st : FixPeriNeigh) (i : Z) (buf : buffer) : result (Z * buffer) :=
  let m := 0 in
  np ← rd (npartner st) i;
  let buf := buf_set buf m (int_to_double (2 * np + 4)) in
  let buf := buf_set buf (m + 1) (int_to_double np) in
  let m := m + 2 in
  '(m, buf) ← for_ (seqZ 0 np) (fun n '(m, buf) =>
      p ← rd2 (partner st) i n;
      r ← rd2 (r0 st) i n;
      Ok (m + 2, buf_set (buf_set buf m (int_to_double p)) (m + 1) r))
    (m, buf);
  vi ← rd (vinter st) i;
  let buf := buf_set buf m vi in
  wv ← rd (wvolume st) i;
  let buf := buf_set buf (m + 1) wv in
  Ok (m + 2, buf).

(** [extra] is the row [atom->extra[nlocal]]. *)
Definition unpack_restart (st : FixPeriNeigh) (extra : buffer) (nlocal nth : Z)
  : result FixPeriNeigh :=
  let m := 0 in
  m ← for_ (seqZ 0 nth) (fun _ m => Ok (m + double_to_int (extra m))) m;
  let m := m + 1 in
  a ← wr (npartner st) nlocal (double_to_int (extra m));
  let st := set_npartner a st in
  let m := m + 1 in
  np ← rd (npartner st) nlocal;
  '(m, st) ← for_ (seqZ 0 np) (fun n '(m, st) =>
      a ← wr2 (partner st) nlocal n (double_to_int (extra m));
      let st := set_partner a st in
      b ← wr2 (r0 st) nlocal n (extra (m + 1));
      let st := set_r0 b st in
      Ok (m + 2, st))
    (m, st);
  a ← wr (vinter st) nlocal (extra m);
  let st := set_vinter a st in
  b ← wr (wvolume st) nlocal (extra (m + 1));
  Ok (set_wvolume b st).

Definition maxsize_restart (st : FixPeriNeigh) : Z := 2 * maxpartner st + 4.

Definition size_restart (st : FixPeriNeigh) (nlocal : Z) : result Z :=
  np ← rd (npartner st) nlocal; Ok (2 * np + 4).

(** ** RestartCodec, global header: [write_restart] *)

Definition sizeof_double : Z := 8.

(** What rank [me] writes to the restart file: the byte size and then the
    [n] doubles of [list]; only rank 0 writes. *)
Definition write_restart (st : FixPeriNeigh) (me : Z) : option (Z * list Q) :=
  let list := [int_to_double (first st); int_to_double (maxpartner st)] in
  let n := Z.of_nat (length list) in
  if me =? 0 then Some (n * sizeof_double, list) else None.

(** ** The objects [setup] reads *)

Record Atom : Type := mkAtom {
  nlocal : Z;
  nmax : Z;
  x : Z → Z → Q;
  x0 : Z → Z → Q;
  vfrac : Z → Q;
  type : Z → Z;
  tag : Z → Z;
  map : Z → Z
}.

(** The full neighbor list after [neighbor->build_one]: [inum] and
    [numneigh[i]] are the lengths of [ilist] and [firstneigh[i]]. *)
Record NeighList : Type := mkNeighList {
  ilist : list Z;
  firstneigh : Z → list Z
}.

(** The pair style found by [force->pair_match("peri",0)], as seen by the two
    [dynamic_cast]s. *)
Inductive Pair : Type :=
| PairPeriPMB
| PairPeriLPS (influence_function : Q → Q → Q → Q)
| PairOther.

Record Domain : Type := mkDomain {
  xperiodic : Z;
  yperiodic : Z;
  zperiodic : Z;
  xlattice : Q
}.

(** One swap of [comm->forward_comm_fix]: the atoms sent and the ghost range
    and message received. *)
Record Swap : Type := mkSwap {
  sendnum : Z;
  sendlist : Z → Z;
  recvnum : Z;
  firstrecv : Z;
  buf_recv : buffer
}.

Record LAMMPS : Type := mkLAMMPS {
  atom : Atom;
  neigh_list : NeighList;
  cutsq : Z → Z → Q;
  anypair : Pair;
  domain : Domain;
  swaps : list Swap
}.

Definition MAX (a b : Z) : Z := if a >? b then a else b.

(** [MPI_Allreduce(..., MPI_MAX, world)]: the maximum of this rank's value and
    the values contributed by the other ranks. *)
Definition MPI_Allreduce_MAX (mine : Z) (others : list Z) : Z :=
  foldr Z.max mine others.

(** ** Storage *)

(** Modelled from the spec: [memory->grow] and [memory->destroy] (memory.h is
    not among the sources; the specification calls it the generic facility
    that grows every registered per-particle array to N slots).  A destroyed
    (NULL) array is the empty list.  Growing keeps the cells already there, in
    storage order, and the new cells hold whatever the allocator returns,
    [junk k] for the cell at offset [k]. *)
Definition grow1 {A} (junk : nat → A) (a : list A) (n : Z) : list A :=
  take (Z.to_nat n) (a ++ (junk <$> seq (length a) (Z.to_nat n - length a))).

(** Modelled from the spec: [memory->grow] of a two-dimensional array, one
    block of [n1 * n2] cells cut into [n1] rows of [n2] columns. *)
Definition grow2 {A} (junk : nat → A) (a : list (list A)) (n1 n2 : Z) : list (list A) :=
  let data := grow1 junk (concat a) (n1 * n2) in
  (fun i => take (Z.to_nat n2) (drop (i * Z.to_nat n2) data)) <$> seq 0 (Z.to_nat n1).

Section Externals.

Set Default Proof Using "Type".

(** [rnd] is the rounding of the machine's [double] arithmetic.
    [NEIGHMASK] (lmptype.h) and [sqrt] (math.h) are not among the sources;
    [junk_int name] and [junk_double name] are the contents of the storage
    the allocator hands out for the array registered as [name]. *)
Variable rnd : Q → Q.
Variable NEIGHMASK : Z.
Variable sqrt : Q → Q.
Variable junk_int : string → nat → Z.
Variable junk_double : string → nat → Q.

Definition grow_arrays (st : FixPeriNeigh) (nmax : Z) : FixPeriNeigh :=
  let st := set_npartner (grow1 (junk_int "peri_neigh:npartner") (npartner st) nmax) st in
  let st := set_partner
    (grow2 (junk_int "peri_neigh:partner") (partner st) nmax (maxpartner st)) st in
  let st := set_r0
    (grow2 (junk_double "peri_neigh:r0") (r0 st) nmax (maxpartner st)) st in
  let st := set_vinter (grow1 (junk_double "peri_neigh:vinter") (vinter st) nmax) st in
  set_wvolume (grow1 (junk_double "peri_neigh:wvolume") (wvolume st) nmax) st.

(** The constructor: [first = 1], [maxpartner = 1] as a placeholder, arrays
    allocated for [atom->nmax] atoms, [npartner] zeroed for the local atoms. *)
Definition FixPeriNeigh_new (a : Atom) : result FixPeriNeigh :=
  let st := mkFix 1 1 [] [] [] [] [] in
  let st := grow_arrays st (nmax a) in
  for_ (seqZ 0 (nlocal a)) (fun i st =>
      v ← wr (npartner st) i 0; Ok (set_npartner v st))
    st.

(** [restart]: [list] is the header written by [write_restart]. *)
Definition restart (st : FixPeriNeigh) (a : Atom) (list : buffer) : FixPeriNeigh :=
  let n := 0 in
  let st := set_first (double_to_int (list n)) st in
  let st := set_maxpartner (double_to_int (list (n + 1))) st in
  grow_arrays st (nmax a).

(** ** [double] arithmetic *)

(** The operations [+], [-], [*] and [/] of the machine on [double]s. *)
Definition dadd (a b : Q) : Q := rnd (a + b).
Definition dsub (a b : Q) : Q := rnd (a - b).
Definition dmul (a b : Q) : Q := rnd (a * b).
Definition ddiv (a b : Q) : Q := rnd (a / b).

Infix "⊕" := dadd (at level 50, left associativity).
Infix "⊖" := dsub (at level 50, left associativity).
Infix "⊗" := dmul (at level 40, left associativity).
Infix "⊘" := ddiv (at level 40, left associativity).

(** ** [setup] *)

(** Lines 179-182 and 228-231: [rsq] for atom [i] and candidate [j]. *)
Definition rsq_of (pos : Z → Z → Q) (i j : Z) : Q :=
  let delx := pos i 0 ⊖ pos j 0 in
  let dely := pos i 1 ⊖ pos j 1 in
  let delz := pos i 2 ⊖ pos j 2 in
  delx ⊗ delx ⊕ dely ⊗ dely ⊕ delz ⊗ delz.

(** The test of lines 184 and 233, for atom [i] and the masked candidate [j]. *)
Definition within_cutoff (L : LAMMPS) (i j : Z) : bool :=
  Qle_bool (rsq_of (x (atom L)) i j) (cutsq L (type (atom L) i) (type (atom L) j)).

(** Lines 166-186: scan the neighbor list, counting into [npartner]. *)
Definition setup_count (L : LAMMPS) (st : FixPeriNeigh) : result FixPeriNeigh :=
  for_ (ilist (neigh_list L)) (fun i st =>
      for_ (firstneigh (neigh_list L) i) (fun j st =>
          let j := Z.land j NEIGHMASK in
          if within_cutoff L i j then
            np ← rd (npartner st) i;
            a ← wr (npartner st) i (np + 1);
            Ok (set_npartner a st)
          else Ok st)
        st)
    st.

(** Lines 188-189: the local maximum. *)
Definition setup_localmax (L : LAMMPS) (st : FixPeriNeigh) : result FixPeriNeigh :=
  let st := set_maxpartner 0 st in
  for_ (seqZ 0 (nlocal (atom L))) (fun i st =>
      np ← rd (npartner st) i;
      Ok (set_maxpartner (MAX (maxpartner st) np) st))
    st.

(** Lines 196-212: reallocate with the agreed [maxpartner], clear the local
    atoms. *)
Definition setup_realloc (L : LAMMPS) (st : FixPeriNeigh) : result FixPeriNeigh :=
  let st := set_partner [] st in
  let st := set_r0 [] st in
  let st := set_npartner [] st in
  let st := grow_arrays st (nmax (atom L)) in
  for_ (seqZ 0 (nlocal (atom L))) (fun i st =>
      a ← wr (npartner st) i 0;
      let st := set_npartner a st in
      b ← wr (vinter st) i 0%Q;
      let st := set_vinter b st in
      c ← wr (wvolume st) i 0%Q;
      Ok (set_wvolume c st))
    st.

(** Lines 214-240: create the partner list and the [r0] values. *)
Definition setup_populate (L : LAMMPS) (st : FixPeriNeigh) : result FixPeriNeigh :=
  for_ (ilist (neigh_list L)) (fun i st =>
      for_ (firstneigh (neigh_list L) i) (fun j st =>
          let j := Z.land j NEIGHMASK in
          let rsq := rsq_of (x (atom L)) i j in
          if within_cutoff L i j then
            np ← rd (npartner st) i;
            a ← wr2 (partner st) i np (tag (atom L) j);
            let st := set_partner a st in
            np ← rd (npartner st) i;
            b ← wr2 (r0 st) i np (sqrt rsq);
            let st := set_r0 b st in
            np ← rd (npartner st) i;
            c ← wr (npartner st) i (np + 1);
            let st := set_npartner c st in
            v ← rd (vinter st) i;
            d ← wr (vinter st) i (v ⊕ vfrac (atom L) j);
            Ok (set_vinter d st)
          else Ok st)
        st)
    st.

Definition periodic (d : Domain) : bool :=
  negb (xperiodic d =? 0) || negb (yperiodic d =? 0) || negb (zperiodic d =? 0).

(** Lines 245-256: the sanity check. *)
Definition setup_check (L : LAMMPS) (st : FixPeriNeigh) : result unit :=
  if periodic (domain L) then
    for_ (seqZ 0 (nlocal (atom L))) (fun i _ =>
        jnum ← rd (npartner st) i;
        for_ (seqZ 0 jnum) (fun jj _ =>
            for_ (seqZ (jj + 1) (jnum - (jj + 1))) (fun kk _ =>
                a ← rd2 (partner st) i jj;
                b ← rd2 (partner st) i kk;
                if a =? b then
                  Fatal "Duplicate particle in PeriDynamic bond - simulation box is too small"
                else Ok tt)
              tt)
          tt)
      tt
  else Ok tt.

(** Lines 298-301. *)
Definition vfrac_scale (half_lc delta r : Q) : Q :=
  if Qle_bool (Qabs (r ⊖ delta)) half_lc then
    ((-1)%Q ⊘ (2 ⊗ half_lc)) ⊗ r ⊕ (1 ⊕ ((delta ⊖ half_lc) ⊘ (2 ⊗ half_lc)))
  else 1%Q.

(** Lines 274-309: the contribution of bond slot [jj] of atom [i]. *)
Definition setup_wvolume_slot (L : LAMMPS) (i jj : Z) (st : FixPeriNeigh)
  : result FixPeriNeigh :=
  let half_lc := (1 # 2)%Q ⊗ xlattice (domain L) in
  let x0 := x0 (atom L) in
  let itype := type (atom L) i in
  p ← rd2 (partner st) i jj;
  if p =? 0 then Ok st
  else
    let j := map (atom L) p in
    if j <? 0 then Ok st
    else
      let delx0 := x0 i 0 ⊖ x0 j 0 in
      let dely0 := x0 i 1 ⊖ x0 j 1 in
      let delz0 := x0 i 2 ⊖ x0 j 2 in
      let rsq0 := delx0 ⊗ delx0 ⊕ dely0 ⊗ dely0 ⊕ delz0 ⊗ delz0 in
      let jtype := type (atom L) j in
      let delta := sqrt (cutsq L itype jtype) in
      r ← rd2 (r0 st) i jj;
      let scale := vfrac_scale half_lc delta r in
      match anypair L with
      | PairPeriPMB =>
          w ← rd (wvolume st) i;
          a ← wr (wvolume st) i (w ⊕ 1 ⊗ rsq0 ⊗ vfrac (atom L) j ⊗ scale);
          Ok (set_wvolume a st)
      | PairPeriLPS influence_function =>
          w ← rd (wvolume st) i;
          a ← wr (wvolume st) i
                (w ⊕ influence_function delx0 dely0 delz0 ⊗ rsq0 ⊗ vfrac (atom L) j ⊗ scale);
          Ok (set_wvolume a st)
      | PairOther => Ok st
      end.

(** Lines 265-310: compute [wvolume] for each local atom. *)
Definition setup_wvolume (L : LAMMPS) (st : FixPeriNeigh) : result FixPeriNeigh :=
  for_ (seqZ 0 (nlocal (atom L))) (fun i st =>
      jnum ← rd (npartner st) i;
      for_ (seqZ 0 jnum) (setup_wvolume_slot L i) st)
    st.

(** Modelled from the spec: [comm->forward_comm_fix] (comm.cpp is not among
    the sources; the specification calls it the forward communication of the
    derived scalar field to the ghost copies).  For every swap the listed
    atoms are packed for the neighbouring partition and the message received
    is unpacked into the ghost range. *)
Definition forward_comm_fix (L : LAMMPS) (st : FixPeriNeigh) : result FixPeriNeigh :=
  foldl (fun acc sw =>
      st ← acc;
      _ ← pack_comm st (sendnum sw) (sendlist sw) (fun _ => 0%Q);
      unpack_comm st (recvnum sw) (firstrecv sw) (buf_recv sw))
    (Ok st) (swaps L).

(** Lines 150-240: clear the flag, size the store and fill it.  [others] are
    the values the other partitions contribute to the [MPI_Allreduce] of
    line 191. *)
Definition setup_build (L : LAMMPS) (others : list Z) (st : FixPeriNeigh)
  : result FixPeriNeigh :=
  let st := set_first 0 st in
  st ← setup_count L st;
  st ← setup_localmax L st;
  let maxall := MPI_Allreduce_MAX (maxpartner st) others in
  let st := set_maxpartner maxall st in
  st ← setup_realloc L st;
  setup_populate L st.

(** [setup]: [L] holds the neighbor list as [neighbor->build_one] leaves it.
    The bond statistics of lines 316-334 are printed and change nothing; they
    are left out. *)
Definition setup (L : LAMMPS) (others : list Z) (st : FixPeriNeigh) : result FixPeriNeigh :=
  if first st =? 0 then Ok st
  else
    st ← setup_build L others st;
    _ ← setup_check L st;
    st ← setup_wvolume L st;
    forward_comm_fix L st.

(** For minimization: setup as with dynamics. *)
Definition min_setup (L : LAMMPS) (others : list Z) (st : FixPeriNeigh)
  : result FixPeriNeigh :=
  setup L others st.

(** The number this partition contributes to the all-reduce of line 191. *)
Definition setup_contribution (L : LAMMPS) (st : FixPeriNeigh) : result Z :=
  st ← setup_count L (set_first 0 st);
  st ← setup_localmax L st;
  Ok (maxpartner st).

(** [mapM] for [result]. *)
Fixpoint collect {A} (l : list (result A)) : result (list A) :=
  match l with
  | [] => Ok []
  | r :: l' => a ← r; rest ← collect l'; Ok (a :: rest)
  end.

(** All partitions run [setup] together: each one's all-reduce receives the
    contributions of all the others. *)
Definition setup_world (ps : list (LAMMPS * FixPeriNeigh)) : result (list FixPeriNeigh) :=
  contribs ← collect ((fun p => setup_contribution p.1 p.2) <$> ps);
  collect (imap (fun k p => setup p.1 (delete k contribs) p.2) ps).

(** ** [memory_usage] *)

(** The byte count of [memory_usage] is a product of sizes, not a counter of
    list elements, so its machine arithmetic is written out (LP64, two's
    complement): [sizeof] is a 64-bit unsigned [size_t], an [int] operand of a
    [size_t] operation is converted to [size_t], and storing a [size_t] into
    the [int bytes] keeps the low 32 bits.  The [int] product
    [nmax*maxpartner] is reduced to 32 bits as well (its overflow is
    undefined behaviour in C++). *)
Definition sizeof_int : Z := 4.

Definition to_int (z : Z) : Z := (z + 2 ^ 31) mod 2 ^ 32 - 2 ^ 31.

Definition to_size_t (z : Z) : Z := z mod 2 ^ 64.

Definition memory_usage (a : Atom) (st : FixPeriNeigh) : Q :=
  let nmax := nmax a in
  let bytes := to_int (to_size_t (to_size_t nmax * sizeof_int)) in
  let bytes := to_int (to_size_t (to_size_t bytes +
    to_size_t (to_size_t (to_int (nmax * maxpartner st)) * sizeof_int))) in
  let bytes := to_int (to_size_t (to_size_t bytes +
    to_size_t (to_size_t (to_int (nmax * maxpartner st)) * sizeof_double))) in
  let bytes := to_int (to_size_t (to_size_t bytes +
    to_size_t (to_size_t nmax * sizeof_double))) in
  let bytes := to_int (to_size_t (to_size_t bytes +
    to_size_t (to_size_t nmax * sizeof_double))) in
  int_to_double bytes.

(** The bytes held by the cells of the five per-atom arrays. *)
Definition array_bytes (st : FixPeriNeigh) : Z :=
  sizeof_int * Z.of_nat (length (npartner st)) +
  sizeof_int * Z.of_nat (length (concat (partner st))) +
  sizeof_double * Z.of_nat (length (concat (r0 st))) +
  sizeof_double * Z.of_nat (length (vinter st)) +
  sizeof_double * Z.of_nat (length (wvolume st)).

(** ** Rows as slices of one block *)

(** [memory->create] and [memory->grow] lay a two-dimensional array out as
    one block, row after row (the cut [grow2] makes), and [a[i]] points at
    the first cell of row [i].  The machine finds [a[i][k]] [k] cells after
    the start of row [i]: in row [i], or in another row of the block when [k]
    is not a column of the row; only a cell outside the block is outside the
    allocation.  [rd2] and [wr2] hold the code to the row; [wr2_block] is the
    write as the machine performs it. *)
Definition block_offset {A} (a : list (list A)) (i k : Z) : Z :=
  Z.of_nat (length (concat (take (Z.to_nat i) a))) + k.

(** [data] cut into rows of the lengths [shape]. *)
Fixpoint recut {A} (shape : list nat) (data : list A) : list (list A) :=
  match shape with
  | [] => []
  | n :: shape' => take n data :: recut shape' (drop n data)
  end.

Definition wr2_block {A} (a : list (list A)) (i k : Z) (v : A) : result (list (list A)) :=
  if (0 <=? i) && (i <? Z.of_nat (length a)) then
    let off := block_offset a i k in
    if (0 <=? off) && (off <? Z.of_nat (length (concat a))) then
      Ok (recut (length <$> a) (<[Z.to_nat off := v]> (concat a)))
    else OutOfBounds
  else OutOfBounds.

(** [unpack_exchange] with the cells of [partner] and [r0] found in the
    block. *)
Definition unpack_exchange_block (st : FixPeriNeigh) (nlocal : Z) (buf : buffer)
  : result (Z * FixPeriNeigh) :=
  let m := 0 in
  a ← wr (npartner st) nlocal (double_to_int (buf m));
  let st := set_npartner a st in
  let m := m + 1 in
  np ← rd (npartner st) nlocal;
  '(m, st) ← for_ (seqZ 0 np) (fun n '(m, st) =>
      a ← wr2_block (partner st) nlocal n (double_to_int (buf m));
      let st := set_partner a st in
      b ← wr2_block (r0 st) nlocal n (buf (m + 1));
      let st := set_r0 b st in
      Ok (m + 2, st))
    (m, st);
  a ← wr (vinter st) nlocal (buf m);
  let st := set_vinter a st in
  b ← wr (wvolume st) nlocal (buf (m + 1));
  let st := set_wvolume b st in
  Ok (m + 2, st).

(** ** Record layouts *)

(** The layout of a migration record holding the bonds [lv]. *)
Definition exchange_record (buf : buffer) (lv : list (Z * Q)) (vi wv : Q) : Prop :=
  buf 0 = int_to_double (Z.of_nat (length lv)) ∧
  (∀ (n : nat) t r, lv !! n = Some (t, r) →
     buf (1 + 2 * Z.of_nat n) = int_to_double t ∧ buf (2 + 2 * Z.of_nat n) = r) ∧
  buf (1 + 2 * Z.of_nat (length lv)) = vi ∧
  buf (2 + 2 * Z.of_nat (length lv)) = wv.

(** The layout of a restart record that starts at [buf[off]] and holds the
    bonds [bl]. *)
Definition restart_record (buf : buffer) (off : Z) (bl : list (Z * Q)) (vi wv : Q) : Prop :=
  buf off = int_to_double (2 * Z.of_nat (length bl) + 4) ∧
  buf (off + 1) = int_to_double (Z.of_nat (length bl)) ∧
  (∀ (n : nat) t r, bl !! n = Some (t, r) →
     buf (off + 2 + 2 * Z.of_nat n) = int_to_double t ∧
     buf (off + 2 + 2 * Z.of_nat n + 1) = r) ∧
  buf (off + 2 + 2 * Z.of_nat (length bl)) = vi ∧
  buf (off + 2 + 2 * Z.of_nat (length bl) + 1) = wv.

(** The bonded state of the atom in slot [i]. *)
Definition atom_state (st : FixPeriNeigh) (i : Z)
  : option Z * list (Z * Q) * option Q * option Q :=
  (npartner st !! Z.to_nat i, bonds st i, vinter st !! Z.to_nat i, wvolume st !! Z.to_nat i).

(** ** The restart stream *)

(** A block of doubles read back as an array. *)
Definition buf_of_list (l : list Q) : buffer :=
  fun k => if k <? 0 then 0%Q else default 0%Q (l !! Z.to_nat k).

(** The words [pack_restart] writes for atom [i]. *)
Definition serialize_atom (st : FixPeriNeigh) (i : Z) : result (list Q) :=
  '(m, buf) ← pack_restart st i (fun _ => 0%Q);
  Ok (buf_words buf 0 m).

(** A record that starts with its own length can be skipped over. *)
Definition self_describing (rec : list Q) : Prop :=
  head rec = Some (int_to_double (Z.of_nat (length rec))).

(** Modelled from the spec: the reading side of a restart (read_restart.cpp
    and modify.cpp are not among the sources).  The header is handed to
    [restart], which grows the storage; then every atom's row of
    [atom->extra] is handed to [unpack_restart], this fix being the [nth] one
    with per-atom data. *)
Definition deserialize (fresh : FixPeriNeigh) (a : Atom) (header : list Q)
    (extra : Z → buffer) (nth : Z) : result FixPeriNeigh :=
  let st := restart fresh a (buf_of_list header) in
  for_ (seqZ 0 (nlocal a)) (fun i st => unpack_restart st (extra i) i nth) st.

(** ** What [setup] is expected to build *)

(** The candidates the two scans of the neighbor list meet for atom [i], in
    order, when the scanned part of [ilist] is [il]. *)
Definition scan (L : LAMMPS) (il : list Z) (i : Z) : list Z :=
  il ≫= (fun i' =>
    if i' =? i then (fun j => Z.land j NEIGHMASK) <$> firstneigh (neigh_list L) i
    else []).

Definition candidates (L : LAMMPS) (i : Z) : list Z :=
  scan L (ilist (neigh_list L)) i.

(** The candidates of [i] that pass the cutoff test. *)
Definition accepted_of (L : LAMMPS) (i : Z) (js : list Z) : list Z :=
  filter (fun j => within_cutoff L i j) js.

Definition accepted (L : LAMMPS) (i : Z) : list Z :=
  accepted_of L i (candidates L i).

(** The squared distance of two particles as the builder measures it: the
    differences of the three coordinates, their squares and the sum of the
    squares, in [double] arithmetic. *)
Definition squared_distance (p q : Z → Q) : Q :=
  let d := fun k : Z => p k ⊖ q k in
  d 0 ⊗ d 0 ⊕ d 1 ⊗ d 1 ⊕ d 2 ⊗ d 2.

(** The pair [(i, j)] qualifies for a bond: its squared distance is at most
    the squared cutoff of its type pair, the boundary included. *)
Definition in_horizon (L : LAMMPS) (i j : Z) : Prop :=
  (squared_distance (x (atom L) i) (x (atom L) j)
   <= cutsq L (type (atom L) i) (type (atom L) j))%Q.

#[global] Instance in_horizon_dec L i j : Decision (in_horizon L i j).
Proof.
  unfold in_horizon.
  destruct (Qle_bool (squared_distance (x (atom L) i) (x (atom L) j))
              (cutsq L (type (atom L) i) (type (atom L) j))) eqn:E.
  - left. by apply Qle_bool_iff.
  - right. intros H. apply Qle_bool_iff in H. congruence.
Defined.

(** The record of a bond from [i] to [j]: the partner's tag and the distance
    at build time. *)
Definition bond_record (L : LAMMPS) (i j : Z) : Z * Q :=
  (tag (atom L) j, sqrt (squared_distance (x (atom L) i) (x (atom L) j))).

(** The bond lines 234-235 store for the pair [(i, j)]. *)
Definition bond_of (L : LAMMPS) (i j : Z) : Z * Q :=
  (tag (atom L) j, sqrt (rsq_of (x (atom L)) i j)).

(** Line 237 over the partners [js]. *)
Definition vinter_of (L : LAMMPS) (js : list Z) : Q :=
  foldl (fun v j => v ⊕ vfrac (atom L) j) 0%Q js.

(** Two slots [jj < kk] of a bond list hold the same partner tag. *)
Definition has_duplicate (bl : list (Z * Q)) : Prop :=
  ∃ (jj kk : nat) t r1 r2,
    (jj < kk)%nat ∧ bl !! jj = Some (t, r1) ∧ bl !! kk = Some (t, r2).

Definition list_max0 (l : list Z) : Z := foldr Z.max 0 l.

(** A swap that stays inside the arrays of [nmax] atoms and receives into
    ghost slots, behind the [nlocal] owned atoms. *)
Definition swap_ok (nlocal nmax : Z) (sw : Swap) : Prop :=
  (∀ k, 0 ≤ k < sendnum sw → 0 ≤ sendlist sw k < nmax) ∧
  nlocal ≤ firstrecv sw ∧ firstrecv sw + recvnum sw ≤ nmax.

(** What [setup] relies on when it builds: the store is allocated and not
    yet built, the constructor's zeroes are in place for the owned atoms, the
    neighbor list has owned atoms in [ilist], and the swaps are in range. *)
Definition ready (L : LAMMPS) (st : FixPeriNeigh) : Prop :=
  allocated (nmax (atom L)) st ∧
  0 ≤ nlocal (atom L) ≤ nmax (atom L) ∧
  first st ≠ 0 ∧
  (∀ i, 0 ≤ i < nlocal (atom L) → npartner st !! Z.to_nat i = Some 0) ∧
  Forall (fun i => 0 ≤ i < nlocal (atom L)) (ilist (neigh_list L)) ∧
  Forall (swap_ok (nlocal (atom L)) (nmax (atom L))) (swaps L).

(** The bond counts of the owned atoms of a partition. *)
Definition local_degrees (L : LAMMPS) : list Z :=
  (fun i => Z.of_nat (length (accepted L i))) <$> seqZ 0 (nlocal (atom L)).

(** The diagnostic of line 251. *)
Definition dup_msg : string :=
  "Duplicate particle in PeriDynamic bond - simulation box is too small".

(** ** What [setup] is expected to accumulate into [wvolume] *)

(** A bond slot counts when it is live and its partner tag maps to a local
    or ghost atom. *)
Definition resolvable (L : LAMMPS) (b : Z * Q) : bool :=
  negb (b.1 =? 0) && negb (map (atom L) b.1 <? 0).

(** The weight of the influence function for the displacement from [i] to
    [j] in the reference configuration. *)
Definition influence (L : LAMMPS) (i j : Z) : option Q :=
  let x0 := x0 (atom L) in
  match anypair L with
  | PairPeriPMB => Some 1%Q
  | PairPeriLPS f =>
      Some (f (x0 i 0 ⊖ x0 j 0) (x0 i 1 ⊖ x0 j 1) (x0 i 2 ⊖ x0 j 2))
  | PairOther => None
  end.

(** [wvolume[i]] after the bond [b] of atom [i] has been visited. *)
Definition wvolume_add (L : LAMMPS) (i : Z) (w : Q) (b : Z * Q) : Q :=
  if resolvable L b then
    let j := map (atom L) b.1 in
    let delta := sqrt (cutsq L (type (atom L) i) (type (atom L) j)) in
    let half_lc := (1 # 2)%Q ⊗ xlattice (domain L) in
    match influence L i j with
    | Some k =>
        w ⊕ k ⊗ rsq_of (x0 (atom L)) i j ⊗ vfrac (atom L) j
              ⊗ vfrac_scale half_lc delta b.2
    | None => w
    end
  else w.

Definition wvolume_of (L : LAMMPS) (i : Z) (w : Q) (bl : list (Z * Q)) : Q :=
  foldl (wvolume_add L i) w bl.

(** What the check of lines 245-256 looks for in the store [stb]: the domain
    is periodic and an owned atom has a duplicate partner. *)
Definition duplicate_found (L : LAMMPS) (stb : FixPeriNeigh) : Prop :=
  periodic (domain L) = true ∧
  ∃ i, 0 ≤ i < nlocal (atom L) ∧ has_duplicate (bonds stb i).


(** The bond counts [npartner[i]] of the owned atoms of every partition,
    read off the stores [outs] the partitions end with. *)
Definition world_degrees (ps : list (LAMMPS * FixPeriNeigh)) (outs : list FixPeriNeigh)
  : list Z :=
  concat (zip_with (fun p out => take (Z.to_nat (nlocal (atom p.1))) (npartner out))
            ps outs).

(** The part of a store that writing into slot [j] cannot change. *)
Definition same_but (j : Z) (st s : FixPeriNeigh) : Prop :=
  first s = first st ∧ maxpartner s = maxpartner st ∧
  length (npartner s) = length (npartner st) ∧
  length <$> partner s = length <$> partner st ∧
  length <$> r0 s = length <$> r0 st ∧
  length (vinter s) = length (vinter st) ∧
  length (wvolume s) = length (wvolume st) ∧
  ∀ k : nat, k ≠ Z.to_nat j →
    npartner s !! k = npartner st !! k ∧ partner s !! k = partner st !! k ∧
    r0 s !! k = r0 st !! k ∧ vinter s !! k = vinter st !! k ∧
    wvolume s !! k = wvolume st !! k.

(** The store [s] when [unpack_exchange_block] has read [n] pairs of the
    record [buf] for slot [j] of the store [st] of [nmax] atoms: the pairs
    lie in the blocks of [partner] and [r0] from the start of row [j] on,
    and nothing else but [npartner[j]] has changed. *)
Definition block_filled (nmax j : Z) (buf : buffer) (st : FixPeriNeigh) (n : Z)
    (s : FixPeriNeigh) : Prop :=
  first s = first st ∧ maxpartner s = maxpartner st ∧
  npartner s = <[Z.to_nat j := double_to_int (buf 0)]> (npartner st) ∧
  vinter s = vinter st ∧ wvolume s = wvolume st ∧
  length (partner s) = Z.to_nat nmax ∧
  Forall (fun row => length row = Z.to_nat (maxpartner st)) (partner s) ∧
  length (r0 s) = Z.to_nat nmax ∧
  Forall (fun row => length row = Z.to_nat (maxpartner st)) (r0 s) ∧
  ∀ k, 0 ≤ k < n →
    concat (partner s) !! Z.to_nat (j * maxpartner st + k)
      = Some (double_to_int (buf (1 + 2 * k))) ∧
    concat (r0 s) !! Z.to_nat (j * maxpartner st + k) = Some (buf (2 + 2 * k)).

(** ** Concrete partitions *)

(** Four atoms on a line with spacing 1 and horizon 1.5 (squared cutoff 9/4);
    two more slots for ghosts.  Atom [i] has tag [i+1]. *)
Definition line_atom : Atom :=
  mkAtom 4 6
    (fun i d => if d =? 0 then inject_Z i else 0%Q)
    (fun i d => if d =? 0 then inject_Z i else 0%Q)
    (fun _ => 1%Q) (fun _ => 1) (fun i => i + 1)
    (fun t => if (1 <=? t) && (t <=? 4) then t - 1 else -1).

Definition line_list : NeighList :=
  mkNeighList [0; 1; 2; 3]
    (fun i => if i =? 0 then [1; 2; 3] else if i =? 1 then [0; 2; 3]
              else if i =? 2 then [0; 1; 3] else [0; 1; 2]).

Definition line : LAMMPS :=
  mkLAMMPS line_atom line_list (fun _ _ => 9 # 4)%Q PairPeriPMB
    (mkDomain 0 0 0 (1 # 2)%Q) [].

(** A second partition: two atoms at distance 1, tags 5 and 6. *)
Definition pair_atom : Atom :=
  mkAtom 2 2
    (fun i d => if d =? 0 then inject_Z i else 0%Q)
    (fun i d => if d =? 0 then inject_Z i else 0%Q)
    (fun _ => 1%Q) (fun _ => 1) (fun i => i + 5)
    (fun t => if (5 <=? t) && (t <=? 6) then t - 5 else -1).

Definition pair_list : NeighList :=
  mkNeighList [0; 1] (fun i => if i =? 0 then [1] else [0]).

Definition pair : LAMMPS :=
  mkLAMMPS pair_atom pair_list (fun _ _ => 9 # 4)%Q PairPeriPMB
    (mkDomain 0 0 0 (1 # 2)%Q) [].

(** The line in a periodic box of length 2: atom 0 meets atom 1 (tag 2) twice,
    as itself and as the ghost image in slot 4. *)
Definition wrapped_atom : Atom :=
  mkAtom 4 6
    (fun i d => if d =? 0 then (if i =? 4 then inject_Z (-1) else inject_Z i) else 0%Q)
    (fun i d => if d =? 0 then (if i =? 4 then inject_Z (-1) else inject_Z i) else 0%Q)
    (fun _ => 1%Q) (fun _ => 1) (fun i => if i =? 4 then 2 else i + 1)
    (fun t => if (1 <=? t) && (t <=? 4) then t - 1 else -1).

Definition wrapped_list : NeighList :=
  mkNeighList [0; 1; 2; 3]
    (fun i => if i =? 0 then [1; 4] else if i =? 1 then [0; 2]
              else if i =? 2 then [1; 3] else [2]).

Definition wrapped : LAMMPS :=
  mkLAMMPS wrapped_atom wrapped_list (fun _ _ => 9 # 4)%Q PairPeriPMB
    (mkDomain 1 0 0 (1 # 2)%Q) [].

(** Stores as the constructor leaves them, for 6 and for 2 slots. *)
Definition fresh6 : FixPeriNeigh :=
  mkFix 1 1 [0; 0; 0; 0; 7; 7] [[7]; [7]; [7]; [7]; [7]; [7]]
    [[5 # 3]; [5 # 3]; [5 # 3]; [5 # 3]; [5 # 3]; [5 # 3]]%Q
    [5 # 3; 5 # 3; 5 # 3; 5 # 3; 5 # 3; 5 # 3]%Q
    [5 # 3; 5 # 3; 5 # 3; 5 # 3; 5 # 3; 5 # 3]%Q.

Definition fresh2 : FixPeriNeigh :=
  mkFix 1 1 [0; 0] [[7]; [7]] [[5 # 3]; [5 # 3]]%Q [5 # 3; 5 # 3]%Q [5 # 3; 5 # 3]%Q.

(** The line's store after lines 150-240, and the same with the second bond
    of atom 1 broken. *)
Definition built6 : FixPeriNeigh :=
  mkFix 0 2 [1; 2; 2; 1; 7; 7]
    [[2; 7]; [1; 3]; [2; 4]; [3; 7]; [7; 7]; [7; 7]]
    [[1; 5 # 3]; [1; 1]; [1; 1]; [1; 5 # 3]; [5 # 3; 5 # 3]; [5 # 3; 5 # 3]]%Q
    [1; 2; 2; 1; 5 # 3; 5 # 3]%Q
    [0; 0; 0; 0; 5 # 3; 5 # 3]%Q.

Definition broken6 : FixPeriNeigh :=
  mkFix 0 2 [1; 2; 2; 1; 7; 7]
    [[2; 7]; [0; 3]; [2; 4]; [3; 7]; [7; 7]; [7; 7]]
    [[1; 5 # 3]; [1; 1]; [1; 1]; [1; 5 # 3]; [5 # 3; 5 # 3]; [5 # 3; 5 # 3]]%Q
    [1; 2; 2; 1; 5 # 3; 5 # 3]%Q
    [3; 4; 5; 6; 5 # 3; 5 # 3]%Q.

(** [NEIGHMASK] as lmptype.h has it, a square root that is exact on squares
    of rationals, and an allocator that hands out sevens and 5/3. *)
Definition mask30 : Z := 1073741823.

Definition root (q : Q) : Q := (Z.sqrt (Qnum q * Zpos (Qden q)) # Qden q)%Q.

Definition sevens (name : string) (k : nat) : Z := 7.

Definition thirds (name : string) (k : nat) : Q := (5 # 3)%Q.

(** The line's store when [setup] has returned (no ghost exchange), and the
    store [built6] after the migration record of [broken6]'s atom 1 has been
    unpacked into slot 4. *)
Definition settled6 : FixPeriNeigh :=
  mkFix 0 2 [1; 2; 2; 1; 7; 7]
    [[2; 7]; [1; 3]; [2; 4]; [3; 7]; [7; 7]; [7; 7]]
    [[1; 5 # 3]; [1; 1]; [1; 1]; [1; 5 # 3]; [5 # 3; 5 # 3]; [5 # 3; 5 # 3]]%Q
    [1; 2; 2; 1; 5 # 3; 5 # 3]%Q
    [1; 2; 2; 1; 5 # 3; 5 # 3]%Q.

Definition record5 : list Q := [1; 3; 1; 2; 4]%Q.

Definition arrived6 : FixPeriNeigh :=
  mkFix 0 2 [1; 2; 2; 1; 1; 7]
    [[2; 7]; [1; 3]; [2; 4]; [3; 7]; [3; 7]; [7; 7]]
    [[1; 5 # 3]; [1; 1]; [1; 1]; [1; 5 # 3]; [1; 5 # 3]; [5 # 3; 5 # 3]]%Q
    [1; 2; 2; 1; 2; 5 # 3]%Q
    [0; 0; 0; 0; 4; 5 # 3]%Q.

(** A record that announces three bonds. *)
Definition record9 : list Q := [3; 1; 1; 2; 1; 3; 1; 0; 0]%Q.

(** The line's atoms with an empty neighbor list. *)
Definition idle : LAMMPS :=
  mkLAMMPS line_atom (mkNeighList [] (fun _ => [])) (fun _ _ => 9 # 4)%Q PairPeriPMB
    (mkDomain 1 1 1 (1 # 2)%Q) [].

(** Three atoms on a line at 0, 3/2 and 7/2 with horizon 3/2 (squared cutoff
    9/4) and lattice spacing 1/2: atoms 0 and 1 are exactly at the cutoff
    from each other, which is also the far edge of the blend band. *)
Definition edge_atom : Atom :=
  mkAtom 3 4
    (fun i d => if d =? 0 then (if i =? 0 then 0 else if i =? 1 then 3 # 2 else 7 # 2)%Q
                else 0%Q)
    (fun i d => if d =? 0 then (if i =? 0 then 0 else if i =? 1 then 3 # 2 else 7 # 2)%Q
                else 0%Q)
    (fun _ => 1%Q) (fun _ => 1) (fun i => i + 1)
    (fun t => if (1 <=? t) && (t <=? 3) then t - 1 else -1).

Definition edge_list : NeighList :=
  mkNeighList [0; 1; 2]
    (fun i => if i =? 0 then [1; 2] else if i =? 1 then [0; 2] else [0; 1]).

Definition edge : LAMMPS :=
  mkLAMMPS edge_atom edge_list (fun _ _ => 9 # 4)%Q PairPeriPMB
    (mkDomain 0 0 0 (1 # 2)%Q) [].

Definition fresh4 : FixPeriNeigh :=
  mkFix 1 1 [0; 0; 0; 7] [[7]; [7]; [7]; [7]]
    [[5 # 3]; [5 # 3]; [5 # 3]; [5 # 3]]%Q
    [5 # 3; 5 # 3; 5 # 3; 5 # 3]%Q
    [5 # 3; 5 # 3; 5 # 3; 5 # 3]%Q.

(** Two atoms 10^16 apart with horizon 10^16 and lattice spacing 2. *)
Definition far_atom : Atom :=
  mkAtom 2 2
    (fun i d => if d =? 0 then (if i =? 0 then 0%Q else inject_Z (10 ^ 16)) else 0%Q)
    (fun i d => if d =? 0 then (if i =? 0 then 0%Q else inject_Z (10 ^ 16)) else 0%Q)
    (fun _ => 1%Q) (fun _ => 1) (fun i => i + 1)
    (fun t => if (1 <=? t) && (t <=? 2) then t - 1 else -1).

Definition far : LAMMPS :=
  mkLAMMPS far_atom (mkNeighList [0; 1] (fun i => if i =? 0 then [1] else [0]))
    (fun _ _ => round64 (inject_Z (10 ^ 32))) PairPeriPMB
    (mkDomain 0 0 0 2%Q) [].

(** The [double] nearest to 7/10, and two atoms that far apart with the
    squared cutoff [0.7 * 0.7] of the machine. *)
Definition d07 : Q := (3152519739159347 # 4503599627370496)%Q.

Definition grazing : LAMMPS :=
  mkLAMMPS
    (mkAtom 2 2
       (fun i d => if d =? 0 then (if i =? 0 then 0%Q else d07) else 0%Q)
       (fun i d => if d =? 0 then (if i =? 0 then 0%Q else d07) else 0%Q)
       (fun _ => 1%Q) (fun _ => 1) (fun i => i + 1)
       (fun t => if (1 <=? t) && (t <=? 2) then t - 1 else -1))
    (mkNeighList [0; 1] (fun i => if i =? 0 then [1] else [0]))
    (fun _ _ => round64 (d07 * d07)) PairPeriPMB
    (mkDomain 0 0 0 (1 # 2)%Q) [].

(** An atom at the origin and one at (0.1, 0.1, 0.4), as [double]s, with the
    squared cutoff 0.18000000000000002. *)
Definition d01 : Q := (3602879701896397 # 36028797018963968)%Q.
Definition d04 : Q := (3602879701896397 # 9007199254740992)%Q.
Definition c018 : Q := (6485183463413515 # 36028797018963968)%Q.

Definition skimming : LAMMPS :=
  mkLAMMPS
    (mkAtom 2 2
       (fun i d => if i =? 0 then 0%Q else if d =? 2 then d04 else d01)
       (fun i d => if i =? 0 then 0%Q else if d =? 2 then d04 else d01)
       (fun _ => 1%Q) (fun _ => 1) (fun i => i + 1)
       (fun t => if (1 <=? t) && (t <=? 2) then t - 1 else -1))
    (mkNeighList [0; 1] (fun i => if i =? 0 then [1] else [0]))
    (fun _ _ => c018) PairPeriPMB
    (mkDomain 0 0 0 (1 # 2)%Q) [].

(** The store of [edge] after lines 150-240, and [built6] after a record
    announcing three bonds has been unpacked into slot 4 by the machine. *)
Definition edge_built : FixPeriNeigh :=
  mkFix 0 1 [1; 1; 0; 7] [[2]; [1]; [7]; [7]]
    [[3 # 2]; [3 # 2]; [5 # 3]; [5 # 3]]%Q
    [1; 1; 0; 5 # 3]%Q
    [0; 0; 0; 5 # 3]%Q.

Definition overrun6 : FixPeriNeigh :=
  mkFix 0 2 [1; 2; 2; 1; 3; 7]
    [[2; 7]; [1; 3]; [2; 4]; [3; 7]; [1; 2]; [3; 7]]
    [[1; 5 # 3]; [1; 1]; [1; 1]; [1; 5 # 3]; [1; 1]; [1; 5 # 3]]%Q
    [1; 2; 2; 1; 0; 5 # 3]%Q
    [0; 0; 0; 0; 0; 5 # 3]%Q.

(** * Proofs *)

(** ** Arrays and loops *)

Lemma rd_Ok {A} (a : list A) i v : 0 ≤ i → a !! Z.to_nat i = Some v → rd a i = Ok v.
Proof.
  intros Hi Hv. unfold rd. rewrite Hv.
  destruct (0 <=? i) eqn:E; [done | lia].
Qed.

Lemma rd_Ok_inv {A} (a : list A) i v : rd a i = Ok v → 0 ≤ i ∧ a !! Z.to_nat i = Some v.
Proof.
  unfold rd. destruct (0 <=? i) eqn:E; [|done].
  destruct (a !! Z.to_nat i); [|done]. intros [= ->]. split; [lia | done].
Qed.

Lemma wr_Ok {A} (a : list A) i v :
  0 ≤ i < Z.of_nat (length a) → wr a i v = Ok (<[Z.to_nat i := v]> a).
Proof.
  intros Hi. unfold wr.
  destruct (0 <=? i) eqn:E1; [|lia]. destruct (i <? Z.of_nat (length a)) eqn:E2; [done | lia].
Qed.

Lemma wr_Ok_inv {A} (a : list A) i v a' :
  wr a i v = Ok a' → 0 ≤ i < Z.of_nat (length a) ∧ a' = <[Z.to_nat i := v]> a.
Proof.
  unfold wr. destruct (0 <=? i) eqn:E1; [|done].
  destruct (i <? Z.of_nat (length a)) eqn:E2; [|done].
  intros [= <-]. split; [lia | done].
Qed.

Lemma bind_Ok {A B} (a : A) (f : A → result B) : (Ok a ≫= f) = f a.
Proof. done. Qed.

Lemma for__cons {S} n l body (s : S) :
  for_ (n :: l) body s = (s' ← body n s; for_ l body s').
Proof. done. Qed.

Lemma for__app {S} l1 l2 body (s : S) :
  for_ (l1 ++ l2) body s = (s' ← for_ l1 body s; for_ l2 body s').
Proof.
  revert s. induction l1 as [|n l1 IH]; intros s; [done|].
  simpl. destruct (body n s); simpl; auto.
Qed.

Lemma for__list_rule {S} (Inv : list Z → S → Prop) body l s0 :
  Inv [] s0 →
  (∀ pre n post s, l = pre ++ n :: post → Inv pre s →
     ∃ s', body n s = Ok s' ∧ Inv (pre ++ [n]) s') →
  ∃ s', for_ l body s0 = Ok s' ∧ Inv l s'.
Proof.
  intros H0 Hstep.
  cut (∀ post pre s, l = pre ++ post → Inv pre s →
         ∃ s', for_ post body s = Ok s' ∧ Inv l s').
  { intros Hc. apply (Hc l [] s0); done. }
  induction post as [|n post IH]; intros pre s Hl Hinv.
  - rewrite app_nil_r in Hl. subst pre. by exists s.
  - destruct (Hstep pre n post s Hl Hinv) as (s' & Hb & Hinv').
    simpl. rewrite Hb. simpl. apply (IH (pre ++ [n])); [|done].
    by rewrite <- app_assoc.
Qed.

Lemma for__seqZ_rule {S} (Inv : Z → S → Prop) body a n s0 :
  0 ≤ n → Inv a s0 →
  (∀ k s, a ≤ k < a + n → Inv k s → ∃ s', body k s = Ok s' ∧ Inv (k + 1) s') →
  ∃ s', for_ (seqZ a n) body s0 = Ok s' ∧ Inv (a + n) s'.
Proof.
  intros Hn H0 Hstep.
  destruct (for__list_rule (fun pre s => Inv (a + Z.of_nat (length pre)) s) body (seqZ a n) s0)
    as (s' & Hs' & Hinv).
  - simpl. by rewrite Z.add_0_r.
  - intros pre k post s Hl Hinv.
    assert (Hk : seqZ a n !! length pre = Some k).
    { rewrite Hl. by rewrite list_lookup_middle. }
    apply lookup_seqZ in Hk as [-> Hlt].
    destruct (Hstep (a + Z.of_nat (length pre)) s) as (s' & Hb & Hinv'); [lia|done|].
    exists s'. split; [done|]. rewrite length_app. simpl.
    replace (a + Z.of_nat (length pre + 1)) with (a + Z.of_nat (length pre) + 1) by lia. done.
  - exists s'. split; [done|]. rewrite length_seqZ in Hinv.
    by replace (a + Z.of_nat (Z.to_nat n)) with (a + n) in Hinv by lia.
Qed.

Lemma for__seqZ_rule' {S} (Inv : Z → S → Prop) body a n s0 :
  Inv a s0 →
  (∀ k s, a ≤ k < a + n → Inv k s → ∃ s', body k s = Ok s' ∧ Inv (k + 1) s') →
  ∃ s', for_ (seqZ a n) body s0 = Ok s' ∧ Inv (a + Z.max 0 n) s'.
Proof.
  intros H0 Hstep. destruct (Z.le_gt_cases 0 n) as [Hn|Hn].
  - rewrite Z.max_r by done. by apply for__seqZ_rule.
  - rewrite Z.max_l by lia. rewrite Z.add_0_r. exists s0. split; [|done].
    unfold seqZ. replace (Z.to_nat n) with 0%nat by lia. done.
Qed.

Lemma rd2_Ok {A} (a : list (list A)) i k row v :
  0 ≤ i → a !! Z.to_nat i = Some row → 0 ≤ k → row !! Z.to_nat k = Some v →
  rd2 a i k = Ok v.
Proof.
  intros Hi Hrow Hk Hv. unfold rd2. rewrite (rd_Ok a i row) by done. simpl.
  by apply rd_Ok.
Qed.

Lemma wr2_Ok {A} (a : list (list A)) i k row v :
  0 ≤ i → a !! Z.to_nat i = Some row → 0 ≤ k < Z.of_nat (length row) →
  wr2 a i k v = Ok (<[Z.to_nat i := <[Z.to_nat k := v]> row]> a).
Proof.
  intros Hi Hrow Hk. unfold wr2. rewrite (rd_Ok a i row) by done. simpl.
  rewrite wr_Ok by done. simpl. apply wr_Ok.
  apply lookup_lt_Some in Hrow. lia.
Qed.

Lemma double_to_int_to_double z : double_to_int (int_to_double z) = z.
Proof. unfold double_to_int, int_to_double. simpl. apply Z.quot_1_r. Qed.

Lemma buf_set_eq buf m v : buf_set buf m v m = v.
Proof. unfold buf_set. by rewrite Z.eqb_refl. Qed.

Lemma buf_set_ne buf m v k : k ≠ m → buf_set buf m v k = buf k.
Proof. intros H. unfold buf_set. destruct (k =? m) eqn:E; [lia | done]. Qed.



Lemma for__ext {S} l (body1 body2 : Z → S → result S) s :
  (∀ n s, n ∈ l → body1 n s = body2 n s) →
  for_ l body1 s = for_ l body2 s.
Proof.
  revert s. induction l as [|n l IH]; intros s Hext; [done|].
  simpl. rewrite (Hext n s) by apply list_elem_of_here.
  destruct (body2 n s); simpl; try done.
  apply IH. intros n' s' Hn'. apply Hext. by apply list_elem_of_further.
Qed.

Lemma for__preserve {S} (Inv : S → Prop) l body s0 s' :
  (∀ n s s1, n ∈ l → Inv s → body n s = Ok s1 → Inv s1) →
  Inv s0 → for_ l body s0 = Ok s' → Inv s'.
Proof.
  revert s0. induction l as [|n l IH]; intros s0 Hstep H0 Hrun.
  - simpl in Hrun. by injection Hrun as <-.
  - simpl in Hrun. destruct (body n s0) as [s1| |] eqn:Hb; try done.
    simpl in Hrun. apply (IH s1); [|by eapply Hstep; [apply list_elem_of_here|..]|done].
    intros n' s s2 Hn'. apply Hstep. by apply list_elem_of_further.
Qed.

(** Loops that carry no variables: they either run through or stop at the
    first iteration that fails. *)
Lemma for__unit_Ok l (body : Z → unit → result unit) :
  for_ l body tt = Ok tt ↔ Forall (fun n => body n tt = Ok tt) l.
Proof.
  induction l as [|n l IH]; simpl.
  - split; [constructor | done].
  - split.
    + destruct (body n tt) as [[]| |] eqn:E; simpl; try done.
      intros H. constructor; [done | by apply IH].
    + intros H. apply Forall_cons in H as [-> H]. simpl. by apply IH.
Qed.

Lemma for__unit_stop l (body : Z → unit → result unit) r :
  for_ l body tt = r → r ≠ Ok tt → ∃ n, n ∈ l ∧ body n tt = r.
Proof.
  induction l as [|n l IH]; simpl; intros Hr Hne.
  - by subst r.
  - destruct (body n tt) as [[]| |] eqn:E; simpl in Hr.
    + destruct (IH Hr Hne) as (k & Hk & Hb). exists k. split; [by apply list_elem_of_further | done].
    + exists n. split; [apply list_elem_of_here | congruence].
    + exists n. split; [apply list_elem_of_here | congruence].
Qed.

(** ** MigrationCodec *)

Lemma bonds_unfold st i np ps rs :
  npartner st !! Z.to_nat i = Some np →
  partner st !! Z.to_nat i = Some ps →
  r0 st !! Z.to_nat i = Some rs →
  bonds st i = take (Z.to_nat np) (zip ps rs).
Proof.
  intros Hnp Hps Hrs. unfold bonds. rewrite Hnp, Hps, Hrs.
  symmetry. apply zip_with_take.
Qed.

Lemma filter_live_snoc (l : list (Z * Q)) t r :
  filter live (l ++ [(t, r)]) =
  if t =? 0 then filter live l else filter live l ++ [(t, r)].
Proof.
  rewrite filter_app. destruct (t =? 0) eqn:E.
  - rewrite filter_cons_False, filter_nil, app_nil_r; [done|].
    unfold live. simpl. rewrite E. simpl. exact (fun H => H).
  - rewrite filter_cons_True, filter_nil; [done|].
    unfold live. simpl. by rewrite E.
Qed.

Lemma pack_exchange_spec st i buf np ps rs vi wv :
  0 ≤ i →
  npartner st !! Z.to_nat i = Some np →
  partner st !! Z.to_nat i = Some ps →
  r0 st !! Z.to_nat i = Some rs →
  vinter st !! Z.to_nat i = Some vi →
  wvolume st !! Z.to_nat i = Some wv →
  np ≤ Z.of_nat (length ps) → np ≤ Z.of_nat (length rs) →
  ∃ buf',
    pack_exchange st i buf
      = Ok (2 * Z.of_nat (length (filter live (bonds st i))) + 3, buf') ∧
    exchange_record buf' (filter live (bonds st i)) vi wv.
Proof.
  intros Hi Hnp Hps Hrs Hvi Hwv Hlp Hlr.
  unfold pack_exchange. rewrite (rd_Ok _ _ _ Hi Hnp). simpl.
  rewrite (bonds_unfold st i np ps rs) by done.
  set (bl := zip ps rs).
  match goal with |- context [for_ _ ?b _] => set (body := b) end.
  destruct (for__seqZ_rule'
    (fun n '(m, b) =>
       let lv := filter live (take (Z.to_nat n) bl) in
       m = 1 + 2 * Z.of_nat (length lv) ∧
       ∀ (k : nat) t r, lv !! k = Some (t, r) →
         b (1 + 2 * Z.of_nat k) = int_to_double t ∧ b (2 + 2 * Z.of_nat k) = r)
    body 0 np (1, buf)) as ([m b] & Hloop & Hm & Hb).
  - simpl. split; [done|]. intros k t r Hk. done.
  - intros n [m b] Hn [Hm Hb]. simpl in Hm, Hb.
    destruct (lookup_lt_is_Some_2 ps (Z.to_nat n)) as [p Hp]; [lia|].
    destruct (lookup_lt_is_Some_2 rs (Z.to_nat n)) as [r Hr]; [lia|].
    assert (Hbl : bl !! Z.to_nat n = Some (p, r)) by by apply lookup_zip_Some.
    assert (Hsnoc : take (Z.to_nat (n + 1)) bl = take (Z.to_nat n) bl ++ [(p, r)]).
    { replace (Z.to_nat (n + 1)) with (S (Z.to_nat n)) by lia. by apply take_S_r. }
    unfold body. rewrite (rd2_Ok _ i n ps p) by (done || lia). simpl.
    rewrite Hsnoc, filter_live_snoc.
    destruct (p =? 0) eqn:E.
    + exists (m, b). done.
    + rewrite (rd2_Ok _ i n rs r) by (done || lia). simpl.
      eexists. split; [done|]. simpl. split.
      * rewrite length_app. simpl. lia.
      * intros k t r' Hk.
        destruct (decide (k < length (filter live (take (Z.to_nat n) bl)))%nat) as [Hlt|Hge].
        -- rewrite lookup_app_l in Hk by done.
           rewrite !buf_set_ne by lia. by apply Hb.
        -- rewrite lookup_app_r in Hk by lia.
           apply list_lookup_singleton_Some in Hk as [Hk [= <- <-]].
           assert (Z.of_nat k = Z.of_nat (length (filter live (take (Z.to_nat n) bl)))) by lia.
           split.
           ++ rewrite buf_set_ne by lia. replace (1 + 2 * Z.of_nat k) with m by lia.
              apply buf_set_eq.
           ++ replace (2 + 2 * Z.of_nat k) with (m + 1) by lia. apply buf_set_eq.
  - rewrite Hloop. simpl.
    rewrite (rd_Ok _ _ _ Hi Hvi). simpl. rewrite (rd_Ok _ _ _ Hi Hwv). simpl.
    rewrite Z.add_0_l in Hm, Hb.
    replace (Z.to_nat (Z.max 0 np)) with (Z.to_nat np) in Hm, Hb by lia.
    set (lv := filter live (take (Z.to_nat np) bl)) in *.
    eexists. split; [f_equal; f_equal; lia|].
    unfold exchange_record. split; [|split; [|split]].
    + rewrite !buf_set_ne by lia. rewrite buf_set_eq. f_equal.
      rewrite Hm. replace (1 + 2 * Z.of_nat (length lv)) with (Z.of_nat (length lv) * 2 + 1) by lia.
      rewrite Z.quot_div_nonneg by lia. rewrite Z.div_add_l by lia.
      rewrite (Z.div_small 1 2) by lia. lia.
    + intros n t r Hn. destruct (Hb _ _ _ Hn) as [H1 H2].
      apply lookup_lt_Some in Hn. rewrite !buf_set_ne by lia. done.
    + rewrite buf_set_ne by lia. rewrite <- Hm. apply buf_set_eq.
    + replace (2 + 2 * Z.of_nat (length lv)) with (m + 1) by lia. apply buf_set_eq.
Qed.

(** The loop that reads [(tag, r0)] pairs out of a record into slot [j],
    shared by [unpack_exchange] and [unpack_restart]. *)
Lemma unpack_loop_spec st j (buf : buffer) m0 (lv : list (Z * Q)) ps rs :
  0 ≤ j →
  partner st !! Z.to_nat j = Some ps →
  r0 st !! Z.to_nat j = Some rs →
  (length lv ≤ length ps)%nat → (length lv ≤ length rs)%nat →
  (∀ (n : nat) t r, lv !! n = Some (t, r) →
     buf (m0 + 2 * Z.of_nat n) = int_to_double t ∧ buf (m0 + 2 * Z.of_nat n + 1) = r) →
  ∃ ps' rs',
    for_ (seqZ 0 (Z.of_nat (length lv))) (fun n '(m, st) =>
        a ← wr2 (partner st) j n (double_to_int (buf m));
        let st := set_partner a st in
        b ← wr2 (r0 st) j n (buf (m + 1));
        let st := set_r0 b st in
        Ok (m + 2, st))
      (m0, st)
    = Ok (m0 + 2 * Z.of_nat (length lv),
          set_r0 (<[Z.to_nat j := rs']> (r0 st))
            (set_partner (<[Z.to_nat j := ps']> (partner st)) st)) ∧
    length ps' = length ps ∧ length rs' = length rs ∧
    zip (take (length lv) ps') (take (length lv) rs') = lv.
Proof.
  intros Hj Hps Hrs Hlp Hlr Hbuf.
  match goal with |- context [for_ _ ?b _] => set (body := b) end.
  destruct (for__seqZ_rule
    (fun n '(m, s) =>
       m = m0 + 2 * n ∧
       ∃ ps' rs',
         s = set_r0 (<[Z.to_nat j := rs']> (r0 st))
               (set_partner (<[Z.to_nat j := ps']> (partner st)) st) ∧
         length ps' = length ps ∧ length rs' = length rs ∧
         ∀ (k : nat) t r, (Z.of_nat k < n) → lv !! k = Some (t, r) →
           ps' !! k = Some t ∧ rs' !! k = Some r)
    body 0 (Z.of_nat (length lv)) (m0, st)) as ([m s] & Hloop & Hm & ps' & rs' & -> & Hlp' & Hlr' & Hrows).
  - lia.
  - split; [lia|]. exists ps, rs. repeat split; try done.
    + destruct st. unfold set_r0, set_partner. simpl in *.
      by rewrite !list_insert_id.
    + lia.
    + lia.
  - intros n [m s] Hn (-> & ps' & rs' & -> & Hlp' & Hlr' & Hrows).
    destruct (lookup_lt_is_Some_2 lv (Z.to_nat n)) as [[t r] Hlv]; [lia|].
    destruct (Hbuf _ _ _ Hlv) as [Hb1 Hb2].
    replace (Z.of_nat (Z.to_nat n)) with n in Hb1, Hb2 by lia.
    apply lookup_lt_Some in Hps as Hjp. apply lookup_lt_Some in Hrs as Hjr.
    unfold body. simpl.
    rewrite (wr2_Ok _ j n ps'); [| done | by rewrite list_lookup_insert_eq | lia]. simpl.
    rewrite (wr2_Ok _ j n rs'); [| done | by rewrite list_lookup_insert_eq | lia]. simpl.
    eexists. split; [done|]. simpl. split; [lia|].
    eexists _, _. split; [|split; [|split]].
    + unfold set_r0, set_partner. simpl. by rewrite !list_insert_insert_eq.
    + by rewrite length_insert.
    + by rewrite length_insert.
    + intros k t' r' Hk Hlk.
      destruct (decide (k = Z.to_nat n)) as [->|Hne].
      * rewrite Hlv in Hlk. injection Hlk as <- <-.
        rewrite !list_lookup_insert_eq by lia.
        rewrite Hb1, Hb2, double_to_int_to_double. done.
      * rewrite !list_lookup_insert_ne by done. apply Hrows; [lia | done].
  - exists ps', rs'. rewrite Hloop. split; [by rewrite Hm|].
    split; [done|]. split; [done|].
    apply list_eq. intros k.
    destruct (lv !! k) as [[t r]|] eqn:Hk.
    + apply lookup_lt_Some in Hk as Hlt.
      destruct (Hrows k t r) as [H1 H2]; [lia | done |].
      apply lookup_zip_Some. rewrite !lookup_take_lt by done. done.
    + apply lookup_ge_None in Hk. apply lookup_ge_None.
      rewrite length_zip, !length_take. lia.
Qed.

(** Rewrite the loop of the goal with the equation [H], up to conversion. *)
Ltac rewrite_loop H :=
  match type of H with
  | _ = ?rhs =>
      match goal with
      | |- context [for_ ?l ?b ?s] =>
          replace (for_ l b s) with rhs by (symmetry; exact H)
      end
  end.

Lemma unpack_exchange_spec st j buf lv vi wv ps rs :
  0 ≤ j →
  (Z.to_nat j < length (npartner st))%nat →
  partner st !! Z.to_nat j = Some ps →
  r0 st !! Z.to_nat j = Some rs →
  (Z.to_nat j < length (vinter st))%nat →
  (Z.to_nat j < length (wvolume st))%nat →
  (length lv ≤ length ps)%nat → (length lv ≤ length rs)%nat →
  exchange_record buf lv vi wv →
  ∃ st',
    unpack_exchange st j buf = Ok (2 * Z.of_nat (length lv) + 3, st') ∧
    npartner st' !! Z.to_nat j = Some (Z.of_nat (length lv)) ∧
    bonds st' j = lv ∧
    vinter st' !! Z.to_nat j = Some vi ∧
    wvolume st' !! Z.to_nat j = Some wv ∧
    first st' = first st ∧ maxpartner st' = maxpartner st.
Proof.
  intros Hj Hjn Hps Hrs Hjv Hjw Hlp Hlr (Hcount & Hpairs & Hvi & Hwv).
  unfold unpack_exchange.
  rewrite wr_Ok by lia. simpl.
  rewrite (rd_Ok _ j (double_to_int (buf 0))); [| done | by apply list_lookup_insert_eq].
  simpl. rewrite Hcount, double_to_int_to_double.
  set (st1 := set_npartner _ st).
  destruct (unpack_loop_spec st1 j buf (0 + 1) lv ps rs) as (ps' & rs' & Hloop & Hlp' & Hlr' & Hzip);
    try done.
  { intros n t r Hn. destruct (Hpairs n t r Hn) as [H1 H2]. split.
    - by replace (0 + 1 + 2 * Z.of_nat n) with (1 + 2 * Z.of_nat n) by lia.
    - by replace (0 + 1 + 2 * Z.of_nat n + 1) with (2 + 2 * Z.of_nat n) by lia. }
  rewrite_loop Hloop. simpl.
  rewrite wr_Ok by lia. simpl. rewrite wr_Ok by lia. simpl.
  eexists. split; [f_equal; f_equal; lia|]. simpl.
  apply lookup_lt_Some in Hps as Hjp. apply lookup_lt_Some in Hrs as Hjr.
  split; [|split; [|split; [|split]]].
  - by apply list_lookup_insert_eq.
  - unfold bonds. simpl. rewrite !list_lookup_insert_eq by done.
    by rewrite Nat2Z.id.
  - replace (0 + 1 + 2 * Z.of_nat (length lv)) with (1 + 2 * Z.of_nat (length lv)) by lia.
    rewrite Hvi. by apply list_lookup_insert_eq.
  - replace (0 + 1 + 2 * Z.of_nat (length lv) + 1) with (2 + 2 * Z.of_nat (length lv)) by lia.
    rewrite Hwv. by apply list_lookup_insert_eq.
  - done.
Qed.

Lemma allocated_lookup nmax st i :
  allocated nmax st → 0 ≤ i < nmax →
  ∃ np ps rs vi wv,
    npartner st !! Z.to_nat i = Some np ∧
    partner st !! Z.to_nat i = Some ps ∧ length ps = Z.to_nat (maxpartner st) ∧
    r0 st !! Z.to_nat i = Some rs ∧ length rs = Z.to_nat (maxpartner st) ∧
    vinter st !! Z.to_nat i = Some vi ∧
    wvolume st !! Z.to_nat i = Some wv.
Proof.
  intros (Hn & Hp & Hpr & Hr & Hrr & Hv & Hw) Hi.
  destruct (lookup_lt_is_Some_2 (npartner st) (Z.to_nat i)) as [np Hnp]; [lia|].
  destruct (lookup_lt_is_Some_2 (partner st) (Z.to_nat i)) as [ps Hps]; [lia|].
  destruct (lookup_lt_is_Some_2 (r0 st) (Z.to_nat i)) as [rs Hrs]; [lia|].
  destruct (lookup_lt_is_Some_2 (vinter st) (Z.to_nat i)) as [vi Hvi]; [lia|].
  destruct (lookup_lt_is_Some_2 (wvolume st) (Z.to_nat i)) as [wv Hwv]; [lia|].
  exists np, ps, rs, vi, wv. repeat split; try done.
  - by apply (Forall_lookup_1 _ _ _ _ Hpr Hps).
  - by apply (Forall_lookup_1 _ _ _ _ Hrr Hrs).
Qed.

Lemma length_filter_le {A} (P : A → Prop) `{∀ x, Decision (P x)} (l : list A) :
  (length (filter P l) ≤ length l)%nat.
Proof. apply length_filter. Qed.

Lemma length_bonds_le st i np :
  npartner st !! Z.to_nat i = Some np → (length (bonds st i) ≤ Z.to_nat np)%nat.
Proof.
  intros Hnp. unfold bonds. rewrite Hnp.
  destruct (partner st !! Z.to_nat i); [|simpl; lia].
  destruct (r0 st !! Z.to_nat i); [|simpl; lia].
  rewrite length_zip, !length_take. lia.
Qed.

(** C2.  For a slot [i] of an allocated store with [npartner[i] <= maxpartner],
    [pack_exchange] followed by [unpack_exchange] into a slot [j] of any store
    allocated with the same [maxpartner] leaves in slot [j] exactly the bonds
    of slot [i] whose tag is not 0, in their order, with [vinter[i]] and
    [wvolume[i]]; [unpack_exchange] reads as many words as [pack_exchange]
    wrote. *)
Theorem exchange_roundtrip src dst nmax_src nmax_dst i j buf np :
  allocated nmax_src src → allocated nmax_dst dst →
  maxpartner dst = maxpartner src →
  0 ≤ i < nmax_src → 0 ≤ j < nmax_dst →
  npartner src !! Z.to_nat i = Some np → np ≤ maxpartner src →
  ∃ m buf' dst',
    pack_exchange src i buf = Ok (m, buf') ∧
    unpack_exchange dst j buf' = Ok (m, dst') ∧
    m = 2 * Z.of_nat (length (filter live (bonds src i))) + 3 ∧
    npartner dst' !! Z.to_nat j = Some (Z.of_nat (length (filter live (bonds src i)))) ∧
    bonds dst' j = filter live (bonds src i) ∧
    Forall (fun b => b.1 ≠ 0) (bonds dst' j) ∧
    vinter dst' !! Z.to_nat j = vinter src !! Z.to_nat i ∧
    wvolume dst' !! Z.to_nat j = wvolume src !! Z.to_nat i ∧
    is_Some (vinter src !! Z.to_nat i) ∧ is_Some (wvolume src !! Z.to_nat i).
Proof.
  intros Hsrc Hdst Hmax Hi Hj Hnp Hle.
  destruct (allocated_lookup _ _ _ Hsrc Hi)
    as (np' & ps & rs & vi & wv & Hnp' & Hps & Hlps & Hrs & Hlrs & Hvi & Hwv).
  rewrite Hnp in Hnp'. injection Hnp' as <-.
  destruct (allocated_lookup _ _ _ Hdst Hj)
    as (npd & psd & rsd & vid & wvd & Hnpd & Hpsd & Hlpsd & Hrsd & Hlrsd & Hvid & Hwvd).
  destruct (pack_exchange_spec src i buf np ps rs vi wv) as (buf' & Hpack & Hrec);
    try done; try lia.
  pose proof (length_bonds_le src i np Hnp) as Hbl.
  pose proof (length_filter_le live (bonds src i)) as Hfl.
  destruct (unpack_exchange_spec dst j buf' (filter live (bonds src i)) vi wv psd rsd)
    as (dst' & Hunpack & Hn & Hb & Hv & Hw & _); try done; try lia.
  - by apply lookup_lt_Some in Hnpd.
  - by apply lookup_lt_Some in Hvid.
  - by apply lookup_lt_Some in Hwvd.
  - exists (2 * Z.of_nat (length (filter live (bonds src i))) + 3), buf', dst'.
    rewrite Hvi, Hwv, Hb.
    split; [done|]. split; [done|]. split; [done|]. split; [done|]. split; [done|].
    split; [|split; [done|split; [done|split; by eexists]]].
    apply Forall_forall. intros [t r] Hin.
    apply list_elem_of_filter in Hin as [Hlive _]. unfold live in Hlive. simpl in *.
    destruct (t =? 0) eqn:E; [done | lia].
Qed.

(** ** RestartCodec *)

Lemma pack_restart_spec st i buf np ps rs vi wv :
  0 ≤ i →
  npartner st !! Z.to_nat i = Some np →
  partner st !! Z.to_nat i = Some ps →
  r0 st !! Z.to_nat i = Some rs →
  vinter st !! Z.to_nat i = Some vi →
  wvolume st !! Z.to_nat i = Some wv →
  0 ≤ np → np ≤ Z.of_nat (length ps) → np ≤ Z.of_nat (length rs) →
  length (bonds st i) = Z.to_nat np ∧
  ∃ buf',
    pack_restart st i buf = Ok (2 * np + 4, buf') ∧
    restart_record buf' 0 (bonds st i) vi wv.
Proof.
  intros Hi Hnp Hps Hrs Hvi Hwv Hnp0 Hlp Hlr.
  assert (Hlen : length (bonds st i) = Z.to_nat np).
  { rewrite (bonds_unfold st i np ps rs) by done.
    rewrite length_take, length_zip. lia. }
  split; [done|].
  unfold pack_restart. rewrite (rd_Ok _ _ _ Hi Hnp). simpl.
  match goal with |- context [for_ _ ?b ?s] => set (body := b); set (s0 := s) end.
  destruct (for__seqZ_rule
    (fun n '(m, b) =>
       m = 2 + 2 * n ∧
       b 0 = int_to_double (2 * np + 4) ∧ b 1 = int_to_double np ∧
       ∀ (k : nat) t r, Z.of_nat k < n → bonds st i !! k = Some (t, r) →
         b (2 + 2 * Z.of_nat k) = int_to_double t ∧ b (2 + 2 * Z.of_nat k + 1) = r)
    body 0 np s0) as ([m b] & Hloop & Hm & Hb0 & Hb1 & Hb).
  - done.
  - unfold s0. split; [done|]. split; [done|]. split; [done|]. intros k t r Hk. lia.
  - intros n [m b] Hn (-> & Hb0 & Hb1 & Hb).
    destruct (lookup_lt_is_Some_2 ps (Z.to_nat n)) as [p Hp]; [lia|].
    destruct (lookup_lt_is_Some_2 rs (Z.to_nat n)) as [r Hr]; [lia|].
    assert (Hbl : bonds st i !! Z.to_nat n = Some (p, r)).
    { rewrite (bonds_unfold st i np ps rs) by done.
      rewrite lookup_take_lt by lia. by apply lookup_zip_Some. }
    unfold body. rewrite (rd2_Ok _ i n ps p) by (done || lia). simpl.
    rewrite (rd2_Ok _ i n rs r) by (done || lia). simpl.
    eexists. split; [done|]. simpl.
    split; [lia|]. rewrite !buf_set_ne by lia. split; [done|]. split; [done|].
    intros k t r' Hk Hlk.
    destruct (decide (k = Z.to_nat n)) as [->|Hne].
    + rewrite Hbl in Hlk. injection Hlk as <- <-.
      replace (Z.of_nat (Z.to_nat n)) with n by lia. split.
      * rewrite buf_set_ne by lia. apply buf_set_eq.
      * apply buf_set_eq.
    + rewrite !buf_set_ne by lia. apply Hb; [lia | done].
  - rewrite_loop Hloop. simpl.
    rewrite (rd_Ok _ _ _ Hi Hvi). simpl. rewrite (rd_Ok _ _ _ Hi Hwv). simpl.
    eexists. split; [f_equal; f_equal; lia|].
    unfold restart_record. rewrite Hlen.
    replace (Z.of_nat (Z.to_nat np)) with np by lia.
    split; [|split; [|split; [|split]]].
    + rewrite !buf_set_ne by lia. done.
    + rewrite !buf_set_ne by lia. done.
    + intros n t r Hn. apply lookup_lt_Some in Hn as Hlt.
      rewrite !buf_set_ne by lia. apply Hb; [lia | done].
    + rewrite buf_set_ne by lia. rewrite Hm.
      replace (0 + 2 + 2 * np) with (2 + 2 * (0 + np)) by lia. apply buf_set_eq.
    + rewrite Hm. replace (0 + 2 + 2 * np + 1) with (2 + 2 * (0 + np) + 1) by lia.
      apply buf_set_eq.
Qed.

Lemma allocated_insert_slot nmax st j np ps' rs' vi wv ps rs :
  partner st !! Z.to_nat j = Some ps → r0 st !! Z.to_nat j = Some rs →
  length ps' = length ps → length rs' = length rs →
  allocated nmax st →
  allocated nmax
    (set_wvolume (<[Z.to_nat j := wv]> (wvolume st))
       (set_vinter (<[Z.to_nat j := vi]> (vinter st))
          (set_r0 (<[Z.to_nat j := rs']> (r0 st))
             (set_partner (<[Z.to_nat j := ps']> (partner st))
                (set_npartner (<[Z.to_nat j := np]> (npartner st)) st))))).
Proof.
  intros Hps Hrs Hlp Hlr (Hn & Hp & Hpr & Hr & Hrr & Hv & Hw).
  unfold allocated. simpl. rewrite !length_insert.
  repeat split; try done.
  - apply Forall_insert; [done|]. rewrite Hlp. by apply (Forall_lookup_1 _ _ _ _ Hpr Hps).
  - apply Forall_insert; [done|]. rewrite Hlr. by apply (Forall_lookup_1 _ _ _ _ Hrr Hrs).
Qed.

Lemma unpack_restart_spec st extra j nth off bl vi wv ps rs :
  0 ≤ j →
  for_ (seqZ 0 nth) (fun _ m => Ok (m + double_to_int (extra m))) 0 = Ok off →
  restart_record extra off bl vi wv →
  (Z.to_nat j < length (npartner st))%nat →
  partner st !! Z.to_nat j = Some ps →
  r0 st !! Z.to_nat j = Some rs →
  (Z.to_nat j < length (vinter st))%nat →
  (Z.to_nat j < length (wvolume st))%nat →
  (length bl ≤ length ps)%nat → (length bl ≤ length rs)%nat →
  ∃ st',
    unpack_restart st extra j nth = Ok st' ∧
    atom_state st' j = (Some (Z.of_nat (length bl)), bl, Some vi, Some wv) ∧
    (∀ k, Z.to_nat k ≠ Z.to_nat j → atom_state st' k = atom_state st k) ∧
    first st' = first st ∧ maxpartner st' = maxpartner st ∧
    (∀ nmax, allocated nmax st → allocated nmax st').
Proof.
  intros Hj Hskip (Hlen & Hcount & Hpairs & Hvi & Hwv) Hjn Hps Hrs Hjv Hjw Hlp Hlr.
  unfold unpack_restart. rewrite_loop Hskip. simpl.
  rewrite wr_Ok by lia. simpl.
  rewrite (rd_Ok _ j (double_to_int (extra (off + 1))));
    [| done | by apply list_lookup_insert_eq].
  simpl. rewrite Hcount, double_to_int_to_double.
  set (st1 := set_npartner _ st).
  destruct (unpack_loop_spec st1 j extra (off + 1 + 1) bl ps rs)
    as (ps' & rs' & Hloop & Hlp' & Hlr' & Hzip); try done.
  { intros n t r Hn. destruct (Hpairs n t r Hn) as [H1 H2]. split.
    - by replace (off + 1 + 1 + 2 * Z.of_nat n) with (off + 2 + 2 * Z.of_nat n) by lia.
    - by replace (off + 1 + 1 + 2 * Z.of_nat n + 1) with (off + 2 + 2 * Z.of_nat n + 1) by lia. }
  rewrite_loop Hloop. simpl.
  rewrite wr_Ok by lia. simpl. rewrite wr_Ok by lia. simpl.
  apply lookup_lt_Some in Hps as Hjp. apply lookup_lt_Some in Hrs as Hjr.
  replace (off + 1 + 1 + 2 * Z.of_nat (length bl)) with (off + 2 + 2 * Z.of_nat (length bl)) by lia.
  rewrite Hvi, Hwv.
  eexists. split; [done|].
  split; [|split; [|split; [|split]]]; try done.
  - unfold atom_state, bonds. simpl. rewrite !list_lookup_insert_eq by done.
    rewrite Nat2Z.id, Hzip. done.
  - intros k Hk. unfold atom_state, bonds. simpl.
    rewrite !list_lookup_insert_ne by done. done.
  - intros nmax Ha. by apply (allocated_insert_slot nmax st j _ ps' rs' vi wv ps rs).
Qed.

Lemma buf_of_list_app pre l k :
  0 ≤ k → buf_of_list (pre ++ l) (Z.of_nat (length pre) + k) = buf_of_list l k.
Proof.
  intros Hk. unfold buf_of_list.
  destruct (Z.of_nat (length pre) + k <? 0) eqn:E1; [apply Z.ltb_lt in E1; lia|].
  destruct (k <? 0) eqn:E2; [lia|].
  rewrite lookup_app_r by lia. do 2 f_equal. lia.
Qed.

Lemma buf_of_list_app0 pre l :
  buf_of_list (pre ++ l) (Z.of_nat (length pre)) = buf_of_list l 0.
Proof.
  rewrite <- (buf_of_list_app pre l 0) by lia. by rewrite Z.add_0_r.
Qed.

Lemma buf_of_list_words (b : buffer) m k :
  0 ≤ k < m → buf_of_list (buf_words b 0 m) k = b k.
Proof.
  intros Hk. unfold buf_of_list, buf_words.
  destruct (k <? 0) eqn:E; [lia|].
  rewrite list_lookup_fmap.
  rewrite (proj2 (lookup_seqZ 0 m (Z.to_nat k) k)) by lia. done.
Qed.

Lemma skip_records (foreign : list (list Q)) rest :
  Forall self_describing foreign →
  for_ (seqZ 0 (Z.of_nat (length foreign)))
    (fun _ m => Ok (m + double_to_int (buf_of_list (concat foreign ++ rest) m))) 0
  = Ok (Z.of_nat (length (concat foreign))).
Proof.
  intros Hsd.
  destruct (for__seqZ_rule
    (fun n m => m = Z.of_nat (length (concat (take (Z.to_nat n) foreign))))
    (fun (_ : Z) m => Ok (m + double_to_int (buf_of_list (concat foreign ++ rest) m)))
    0 (Z.of_nat (length foreign)) 0) as (m & Hloop & Hm).
  - lia.
  - done.
  - intros n m Hn ->.
    destruct (lookup_lt_is_Some_2 foreign (Z.to_nat n)) as [rec Hrec]; [lia|].
    pose proof (Forall_lookup_1 _ _ _ _ Hsd Hrec) as Hself.
    unfold self_describing in Hself.
    destruct rec as [|h tl]; [done|]. simpl in Hself. injection Hself as ->.
    eexists. split; [done|].
    replace (Z.to_nat (n + 1)) with (S (Z.to_nat n)) by lia.
    rewrite (take_S_r _ _ _ Hrec). rewrite concat_app, length_app. simpl.
    rewrite app_nil_r.
    assert (Hsplit : concat foreign ++ rest =
      concat (take (Z.to_nat n) foreign) ++
        ((int_to_double (Z.of_nat (S (length tl))) :: tl) ++
           concat (drop (S (Z.to_nat n)) foreign) ++ rest)).
    { rewrite <- (take_drop_middle _ _ _ Hrec) at 1.
      rewrite concat_app. simpl. rewrite <- app_assoc. simpl. by rewrite <- app_assoc. }
    rewrite Hsplit.
    rewrite buf_of_list_app0.
    unfold buf_of_list at 1. simpl.
    rewrite double_to_int_to_double. lia.
  - rewrite Hloop. f_equal. rewrite Hm.
    rewrite Z.add_0_l, Nat2Z.id, take_ge by lia. done.
Qed.

Lemma length_grow1 {A} (junk : nat → A) (a : list A) n :
  length (grow1 junk a n) = Z.to_nat n.
Proof.
  unfold grow1. rewrite length_take, length_app, length_fmap, length_seq. lia.
Qed.

Lemma grow2_shape {A} (junk : nat → A) (a : list (list A)) n1 n2 :
  length (grow2 junk a n1 n2) = Z.to_nat n1 ∧
  Forall (fun row => length row = Z.to_nat n2) (grow2 junk a n1 n2).
Proof.
  unfold grow2. split.
  - by rewrite length_fmap, length_seq.
  - apply Forall_fmap, Forall_forall. intros i Hi. simpl.
    apply elem_of_seq in Hi.
    rewrite length_take, length_drop, length_grow1.
    destruct (Z.le_gt_cases 0 n2) as [H2|H2]; [|lia].
    rewrite Z2Nat.inj_mul by lia. nia.
Qed.

Lemma grow_arrays_allocated st n :
  allocated n (grow_arrays st n) ∧
  first (grow_arrays st n) = first st ∧
  maxpartner (grow_arrays st n) = maxpartner st.
Proof.
  unfold grow_arrays, allocated. simpl. rewrite !length_grow1.
  repeat split; try done; apply grow2_shape.
Qed.

Lemma restart_record_shift (buf buf2 : buffer) off bl vi wv :
  restart_record buf 0 bl vi wv →
  (∀ k, 0 ≤ k < 2 * Z.of_nat (length bl) + 4 → buf2 (off + k) = buf k) →
  restart_record buf2 off bl vi wv.
Proof.
  intros (H0 & H1 & Hp & Hv & Hw) Hsame. unfold restart_record.
  split; [|split; [|split; [|split]]].
  - rewrite <- H0. rewrite <- (Hsame 0) by lia. f_equal. lia.
  - rewrite <- H1. apply Hsame. lia.
  - intros n t r Hn. destruct (Hp n t r Hn) as [Ha Hb].
    apply lookup_lt_Some in Hn.
    rewrite <- Ha, <- Hb. split.
    + rewrite <- Hsame by lia. f_equal. lia.
    + rewrite <- Hsame by lia. f_equal. lia.
  - rewrite <- Hv. rewrite <- Hsame by lia. f_equal. lia.
  - rewrite <- Hw. rewrite <- Hsame by lia. f_equal. lia.
Qed.

Lemma serialize_atom_spec st nmax i np :
  allocated nmax st → 0 ≤ i < nmax →
  npartner st !! Z.to_nat i = Some np → 0 ≤ np ≤ maxpartner st →
  ∃ rec vi wv,
    serialize_atom st i = Ok rec ∧
    self_describing rec ∧
    length rec = Z.to_nat (2 * np + 4) ∧
    length (bonds st i) = Z.to_nat np ∧
    vinter st !! Z.to_nat i = Some vi ∧ wvolume st !! Z.to_nat i = Some wv ∧
    ∀ pre, restart_record (buf_of_list (pre ++ rec)) (Z.of_nat (length pre)) (bonds st i) vi wv.
Proof.
  intros Ha Hi Hnp Hle.
  destruct (allocated_lookup _ _ _ Ha Hi)
    as (np' & ps & rs & vi & wv & Hnp' & Hps & Hlps & Hrs & Hlrs & Hvi & Hwv).
  rewrite Hnp in Hnp'. injection Hnp' as <-.
  destruct (pack_restart_spec st i (fun _ => 0%Q) np ps rs vi wv)
    as (Hlen & buf' & Hpack & Hrec); try done; try lia.
  unfold serialize_atom. rewrite Hpack. simpl.
  eexists _, vi, wv. split; [done|].
  assert (Hl : length (buf_words buf' 0 (2 * np + 4)) = Z.to_nat (2 * np + 4)).
  { unfold buf_words. by rewrite length_fmap, length_seqZ. }
  split; [|split; [done|split; [done|split; [done|split; [done|]]]]].
  - unfold self_describing. rewrite Hl.
    destruct Hrec as (H0 & _). rewrite Hlen in H0.
    unfold buf_words.
    replace (seqZ 0 (2 * np + 4)) with (0 :: seqZ 1 (2 * np + 3)).
    + simpl. rewrite H0. do 2 f_equal. lia.
    + rewrite (seqZ_cons 0 (2 * np + 4)) by lia. f_equal. f_equal; lia.
  - intros pre. apply (restart_record_shift buf'); [done|].
    intros k Hk. rewrite buf_of_list_app by lia.
    apply buf_of_list_words. rewrite Hlen in Hk. lia.
Qed.

(** C5.  Writing the header and the per-atom records of a store with
    [write_restart] and [pack_restart], and reading them into any other store
    with [restart] and [unpack_restart], gives back [first], [maxpartner] and
    the bonded state of every local atom.  Every record starts with its length
    [2*npartner + 4], so that the records of [nth] other fixes in front of it
    are skipped over; [restart] allocates rows of the restored [maxpartner]
    columns before the first record is read. *)
Theorem restart_roundtrip src fresh a nmax_src (foreign : Z → list (list Q)) nth :
  allocated nmax_src src →
  0 ≤ nlocal a ≤ nmax_src → nlocal a ≤ nmax a →
  (∀ i np, 0 ≤ i < nlocal a →
     npartner src !! Z.to_nat i = Some np → 0 ≤ np ≤ maxpartner src) →
  (∀ i, 0 ≤ i < nlocal a →
     Forall self_describing (foreign i) ∧ Z.of_nat (length (foreign i)) = nth) →
  let header := [int_to_double (first src); int_to_double (maxpartner src)] in
  let st1 := restart fresh a (buf_of_list header) in
  ∃ records dst,
    write_restart src 0 = Some (2 * sizeof_double, header) ∧
    (∀ i np, 0 ≤ i < nlocal a → npartner src !! Z.to_nat i = Some np →
       serialize_atom src i = Ok (records i) ∧
       self_describing (records i) ∧
       Z.of_nat (length (records i)) = 2 * np + 4) ∧
    allocated (nmax a) st1 ∧ maxpartner st1 = maxpartner src ∧
    deserialize fresh a header
      (fun i => buf_of_list (concat (foreign i) ++ records i)) nth = Ok dst ∧
    first dst = first src ∧ maxpartner dst = maxpartner src ∧
    allocated (nmax a) dst ∧
    ∀ i, 0 ≤ i < nlocal a → atom_state dst i = atom_state src i.
Proof.
  intros Hsrc Hnl Hnl' Hnp Hforeign header st1.
  set (records := fun i => match serialize_atom src i with Ok r => r | _ => [] end).
  assert (Hst1 : allocated (nmax a) st1 ∧ first st1 = first src ∧
                 maxpartner st1 = maxpartner src).
  { unfold st1, restart.
    match goal with |- context [grow_arrays ?s _] =>
      destruct (grow_arrays_allocated s (nmax a)) as (Ha & Hf & Hm) end.
    rewrite Hf, Hm. split; [done|]. simpl.
    unfold buf_of_list. simpl. by rewrite !double_to_int_to_double. }
  destruct Hst1 as (Ha1 & Hf1 & Hm1).
  assert (Hrec : ∀ i np, 0 ≤ i < nlocal a → npartner src !! Z.to_nat i = Some np →
    ∃ vi wv,
      serialize_atom src i = Ok (records i) ∧ self_describing (records i) ∧
      length (records i) = Z.to_nat (2 * np + 4) ∧
      length (bonds src i) = Z.to_nat np ∧
      vinter src !! Z.to_nat i = Some vi ∧ wvolume src !! Z.to_nat i = Some wv ∧
      ∀ pre, restart_record (buf_of_list (pre ++ records i)) (Z.of_nat (length pre))
               (bonds src i) vi wv).
  { intros i np Hi Hi'.
    destruct (serialize_atom_spec src nmax_src i np) as (rec & vi & wv & Hs & Hrest);
      [done | lia | done | by apply (Hnp i) |].
    exists vi, wv. unfold records. by rewrite Hs. }
  destruct (for__seqZ_rule
    (fun i st =>
       allocated (nmax a) st ∧ first st = first src ∧ maxpartner st = maxpartner src ∧
       ∀ k, 0 ≤ k < i → atom_state st k = atom_state src k)
    (fun i st =>
       unpack_restart st (buf_of_list (concat (foreign i) ++ records i)) i nth)
    0 (nlocal a) st1) as (dst & Hloop & Had & Hfd & Hmd & Hstate).
  - lia.
  - split; [done|]. split; [done|]. split; [done|]. intros k Hk. lia.
  - intros i st Hi (Ha & Hf & Hm & Hprev).
    assert (Hi' : 0 ≤ i < nmax_src) by lia.
    destruct (allocated_lookup _ _ _ Hsrc Hi') as (np & _ & _ & _ & _ & Hnpi & _).
    destruct (Hrec i np) as (vi & wv & Hs & Hsd & Hlen & Hbl & Hvi & Hwv & Hlay);
      [lia | done |].
    destruct (Hforeign i) as [Hfsd Hnth]; [lia|].
    assert (Hi'' : 0 ≤ i < nmax a) by lia.
    destruct (allocated_lookup _ _ _ Ha Hi'')
      as (npd & ps & rs & vid & wvd & Hnpd & Hps & Hlps & Hrs & Hlrs & Hvid & Hwvd).
    pose proof (Hnp i np ltac:(lia) Hnpi) as Hnpb.
    destruct (unpack_restart_spec st (buf_of_list (concat (foreign i) ++ records i))
                i nth (Z.of_nat (length (concat (foreign i)))) (bonds src i) vi wv ps rs)
      as (st' & Hun & Hat & Hframe & Hf' & Hm' & Ha'); try done; try lia.
    + rewrite <- Hnth. apply skip_records. done.
    + by apply lookup_lt_Some in Hnpd.
    + by apply lookup_lt_Some in Hvid.
    + by apply lookup_lt_Some in Hwvd.
    + exists st'. split; [done|]. split; [by apply Ha'|].
      split; [congruence|]. split; [congruence|].
      intros k Hk. destruct (decide (k = i)) as [->|Hne].
      * rewrite Hat. unfold atom_state. rewrite Hnpi, Hvi, Hwv, Hbl.
        repeat f_equal. lia.
      * rewrite Hframe by lia. apply Hprev. lia.
  - exists records, dst. split; [done|]. split.
    { intros i np Hi Hi'.
      destruct (Hrec i np Hi Hi') as (vi & wv & Hs & Hsd & Hlen & _).
      split; [done|]. split; [done|].
      pose proof (Hnp i np Hi Hi'). lia. }
    split; [done|]. split; [done|]. split; [exact Hloop|].
    split; [done|]. split; [done|]. split; [done|].
    intros i Hi. apply Hstate. lia.
Qed.

(** ** GhostSync *)

Lemma pack_comm_spec st n (sendl : Z → Z) buf :
  (∀ k, 0 ≤ k < n → 0 ≤ sendl k < Z.of_nat (length (wvolume st))) →
  ∃ buf',
    pack_comm st n sendl buf = Ok (comm_forward, buf') ∧
    (∀ k, 0 ≤ k < n → wvolume st !! Z.to_nat (sendl k) = Some (buf' k)) ∧
    (∀ k, ¬ (0 ≤ k < n) → buf' k = buf k).
Proof.
  intros Hb. unfold pack_comm.
  match goal with |- context [for_ _ ?b ?s] => set (body := b) end.
  destruct (for__seqZ_rule'
    (fun i '(m, b) =>
       m = i ∧
       (∀ k, 0 ≤ k < i → wvolume st !! Z.to_nat (sendl k) = Some (b k)) ∧
       (∀ k, ¬ (0 ≤ k < i) → b k = buf k))
    body 0 n (0, buf)) as ([m b] & Hloop & Hm & Hin & Hout).
  - split; [done|]. split; [intros; lia | done].
  - intros i [m b] Hi (-> & Hin & Hout).
    destruct (lookup_lt_is_Some_2 (wvolume st) (Z.to_nat (sendl i))) as [w Hw].
    { specialize (Hb i). lia. }
    unfold body. rewrite (rd_Ok _ _ w) by (done || (specialize (Hb i); lia)). simpl.
    eexists. split; [done|]. simpl. split; [done|]. split.
    + intros k Hk. destruct (decide (k = i)) as [->|Hne].
      * by rewrite buf_set_eq.
      * rewrite buf_set_ne by done. apply Hin. lia.
    + intros k Hk. rewrite buf_set_ne by lia. apply Hout. lia.
  - rewrite_loop Hloop. simpl. exists b. split; [done|]. split.
    + intros k Hk. apply Hin. lia.
    + intros k Hk. apply Hout. lia.
Qed.

Lemma pack_comm_reads_wvolume st st2 n (sendl : Z → Z) buf :
  (∀ k, 0 ≤ k < n →
     wvolume st2 !! Z.to_nat (sendl k) = wvolume st !! Z.to_nat (sendl k)) →
  pack_comm st2 n sendl buf = pack_comm st n sendl buf.
Proof.
  intros Hsame. unfold pack_comm. f_equal.
  apply for__ext. intros i [m b] Hi.
  apply elem_of_seqZ in Hi.
  unfold rd. rewrite Hsame by lia. done.
Qed.

Lemma unpack_comm_frame st n first_ buf st' :
  unpack_comm st n first_ buf = Ok st' →
  first st' = first st ∧ maxpartner st' = maxpartner st ∧
  npartner st' = npartner st ∧ partner st' = partner st ∧ r0 st' = r0 st ∧
  vinter st' = vinter st ∧
  length (wvolume st') = length (wvolume st) ∧
  ∀ i, 0 ≤ i → ¬ (first_ ≤ i < first_ + n) →
    wvolume st' !! Z.to_nat i = wvolume st !! Z.to_nat i.
Proof.
  unfold unpack_comm.
  match goal with |- context [for_ ?l ?b ?s] => destruct (for_ l b s) as [[m s1]| |] eqn:Hloop end;
    try done.
  simpl. intros [= <-].
  set (Inv := fun '((m, s) : Z * FixPeriNeigh) =>
       first s = first st ∧ maxpartner s = maxpartner st ∧
       npartner s = npartner st ∧ partner s = partner st ∧ r0 s = r0 st ∧
       vinter s = vinter st ∧
       length (wvolume s) = length (wvolume st) ∧
       ∀ i, 0 ≤ i → ¬ (first_ ≤ i < first_ + n) →
         wvolume s !! Z.to_nat i = wvolume st !! Z.to_nat i).
  apply (for__preserve Inv _ _ _ (m, s1)) in Hloop; [done | | by unfold Inv].
  intros i [m' s] [m2 s2] Hi (Hf & Hm & Hn & Hp & Hr & Hv & Hl & Hw) Hbody.
  apply elem_of_seqZ in Hi.
  destruct (wr (wvolume s) i (buf m')) as [a| |] eqn:Hwr; try done.
  simpl in Hbody. injection Hbody as <- <-.
  apply wr_Ok_inv in Hwr as [Hi' ->]. unfold Inv. simpl.
  split; [done|]. split; [done|]. split; [done|]. split; [done|].
  split; [done|]. split; [done|]. split; [by rewrite length_insert|].
  intros k Hk0 Hk. rewrite list_lookup_insert_ne; [by apply Hw | lia].
Qed.

Lemma unpack_comm_spec st n first_ buf :
  0 ≤ first_ → first_ + n ≤ Z.of_nat (length (wvolume st)) →
  ∃ st',
    unpack_comm st n first_ buf = Ok st' ∧
    ∀ i, first_ ≤ i < first_ + n →
      wvolume st' !! Z.to_nat i = Some (buf (i - first_)).
Proof.
  intros Hf Hl. unfold unpack_comm.
  match goal with |- context [for_ _ ?b ?s] => set (body := b) end.
  destruct (for__seqZ_rule'
    (fun i '(m, s) =>
       m = i - first_ ∧ length (wvolume s) = length (wvolume st) ∧
       ∀ k, first_ ≤ k < i → wvolume s !! Z.to_nat k = Some (buf (k - first_)))
    body first_ (first_ + n - first_) (0, st)) as ([m s] & Hloop & Hm & Hlen & Hval).
  - split; [lia|]. split; [done|]. intros; lia.
  - intros i [m s] Hi (-> & Hlen & Hval).
    unfold body. rewrite wr_Ok by lia. simpl.
    eexists. split; [done|]. simpl. split; [lia|].
    split; [by rewrite length_insert|].
    intros k Hk. destruct (decide (k = i)) as [->|Hne].
    + apply list_lookup_insert_eq. lia.
    + rewrite list_lookup_insert_ne by lia. apply Hval. lia.
  - rewrite_loop Hloop. simpl. exists s. split; [done|].
    intros i Hi. apply Hval. lia.
Qed.

(** C10.  A forward exchange carries one double per atom, the atom's
    [wvolume]: [pack_comm] returns 1, writes the [wvolume] of the [n_send]
    listed atoms into the first [n_send] words of the buffer and nothing
    else, and its result depends on no other part of the store;
    [unpack_comm] stores the words received into [wvolume] of the ghost
    range [first_ .. first_ + n_recv), which lies behind the [nl] owned atoms,
    and leaves [npartner], [partner], [r0], [vinter] and the [wvolume] of
    every owned atom as they were. *)
Theorem ghost_sync_frame st n_send (sendl : Z → Z) buf0 n_recv first_ buf nl :
  0 ≤ nl ≤ first_ →
  (∀ st2,
     (∀ k, 0 ≤ k < n_send →
        wvolume st2 !! Z.to_nat (sendl k) = wvolume st !! Z.to_nat (sendl k)) →
     pack_comm st2 n_send sendl buf0 = pack_comm st n_send sendl buf0) ∧
  ((∀ k, 0 ≤ k < n_send → 0 ≤ sendl k < Z.of_nat (length (wvolume st))) →
     ∃ buf',
       pack_comm st n_send sendl buf0 = Ok (1, buf') ∧
       (∀ k, 0 ≤ k < n_send → wvolume st !! Z.to_nat (sendl k) = Some (buf' k)) ∧
       (∀ k, ¬ (0 ≤ k < n_send) → buf' k = buf0 k)) ∧
  (∀ st', unpack_comm st n_recv first_ buf = Ok st' →
     first st' = first st ∧ maxpartner st' = maxpartner st ∧
     npartner st' = npartner st ∧ partner st' = partner st ∧ r0 st' = r0 st ∧
     vinter st' = vinter st ∧
     (∀ i, 0 ≤ i < nl → wvolume st' !! Z.to_nat i = wvolume st !! Z.to_nat i) ∧
     (∀ i, 0 ≤ i → ¬ (first_ ≤ i < first_ + n_recv) →
        wvolume st' !! Z.to_nat i = wvolume st !! Z.to_nat i)) ∧
  (first_ + n_recv ≤ Z.of_nat (length (wvolume st)) →
     ∃ st',
       unpack_comm st n_recv first_ buf = Ok st' ∧
       ∀ i, first_ ≤ i < first_ + n_recv →
         wvolume st' !! Z.to_nat i = Some (buf (i - first_))).
Proof.
  intros Hnl. split; [|split; [|split]].
  - intros st2 Hsame. by apply pack_comm_reads_wvolume.
  - intros Hb. by apply pack_comm_spec.
  - intros st' Hun.
    destruct (unpack_comm_frame _ _ _ _ _ Hun) as (Hf & Hm & Hn & Hp & Hr & Hv & _ & Hw).
    repeat split; try done.
    intros i Hi. apply Hw; lia.
  - intros Hl. apply unpack_comm_spec; lia.
Qed.

(** ** [setup]: the sizing pass *)

Lemma set_npartner_id st : set_npartner (npartner st) st = st.
Proof. by destruct st. Qed.

Lemma scan_cons L i il k :
  scan L (i :: il) k =
  (if i =? k then (fun j => Z.land j NEIGHMASK) <$> firstneigh (neigh_list L) k else [])
  ++ scan L il k.
Proof. done. Qed.

Lemma scan_not_in L il k : k ∉ il → scan L il k = [].
Proof.
  induction il as [|i il IH]; intros Hk; [done|].
  rewrite scan_cons. apply not_elem_of_cons in Hk as [Hne Hk].
  destruct (i =? k) eqn:E; [lia|]. simpl. by apply IH.
Qed.

Lemma accepted_of_app L i l1 l2 :
  accepted_of L i (l1 ++ l2) = accepted_of L i l1 ++ accepted_of L i l2.
Proof. apply filter_app. Qed.

Lemma accepted_of_cons L i j l :
  accepted_of L i (j :: l) =
  if within_cutoff L i j then j :: accepted_of L i l else accepted_of L i l.
Proof.
  unfold accepted_of. destruct (within_cutoff L i j) eqn:E.
  - rewrite filter_cons_True; [done | by rewrite E].
  - rewrite filter_cons_False; [done | rewrite E; simpl; exact (fun H => H)].
Qed.

Lemma setup_count_inner L i jl st c :
  0 ≤ i → npartner st !! Z.to_nat i = Some c →
  for_ jl (fun j st =>
      let j := Z.land j NEIGHMASK in
      if within_cutoff L i j then
        np ← rd (npartner st) i;
        a ← wr (npartner st) i (np + 1);
        Ok (set_npartner a st)
      else Ok st)
    st
  = Ok (set_npartner
          (<[Z.to_nat i :=
               c + Z.of_nat (length (accepted_of L i
                                       ((fun j => Z.land j NEIGHMASK) <$> jl)))]>
             (npartner st)) st).
Proof.
  intros Hi. revert st c. induction jl as [|j jl IH]; intros st c Hc.
  - simpl. rewrite Z.add_0_r, list_insert_id by done. by rewrite set_npartner_id.
  - rewrite fmap_cons, accepted_of_cons. simpl.
    destruct (within_cutoff L i (Z.land j NEIGHMASK)) eqn:E.
    + apply lookup_lt_Some in Hc as Hlt.
      rewrite (rd_Ok _ _ c) by done. simpl. rewrite wr_Ok by lia. simpl.
      rewrite (IH _ (c + 1)); [|simpl; by apply list_lookup_insert_eq].
      simpl. unfold set_npartner. simpl. rewrite list_insert_insert_eq.
      do 3 f_equal. lia.
    + by apply IH.
Qed.

Lemma setup_count_spec L st :
  Forall (fun i => 0 ≤ i < Z.of_nat (length (npartner st))) (ilist (neigh_list L)) →
  ∃ np',
    setup_count L st = Ok (set_npartner np' st) ∧
    length np' = length (npartner st) ∧
    ∀ k c, 0 ≤ k → npartner st !! Z.to_nat k = Some c →
      np' !! Z.to_nat k = Some (c + Z.of_nat (length (accepted L k))).
Proof.
  unfold setup_count, accepted, candidates.
  generalize (ilist (neigh_list L)) as il.
  intros il. revert st. induction il as [|i il IH]; intros st Hil.
  - exists (npartner st). simpl. rewrite set_npartner_id. split; [done|]. split; [done|].
    intros k c Hk Hc. by rewrite Z.add_0_r.
  - apply Forall_cons in Hil as [Hi Hil].
    destruct (lookup_lt_is_Some_2 (npartner st) (Z.to_nat i)) as [ci Hci]; [lia|].
    rewrite for__cons. rewrite (setup_count_inner L i _ st ci) by (lia || done).
    rewrite bind_Ok.
    set (st1 := set_npartner _ st).
    destruct (IH st1) as (np' & Hrun & Hlen & Hval).
    { unfold st1. simpl. by rewrite length_insert. }
    exists np'. split; [by rewrite Hrun|].
    split; [unfold st1 in Hlen; simpl in Hlen; by rewrite length_insert in Hlen|].
    intros k c Hk Hc. rewrite scan_cons, accepted_of_app, length_app.
    destruct (decide (k = i)) as [->|Hne].
    + rewrite Z.eqb_refl.
      rewrite (Hval i (ci + Z.of_nat (length (accepted_of L i
                 ((fun j => Z.land j NEIGHMASK) <$> firstneigh (neigh_list L) i))))).
      * rewrite Hci in Hc. injection Hc as <-. f_equal. lia.
      * lia.
      * unfold st1. simpl. apply list_lookup_insert_eq. by apply lookup_lt_Some in Hci.
    + destruct (i =? k) eqn:E; [lia|]. simpl.
      apply Hval; [done|]. unfold st1. simpl.
      rewrite list_lookup_insert_ne by lia. done.
Qed.

Lemma list_max0_snoc l v : list_max0 (l ++ [v]) = Z.max (list_max0 l) v.
Proof.
  unfold list_max0. induction l as [|a l IH]; simpl.
  - lia.
  - rewrite IH. lia.
Qed.

Lemma list_max0_ge l v : v ∈ l → v ≤ list_max0 l.
Proof.
  unfold list_max0. induction l as [|a l IH]; intros Hv.
  - by apply elem_of_nil in Hv.
  - simpl. apply elem_of_cons in Hv as [->|Hv]; [lia|]. specialize (IH Hv). lia.
Qed.

Lemma list_max0_nonneg l : 0 ≤ list_max0 l.
Proof. unfold list_max0. induction l as [|a l IH]; simpl; lia. Qed.

Lemma MAX_max a b : MAX a b = Z.max a b.
Proof. unfold MAX. destruct (a >? b) eqn:E; lia. Qed.

Lemma setup_localmax_spec L st :
  nlocal (atom L) ≤ Z.of_nat (length (npartner st)) →
  setup_localmax L st
  = Ok (set_maxpartner
          (list_max0 (take (Z.to_nat (nlocal (atom L))) (npartner st))) st).
Proof.
  intros Hl. unfold setup_localmax.
  match goal with |- context [for_ _ ?b ?s] => set (body := b) end.
  destruct (for__seqZ_rule'
    (fun i s => s = set_maxpartner (list_max0 (take (Z.to_nat i) (npartner st))) st)
    body 0 (nlocal (atom L)) (set_maxpartner 0 st)) as (s & Hloop & Hs).
  - done.
  - intros i s Hi ->.
    destruct (lookup_lt_is_Some_2 (npartner st) (Z.to_nat i)) as [np Hnp]; [lia|].
    unfold body. simpl. rewrite (rd_Ok _ _ np) by (lia || done). simpl.
    eexists. split; [done|]. unfold set_maxpartner. simpl. f_equal.
    replace (Z.to_nat (i + 1)) with (S (Z.to_nat i)) by lia.
    rewrite (take_S_r _ _ np) by done. by rewrite list_max0_snoc, MAX_max.
  - rewrite Hloop, Hs. do 3 f_equal.
    destruct (Z.le_gt_cases 0 (nlocal (atom L))).
    + f_equal. lia.
    + replace (Z.to_nat (0 + Z.max 0 (nlocal (atom L)))) with 0%nat by lia.
      by replace (Z.to_nat (nlocal (atom L))) with 0%nat by lia.
Qed.

(** ** [setup]: reallocation and the population pass *)

Lemma setup_realloc_spec L st :
  0 ≤ nlocal (atom L) ≤ nmax (atom L) →
  ∃ st',
    setup_realloc L st = Ok st' ∧
    allocated (nmax (atom L)) st' ∧
    first st' = first st ∧ maxpartner st' = maxpartner st ∧
    ∀ i, 0 ≤ i < nlocal (atom L) →
      npartner st' !! Z.to_nat i = Some 0 ∧
      vinter st' !! Z.to_nat i = Some 0%Q ∧
      wvolume st' !! Z.to_nat i = Some 0%Q.
Proof.
  intros Hnl. unfold setup_realloc.
  match goal with |- context [for_ _ ?b ?s] => set (body := b); set (s0 := s) end.
  destruct (grow_arrays_allocated
    (set_npartner [] (set_r0 [] (set_partner [] st))) (nmax (atom L))) as (Ha & Hf & Hm).
  fold s0 in Ha, Hf, Hm. simpl in Hf, Hm.
  destruct (for__seqZ_rule
    (fun i s =>
       allocated (nmax (atom L)) s ∧ first s = first st ∧ maxpartner s = maxpartner st ∧
       ∀ k, 0 ≤ k < i →
         npartner s !! Z.to_nat k = Some 0 ∧
         vinter s !! Z.to_nat k = Some 0%Q ∧
         wvolume s !! Z.to_nat k = Some 0%Q)
    body 0 (nlocal (atom L)) s0) as (s & Hloop & Has & Hfs & Hms & Hz).
  - lia.
  - split; [done|]. split; [done|]. split; [done|]. intros; lia.
  - intros i s Hi (Has & Hfs & Hms & Hz).
    pose proof Has as (Hn & Hp & Hpr & Hr & Hrr & Hv & Hw).
    unfold body. rewrite wr_Ok by lia. simpl.
    rewrite wr_Ok by lia. simpl. rewrite wr_Ok by lia. simpl.
    eexists. split; [done|]. simpl.
    split; [|split; [done|split; [done|]]].
    + unfold allocated. simpl. rewrite !length_insert. done.
    + intros k Hk. destruct (decide (k = i)) as [->|Hne].
      * rewrite !list_lookup_insert_eq by lia. done.
      * rewrite !list_lookup_insert_ne by lia. apply Hz. lia.
  - exists s. split; [done|]. split; [done|]. split; [done|]. split; [done|].
    intros i Hi. apply Hz. lia.
Qed.

Lemma take_S_insert {A} (l : list A) n v :
  (n < length l)%nat → take (S n) (<[n := v]> l) = take n l ++ [v].
Proof.
  intros Hn. rewrite (take_S_r _ _ v) by by apply list_lookup_insert_eq.
  by rewrite take_insert_ge by lia.
Qed.

(** The state after lines 234-237 have stored the bond [(t, r)] of atom [i]. *)
Lemma populate_store nmax st i np ps rs v t r vf :
  allocated nmax st → 0 ≤ i < nmax →
  npartner st !! Z.to_nat i = Some np →
  partner st !! Z.to_nat i = Some ps →
  r0 st !! Z.to_nat i = Some rs →
  vinter st !! Z.to_nat i = Some v →
  0 ≤ np < maxpartner st →
  let st' :=
    set_vinter (<[Z.to_nat i := v ⊕ vf]> (vinter st))
      (set_npartner (<[Z.to_nat i := np + 1]> (npartner st))
         (set_r0 (<[Z.to_nat i := <[Z.to_nat np := r]> rs]> (r0 st))
            (set_partner (<[Z.to_nat i := <[Z.to_nat np := t]> ps]> (partner st)) st))) in
  allocated nmax st' ∧
  first st' = first st ∧ maxpartner st' = maxpartner st ∧ wvolume st' = wvolume st ∧
  atom_state st' i =
    (Some (np + 1), bonds st i ++ [(t, r)], Some (v ⊕ vf), wvolume st !! Z.to_nat i) ∧
  ∀ k, 0 ≤ k → k ≠ i → atom_state st' k = atom_state st k.
Proof.
  intros Ha Hi Hnp Hps Hrs Hv Hnpb st'.
  pose proof Ha as (Hn & Hp & Hpr & Hr & Hrr & Hvl & Hw).
  pose proof (Forall_lookup_1 _ _ _ _ Hpr Hps) as Hlps.
  pose proof (Forall_lookup_1 _ _ _ _ Hrr Hrs) as Hlrs. simpl in Hlps, Hlrs.
  split; [|split; [done|split; [done|split; [done|split]]]].
  - unfold allocated, st'. simpl. rewrite !length_insert.
    repeat split; try done.
    + apply Forall_insert; [done|]. by rewrite length_insert.
    + apply Forall_insert; [done|]. by rewrite length_insert.
  - unfold atom_state, bonds, st'. simpl.
    rewrite !list_lookup_insert_eq by lia. rewrite Hnp, Hps, Hrs.
    replace (Z.to_nat (np + 1)) with (S (Z.to_nat np)) by lia.
    rewrite !take_S_insert by lia.
    rewrite zip_with_app by (rewrite !length_take; lia). done.
  - intros k Hk Hne. unfold atom_state, bonds, st'. simpl.
    rewrite !list_lookup_insert_ne by lia. done.
Qed.

Lemma populate_inner L nmax i jl st np v :
  allocated nmax st → 0 ≤ i < nmax →
  npartner st !! Z.to_nat i = Some np →
  vinter st !! Z.to_nat i = Some v →
  0 ≤ np →
  np + Z.of_nat (length (accepted_of L i ((fun j => Z.land j NEIGHMASK) <$> jl)))
    ≤ maxpartner st →
  ∃ st',
    for_ jl (fun j st =>
        let j := Z.land j NEIGHMASK in
        let rsq := rsq_of (x (atom L)) i j in
        if within_cutoff L i j then
          np ← rd (npartner st) i;
          a ← wr2 (partner st) i np (tag (atom L) j);
          let st := set_partner a st in
          np ← rd (npartner st) i;
          b ← wr2 (r0 st) i np (sqrt rsq);
          let st := set_r0 b st in
          np ← rd (npartner st) i;
          c ← wr (npartner st) i (np + 1);
          let st := set_npartner c st in
          v ← rd (vinter st) i;
          d ← wr (vinter st) i (v ⊕ vfrac (atom L) j);
          Ok (set_vinter d st)
        else Ok st)
      st = Ok st' ∧
    allocated nmax st' ∧
    first st' = first st ∧ maxpartner st' = maxpartner st ∧ wvolume st' = wvolume st ∧
    (let acc := accepted_of L i ((fun j => Z.land j NEIGHMASK) <$> jl) in
     atom_state st' i =
       (Some (np + Z.of_nat (length acc)),
        bonds st i ++ (bond_of L i <$> acc),
        Some (foldl (fun v j => (v ⊕ vfrac (atom L) j)) v acc),
        wvolume st !! Z.to_nat i)) ∧
    ∀ k, 0 ≤ k → k ≠ i → atom_state st' k = atom_state st k.
Proof.
  intros Ha Hi. revert st np v Ha.
  induction jl as [|j jl IH]; intros st np v Ha Hnp Hv Hnp0 Hroom.
  - exists st. simpl. split; [done|]. split; [done|]. split; [done|]. split; [done|].
    split; [done|]. split; [|done].
    unfold atom_state. rewrite Hnp, Hv, Z.add_0_r, app_nil_r. done.
  - rewrite fmap_cons, accepted_of_cons in Hroom |- *.
    rewrite for__cons. cbv zeta.
    destruct (within_cutoff L i (Z.land j NEIGHMASK)) eqn:E.
    + destruct (allocated_lookup _ _ _ Ha Hi)
        as (np' & ps & rs & vi & wv & Hnp' & Hps & Hlps & Hrs & Hlrs & Hvi & Hwv).
      rewrite Hnp in Hnp'. injection Hnp' as <-.
      rewrite Hv in Hvi. injection Hvi as <-.
      simpl in Hroom.
      pose proof Ha as (Hn & Hp & Hpr & Hr & Hrr & Hvl & Hw).
      destruct (populate_store nmax st i np ps rs v (tag (atom L) (Z.land j NEIGHMASK))
                  (sqrt (rsq_of (x (atom L)) i (Z.land j NEIGHMASK)))
                  (vfrac (atom L) (Z.land j NEIGHMASK)))
        as (Ha' & Hf' & Hm' & Hw' & Hst' & Hfr'); try done; try lia.
      set (st1 := set_vinter _ _) in *.
      assert (Hnp1 : npartner st1 !! Z.to_nat i = Some (np + 1)).
      { unfold st1. simpl. apply list_lookup_insert_eq. lia. }
      assert (Hv1 : vinter st1 !! Z.to_nat i
                    = Some (v ⊕ vfrac (atom L) (Z.land j NEIGHMASK))).
      { unfold st1. simpl. apply list_lookup_insert_eq. lia. }
      destruct (IH st1 (np + 1) _ Ha' Hnp1 Hv1) as (st' & Hrun & Ha2 & Hf2 & Hm2 & Hw2 & Hst2 & Hfr2).
      { lia. }
      { rewrite Hm'. lia. }
      exists st'. split.
      { rewrite (rd_Ok _ _ np) by (lia || done). rewrite bind_Ok.
        rewrite (wr2_Ok _ i np ps) by (lia || done). rewrite bind_Ok. cbv zeta.
        rewrite (rd_Ok _ _ np) by (lia || done). rewrite bind_Ok.
        rewrite (wr2_Ok _ i np rs) by (lia || done). rewrite bind_Ok. cbv zeta.
        rewrite (rd_Ok _ _ np) by (lia || done). rewrite bind_Ok.
        rewrite wr_Ok by (simpl; lia). rewrite bind_Ok. cbv zeta.
        rewrite (rd_Ok _ _ v) by (lia || done). rewrite bind_Ok.
        rewrite wr_Ok by (simpl; lia). rewrite bind_Ok. rewrite bind_Ok.
        exact Hrun. }
      split; [done|]. split; [congruence|]. split; [congruence|]. split; [congruence|].
      split.
      * cbv zeta in Hst2 |- *. rewrite Hst2.
        apply (f_equal (fun p => p.1.1.2)) in Hst' as Hb. simpl in Hb.
        rewrite Hb, Hw'. rewrite <- app_assoc.
        apply pair_equal_spec; split; [apply pair_equal_spec; split;
          [apply pair_equal_spec; split|]|]; try done.
        f_equal. simpl length. lia.
      * intros k Hk Hne. rewrite Hfr2 by done. by apply Hfr'.
    + rewrite bind_Ok. by apply IH.
Qed.

Lemma atom_state_npartner st st' k :
  atom_state st' k = atom_state st k →
  npartner st' !! Z.to_nat k = npartner st !! Z.to_nat k ∧
  bonds st' k = bonds st k ∧
  vinter st' !! Z.to_nat k = vinter st !! Z.to_nat k ∧
  wvolume st' !! Z.to_nat k = wvolume st !! Z.to_nat k.
Proof. unfold atom_state. intros [= -> -> -> ->]. done. Qed.

Lemma populate_outer L nmax il st :
  allocated nmax st →
  Forall (fun i => 0 ≤ i < nmax) il →
  (∀ k np, k ∈ il → npartner st !! Z.to_nat k = Some np →
     0 ≤ np ∧ np + Z.of_nat (length (accepted_of L k (scan L il k))) ≤ maxpartner st) →
  ∃ st',
    for_ il (fun i st =>
        for_ (firstneigh (neigh_list L) i) (fun j st =>
            let j := Z.land j NEIGHMASK in
            let rsq := rsq_of (x (atom L)) i j in
            if within_cutoff L i j then
              np ← rd (npartner st) i;
              a ← wr2 (partner st) i np (tag (atom L) j);
              let st := set_partner a st in
              np ← rd (npartner st) i;
              b ← wr2 (r0 st) i np (sqrt rsq);
              let st := set_r0 b st in
              np ← rd (npartner st) i;
              c ← wr (npartner st) i (np + 1);
              let st := set_npartner c st in
              v ← rd (vinter st) i;
              d ← wr (vinter st) i (v ⊕ vfrac (atom L) j);
              Ok (set_vinter d st)
            else Ok st)
          st)
      st = Ok st' ∧
    allocated nmax st' ∧
    first st' = first st ∧ maxpartner st' = maxpartner st ∧ wvolume st' = wvolume st ∧
    ∀ k np v, 0 ≤ k < nmax →
      npartner st !! Z.to_nat k = Some np → vinter st !! Z.to_nat k = Some v →
      let acc := accepted_of L k (scan L il k) in
      atom_state st' k =
        (Some (np + Z.of_nat (length acc)),
         bonds st k ++ (bond_of L k <$> acc),
         Some (foldl (fun v j => (v ⊕ vfrac (atom L) j)) v acc),
         wvolume st !! Z.to_nat k).
Proof.
  revert st. induction il as [|i il IH]; intros st Ha Hil Hroom.
  - exists st. split; [done|]. split; [done|]. split; [done|]. split; [done|].
    split; [done|]. intros k np v Hk Hnp Hv. simpl.
    unfold atom_state. rewrite Hnp, Hv, Z.add_0_r, app_nil_r. done.
  - apply Forall_cons in Hil as [Hi Hil].
    destruct (allocated_lookup _ _ _ Ha Hi)
      as (np & ps & rs & v & wv & Hnp & Hps & Hlps & Hrs & Hlrs & Hv & Hwv).
    destruct (Hroom i np) as [Hnp0 Hroomi]; [apply list_elem_of_here | done |].
    rewrite scan_cons, Z.eqb_refl, accepted_of_app, length_app in Hroomi.
    destruct (populate_inner L nmax i (firstneigh (neigh_list L) i) st np v)
      as (st1 & Hrun1 & Ha1 & Hf1 & Hm1 & Hw1 & Hst1 & Hfr1); try done; try lia.
    cbv zeta in Hst1.
    destruct (IH st1) as (st' & Hrun & Ha' & Hf' & Hm' & Hw' & Hst'); try done.
    { intros k npk Hk Hnpk.
      assert (Hk0 : 0 ≤ k) by (apply (Forall_forall _ _ ) with (x := k) in Hil; [lia | done]).
      destruct (decide (k = i)) as [->|Hne].
      - apply (f_equal (fun p => p.1.1.1)) in Hst1. simpl in Hst1.
        rewrite Hst1 in Hnpk. injection Hnpk as <-. rewrite Hm1. lia.
      - destruct (atom_state_npartner _ _ _ (Hfr1 k Hk0 Hne)) as (Hn' & _).
        rewrite Hn' in Hnpk.
        destruct (Hroom k npk) as [H1 H2]; [by apply list_elem_of_further | done |].
        rewrite scan_cons in H2. destruct (i =? k) eqn:E; [lia|].
        simpl in H2. rewrite Hm1. done. }
    exists st'. split; [by rewrite for__cons, Hrun1|].
    split; [done|]. split; [congruence|]. split; [congruence|]. split; [congruence|].
    intros k npk vk Hk Hnpk Hvk. cbv zeta.
    rewrite scan_cons, accepted_of_app.
    destruct (decide (k = i)) as [->|Hne].
    + rewrite Z.eqb_refl.
      rewrite Hnp in Hnpk. injection Hnpk as <-. rewrite Hv in Hvk. injection Hvk as <-.
      pose proof Hst1 as Hst1'.
      unfold atom_state in Hst1'. injection Hst1' as Hn1 Hb1 Hv1 Hw1'.
      rewrite (Hst' i _ _ Hi Hn1 Hv1). cbv zeta.
      rewrite Hb1, Hw1, length_app, fmap_app, foldl_app, <- app_assoc.
      repeat (apply pair_equal_spec; split); try done. f_equal. lia.
    + destruct (i =? k) eqn:E; [lia|]. simpl.
      destruct (atom_state_npartner _ _ _ (Hfr1 k ltac:(lia) Hne)) as (Hn' & Hb' & Hv' & Hw'').
      rewrite <- Hn' in Hnpk. rewrite <- Hv' in Hvk.
      rewrite (Hst' k _ _ Hk Hnpk Hvk). cbv zeta. by rewrite Hb', Hw1.
Qed.

Lemma MPI_Allreduce_MAX_ge mine others : mine ≤ MPI_Allreduce_MAX mine others.
Proof. unfold MPI_Allreduce_MAX. induction others as [|a l IH]; simpl; lia. Qed.

Lemma bonds_zero st k : npartner st !! Z.to_nat k = Some 0 → bonds st k = [].
Proof.
  intros H. unfold bonds. rewrite H.
  destruct (partner st !! Z.to_nat k); [|done]. by destruct (r0 st !! Z.to_nat k).
Qed.

Lemma local_degrees_lookup L i :
  0 ≤ i < nlocal (atom L) →
  local_degrees L !! Z.to_nat i = Some (Z.of_nat (length (accepted L i))).
Proof.
  intros Hi. unfold local_degrees. rewrite list_lookup_fmap.
  rewrite (proj2 (lookup_seqZ 0 _ (Z.to_nat i) i)) by lia. done.
Qed.

Lemma length_local_degrees L :
  length (local_degrees L) = Z.to_nat (nlocal (atom L)).
Proof. unfold local_degrees. by rewrite length_fmap, length_seqZ. Qed.

Lemma setup_sizing_spec L st :
  ready L st →
  ∃ np',
    setup_count L (set_first 0 st) = Ok (set_npartner np' (set_first 0 st)) ∧
    length np' = Z.to_nat (nmax (atom L)) ∧
    take (Z.to_nat (nlocal (atom L))) np' = local_degrees L.
Proof.
  intros (Ha & Hnl & Hfirst & Hzero & Hil & Hsw).
  pose proof Ha as (Hn & _).
  destruct (setup_count_spec L (set_first 0 st)) as (np' & Hrun & Hlen & Hval).
  { simpl. eapply Forall_impl; [exact Hil|]. simpl. intros i Hi. lia. }
  simpl in Hlen, Hval.
  exists np'. split; [done|]. split; [lia|].
  apply list_eq. intros idx.
  destruct (decide (idx < Z.to_nat (nlocal (atom L)))%nat) as [Hlt|Hge].
  - rewrite lookup_take_lt by done.
    replace idx with (Z.to_nat (Z.of_nat idx)) by lia.
    rewrite local_degrees_lookup by lia.
    rewrite (Hval (Z.of_nat idx) 0); [done | lia |]. apply Hzero. lia.
  - rewrite lookup_take_ge by lia. symmetry. apply lookup_ge_None.
    rewrite length_local_degrees. lia.
Qed.

Lemma setup_contribution_spec L st :
  ready L st → setup_contribution L st = Ok (list_max0 (local_degrees L)).
Proof.
  intros Hr. destruct (setup_sizing_spec L st Hr) as (np' & Hcount & Hlen & Htake).
  destruct Hr as (Ha & Hnl & _).
  unfold setup_contribution. rewrite Hcount, bind_Ok.
  rewrite setup_localmax_spec by (simpl; lia). rewrite bind_Ok. simpl.
  by rewrite Htake.
Qed.

(** The store lines 150-240 build. *)
Lemma setup_build_spec L others st :
  ready L st →
  ∃ stb,
    setup_build L others st = Ok stb ∧
    allocated (nmax (atom L)) stb ∧
    first stb = 0 ∧
    maxpartner stb = MPI_Allreduce_MAX (list_max0 (local_degrees L)) others ∧
    ∀ i, 0 ≤ i < nlocal (atom L) →
      atom_state stb i =
        (Some (Z.of_nat (length (accepted L i))),
         bond_of L i <$> accepted L i,
         Some (vinter_of L (accepted L i)),
         Some 0%Q).
Proof.
  intros Hr. destruct (setup_sizing_spec L st Hr) as (np' & Hcount & Hlen & Htake).
  destruct Hr as (Ha & Hnl & Hfirst & Hzero & Hil & Hsw).
  unfold setup_build. rewrite Hcount, bind_Ok.
  rewrite setup_localmax_spec by (simpl; lia). rewrite bind_Ok.
  simpl maxpartner. rewrite Htake.
  set (M := MPI_Allreduce_MAX (list_max0 (local_degrees L)) others).
  match goal with |- context [setup_realloc L ?s] => set (s1 := s) end.
  destruct (setup_realloc_spec L s1 Hnl) as (sr & Hrun & Har & Hfr & Hmr & Hz).
  rewrite Hrun, bind_Ok. simpl in Hfr, Hmr.
  destruct (populate_outer L (nmax (atom L)) (ilist (neigh_list L)) sr)
    as (stb & Hpop & Hab & Hfb & Hmb & Hwb & Hst).
  - done.
  - eapply Forall_impl; [exact Hil|]. simpl. intros i Hi. lia.
  - intros k np Hk Hnp.
    assert (Hkl : 0 ≤ k < nlocal (atom L)).
    { by apply (Forall_forall _ _ ) with (x := k) in Hil. }
    destruct (Hz k Hkl) as (Hn0 & _). rewrite Hn0 in Hnp. injection Hnp as <-.
    split; [done|]. rewrite Hmr. unfold M.
    pose proof (MPI_Allreduce_MAX_ge (list_max0 (local_degrees L)) others).
    assert (Z.of_nat (length (accepted L k)) ≤ list_max0 (local_degrees L)).
    { apply list_max0_ge. apply list_elem_of_lookup. exists (Z.to_nat k).
      by apply local_degrees_lookup. }
    unfold accepted, candidates in *. lia.
  - exists stb. split; [exact Hpop|]. split; [done|]. split; [congruence|].
    split; [congruence|].
    intros i Hi. destruct (Hz i Hi) as (Hn0 & Hv0 & Hw0).
    rewrite (Hst i 0 0%Q) by (lia || done). cbv zeta.
    rewrite (bonds_zero sr i Hn0), Hw0. simpl. done.
Qed.

(** ** [setup]: the duplicate check *)

Lemma bonds_lookup st i np ps rs (n : nat) t r :
  npartner st !! Z.to_nat i = Some np →
  partner st !! Z.to_nat i = Some ps →
  r0 st !! Z.to_nat i = Some rs →
  bonds st i !! n = Some (t, r) ↔
  (n < Z.to_nat np)%nat ∧ ps !! n = Some t ∧ rs !! n = Some r.
Proof.
  intros Hnp Hps Hrs. rewrite (bonds_unfold st i np ps rs) by done.
  rewrite lookup_take_Some, lookup_zip_Some. clear. tauto.
Qed.

Lemma has_duplicate_rows st i np ps rs :
  npartner st !! Z.to_nat i = Some np →
  partner st !! Z.to_nat i = Some ps →
  r0 st !! Z.to_nat i = Some rs →
  np ≤ Z.of_nat (length rs) →
  has_duplicate (bonds st i) ↔
  ∃ jj kk a, 0 ≤ jj < kk ∧ kk < np ∧
    ps !! Z.to_nat jj = Some a ∧ ps !! Z.to_nat kk = Some a.
Proof.
  intros Hnp Hps Hrs Hl. unfold has_duplicate. split.
  - intros (jj & kk & t & r1 & r2 & Hlt & H1 & H2).
    apply (bonds_lookup st i np ps rs) in H1 as (Hj & Hpj & _); try done.
    apply (bonds_lookup st i np ps rs) in H2 as (Hk & Hpk & _); try done.
    exists (Z.of_nat jj), (Z.of_nat kk), t. rewrite !Nat2Z.id.
    repeat split; try done; lia.
  - intros (jj & kk & a & Hlt & Hk & Hpj & Hpk).
    destruct (lookup_lt_is_Some_2 rs (Z.to_nat jj)) as [r1 Hr1]; [lia|].
    destruct (lookup_lt_is_Some_2 rs (Z.to_nat kk)) as [r2 Hr2]; [lia|].
    exists (Z.to_nat jj), (Z.to_nat kk), a, r1, r2.
    split; [lia|]. split; apply (bonds_lookup st i np ps rs); try done.
    + repeat split; try done. lia.
    + repeat split; try done. lia.
Qed.

(** The two inner loops of the check, for atom [i]. *)
Lemma setup_check_atom st i np ps :
  0 ≤ i →
  npartner st !! Z.to_nat i = Some np →
  partner st !! Z.to_nat i = Some ps →
  np ≤ Z.of_nat (length ps) →
  let r :=
    (jnum ← rd (npartner st) i;
     for_ (seqZ 0 jnum) (fun jj _ =>
         for_ (seqZ (jj + 1) (jnum - (jj + 1))) (fun kk _ =>
             a ← rd2 (partner st) i jj;
             b ← rd2 (partner st) i kk;
             if a =? b then
               Fatal "Duplicate particle in PeriDynamic bond - simulation box is too small"
             else Ok tt)
           tt)
       tt) in
  (r = Ok tt ∨ r = Fatal dup_msg) ∧
  (r = Fatal dup_msg ↔
   ∃ jj kk a, 0 ≤ jj < kk ∧ kk < np ∧
     ps !! Z.to_nat jj = Some a ∧ ps !! Z.to_nat kk = Some a).
Proof.
  intros Hi Hnp Hps Hl r. unfold r. clear r.
  rewrite (rd_Ok _ _ np) by done. rewrite bind_Ok.
  pose (inner := fun (jj kk : Z) (_ : unit) =>
    a ← rd2 (partner st) i jj;
    b ← rd2 (partner st) i kk;
    if a =? b then Fatal dup_msg else Ok tt).
  pose (outer := fun (jj : Z) (_ : unit) =>
    for_ (seqZ (jj + 1) (np - (jj + 1))) (inner jj) tt).
  match goal with |- context [for_ (seqZ 0 np) ?f tt] => change f with outer end.
  assert (Hbody : ∀ jj kk, 0 ≤ jj < kk → kk < np →
    ∃ a b, ps !! Z.to_nat jj = Some a ∧ ps !! Z.to_nat kk = Some b ∧
      inner jj kk tt = if a =? b then Fatal dup_msg else Ok tt).
  { intros jj kk Hjk Hk.
    destruct (lookup_lt_is_Some_2 ps (Z.to_nat jj)) as [a Ha]; [lia|].
    destruct (lookup_lt_is_Some_2 ps (Z.to_nat kk)) as [b Hb]; [lia|].
    exists a, b. split; [done|]. split; [done|]. unfold inner.
    rewrite (rd2_Ok _ i jj ps a) by (done || lia). rewrite bind_Ok.
    rewrite (rd2_Ok _ i kk ps b) by (done || lia). rewrite bind_Ok. done. }
  destruct (for_ (seqZ 0 np) outer tt) as [[]| |m] eqn:Hrun.
  - split; [by left|]. split; [done|].
    intros (jj & kk & a & Hjk & Hk & Hpj & Hpk). exfalso.
    apply for__unit_Ok in Hrun.
    apply (Forall_forall _ _) with (x := jj) in Hrun; [|apply elem_of_seqZ; lia].
    unfold outer in Hrun. apply for__unit_Ok in Hrun.
    apply (Forall_forall _ _) with (x := kk) in Hrun; [|apply elem_of_seqZ; lia].
    destruct (Hbody jj kk) as (a' & b' & Ha' & Hb' & Hin); [lia | lia |].
    fold (inner jj) in Hrun. rewrite Hin in Hrun.
    rewrite Hpj in Ha'. rewrite Hpk in Hb'. injection Ha' as <-. injection Hb' as <-.
    by rewrite Z.eqb_refl in Hrun.
  - exfalso. apply for__unit_stop in Hrun as (jj & Hjj & Hrun); [|done].
    unfold outer in Hrun. apply for__unit_stop in Hrun as (kk & Hkk & Hrun); [|done].
    apply elem_of_seqZ in Hjj. apply elem_of_seqZ in Hkk.
    destruct (Hbody jj kk) as (a & b & _ & _ & Hin); [lia | lia |].
    fold (inner jj) in Hrun. rewrite Hin in Hrun. by destruct (a =? b).
  - apply for__unit_stop in Hrun as (jj & Hjj & Hrun); [|done].
    unfold outer in Hrun. apply for__unit_stop in Hrun as (kk & Hkk & Hrun); [|done].
    apply elem_of_seqZ in Hjj. apply elem_of_seqZ in Hkk.
    destruct (Hbody jj kk) as (a & b & Ha & Hb & Hin); [lia | lia |].
    fold (inner jj) in Hrun. rewrite Hin in Hrun.
    destruct (a =? b) eqn:E; [|done]. injection Hrun as <-.
    split; [by right|]. split; [|done]. intros _.
    exists jj, kk, a. apply Z.eqb_eq in E. subst b.
    repeat split; try done; lia.
Qed.

Lemma setup_check_spec L st :
  allocated (nmax (atom L)) st →
  0 ≤ nlocal (atom L) ≤ nmax (atom L) →
  (∀ i np, 0 ≤ i < nlocal (atom L) →
     npartner st !! Z.to_nat i = Some np → np ≤ maxpartner st) →
  (setup_check L st = Ok tt ∨ setup_check L st = Fatal dup_msg) ∧
  (setup_check L st = Fatal dup_msg ↔
   periodic (domain L) = true ∧
   ∃ i, 0 ≤ i < nlocal (atom L) ∧ has_duplicate (bonds st i)).
Proof.
  intros Ha Hnl Hnp. unfold setup_check.
  destruct (periodic (domain L)) eqn:Hper.
  2: { split; [by left|]. split; [done | by intros [? _]]. }
  pose (body := fun (i : Z) (_ : unit) =>
    jnum ← rd (npartner st) i;
    for_ (seqZ 0 jnum) (fun jj _ =>
        for_ (seqZ (jj + 1) (jnum - (jj + 1))) (fun kk _ =>
            a ← rd2 (partner st) i jj;
            b ← rd2 (partner st) i kk;
            if a =? b then Fatal dup_msg else Ok tt)
          tt)
      tt).
  change (for_ (seqZ 0 (nlocal (atom L))) ?f tt)
    with (for_ (seqZ 0 (nlocal (atom L))) body tt).
  assert (Hatom : ∀ i, 0 ≤ i < nlocal (atom L) →
    (body i tt = Ok tt ∨ body i tt = Fatal dup_msg) ∧
    (body i tt = Fatal dup_msg ↔ has_duplicate (bonds st i))).
  { intros i Hi.
    assert (Hi' : 0 ≤ i < nmax (atom L)) by lia.
    destruct (allocated_lookup _ _ _ Ha Hi')
      as (np & ps & rs & vi & wv & Hn & Hps & Hlps & Hrs & Hlrs & _).
    pose proof (Hnp i np Hi Hn) as Hle.
    destruct (setup_check_atom st i np ps) as [Hcases Hiff]; try done; try lia.
    split; [exact Hcases|].
    rewrite (has_duplicate_rows st i np ps rs) by (done || lia). exact Hiff. }
  destruct (for_ (seqZ 0 (nlocal (atom L))) body tt) as [[]| |m] eqn:Hrun.
  - split; [by left|]. split; [done|].
    intros (_ & i & Hi & Hdup). exfalso.
    apply for__unit_Ok in Hrun.
    apply (Forall_forall _ _) with (x := i) in Hrun; [|apply elem_of_seqZ; lia].
    apply (Hatom i Hi) in Hdup. congruence.
  - exfalso. apply for__unit_stop in Hrun as (i & Hi & Hrun); [|done].
    apply elem_of_seqZ in Hi.
    destruct (Hatom i ltac:(lia)) as [[H|H] _]; congruence.
  - apply for__unit_stop in Hrun as (i & Hi & Hrun); [|done].
    apply elem_of_seqZ in Hi.
    destruct (Hatom i ltac:(lia)) as [[H|H] Hiff]; [congruence|].
    assert (m = dup_msg) by congruence. subst m.
    split; [by right|]. split; [|done]. intros _. split; [done|].
    exists i. split; [lia|]. by apply Hiff.
Qed.

(** ** [setup]: the weighted volume *)

Lemma set_wvolume_id st : set_wvolume (wvolume st) st = st.
Proof. by destruct st. Qed.

Lemma setup_wvolume_slot_spec L st i jj ps rs w t r :
  0 ≤ i → 0 ≤ jj →
  partner st !! Z.to_nat i = Some ps → r0 st !! Z.to_nat i = Some rs →
  ps !! Z.to_nat jj = Some t → rs !! Z.to_nat jj = Some r →
  wvolume st !! Z.to_nat i = Some w →
  setup_wvolume_slot L i jj st
  = Ok (set_wvolume (<[Z.to_nat i := wvolume_add L i w (t, r)]> (wvolume st)) st).
Proof.
  intros Hi Hjj Hps Hrs Ht Hr Hw.
  assert (Hskip : Ok st = Ok (set_wvolume (<[Z.to_nat i := w]> (wvolume st)) st)).
  { by rewrite list_insert_id, set_wvolume_id. }
  apply lookup_lt_Some in Hw as Hlt.
  unfold setup_wvolume_slot, wvolume_add, resolvable, influence. cbv zeta. simpl fst. simpl snd.
  rewrite (rd2_Ok _ i jj ps t) by done. rewrite bind_Ok.
  destruct (t =? 0) eqn:Et; simpl; [done|].
  destruct (map (atom L) t <? 0) eqn:Ej; simpl; [done|].
  rewrite (rd2_Ok _ i jj rs r) by done. rewrite bind_Ok.
  destruct (anypair L) as [|f|]; [| |done].
  - rewrite (rd_Ok _ _ w) by done. rewrite bind_Ok.
    rewrite wr_Ok by lia. done.
  - rewrite (rd_Ok _ _ w) by done. rewrite bind_Ok.
    rewrite wr_Ok by lia. done.
Qed.

Lemma setup_wvolume_atom L st i np ps rs w :
  0 ≤ i →
  npartner st !! Z.to_nat i = Some np →
  partner st !! Z.to_nat i = Some ps → r0 st !! Z.to_nat i = Some rs →
  np ≤ Z.of_nat (length ps) → np ≤ Z.of_nat (length rs) →
  wvolume st !! Z.to_nat i = Some w →
  (jnum ← rd (npartner st) i; for_ (seqZ 0 jnum) (setup_wvolume_slot L i) st)
  = Ok (set_wvolume (<[Z.to_nat i := wvolume_of L i w (bonds st i)]> (wvolume st)) st).
Proof.
  intros Hi Hnp Hps Hrs Hlp Hlr Hw.
  rewrite (rd_Ok _ _ np) by done. rewrite bind_Ok.
  apply lookup_lt_Some in Hw as Hlt.
  destruct (for__seqZ_rule'
    (fun jj s =>
       s = set_wvolume
             (<[Z.to_nat i := wvolume_of L i w (take (Z.to_nat jj) (bonds st i))]>
                (wvolume st)) st)
    (setup_wvolume_slot L i) 0 np st) as (s & Hloop & Hs).
  - simpl. by rewrite list_insert_id, set_wvolume_id.
  - intros jj s Hjj ->.
    destruct (lookup_lt_is_Some_2 ps (Z.to_nat jj)) as [t Ht]; [lia|].
    destruct (lookup_lt_is_Some_2 rs (Z.to_nat jj)) as [r Hr]; [lia|].
    rewrite (setup_wvolume_slot_spec L _ i jj ps rs
               (wvolume_of L i w (take (Z.to_nat jj) (bonds st i))) t r);
      try done; try lia.
    + eexists. split; [done|]. unfold set_wvolume. simpl.
      rewrite list_insert_insert_eq. do 2 f_equal.
      replace (Z.to_nat (jj + 1)) with (S (Z.to_nat jj)) by lia.
      rewrite (take_S_r _ _ (t, r)).
      * unfold wvolume_of. by rewrite foldl_app.
      * apply (bonds_lookup st i np ps rs); try done. repeat split; try done. lia.
    + simpl. by apply list_lookup_insert_eq.
  - rewrite Hloop, Hs. do 4 f_equal.
    rewrite take_ge; [done|].
    rewrite (bonds_unfold st i np ps rs) by done. rewrite length_take. lia.
Qed.

Lemma setup_wvolume_spec L st :
  allocated (nmax (atom L)) st →
  0 ≤ nlocal (atom L) ≤ nmax (atom L) →
  (∀ i np, 0 ≤ i < nlocal (atom L) →
     npartner st !! Z.to_nat i = Some np → np ≤ maxpartner st) →
  ∃ wv,
    setup_wvolume L st = Ok (set_wvolume wv st) ∧
    length wv = length (wvolume st) ∧
    (∀ i w, 0 ≤ i < nlocal (atom L) → wvolume st !! Z.to_nat i = Some w →
       wv !! Z.to_nat i = Some (wvolume_of L i w (bonds st i))) ∧
    (∀ i, nlocal (atom L) ≤ i → wv !! Z.to_nat i = wvolume st !! Z.to_nat i).
Proof.
  intros Ha Hnl Hnp. unfold setup_wvolume.
  match goal with |- context [for_ _ ?b _] => set (body := b) end.
  destruct (for__seqZ_rule
    (fun i s =>
       ∃ wv, s = set_wvolume wv st ∧ length wv = length (wvolume st) ∧
         (∀ k w, 0 ≤ k < i → wvolume st !! Z.to_nat k = Some w →
            wv !! Z.to_nat k = Some (wvolume_of L k w (bonds st k))) ∧
         (∀ k, i ≤ k → wv !! Z.to_nat k = wvolume st !! Z.to_nat k))
    body 0 (nlocal (atom L)) st) as (s & Hloop & wv & -> & Hlen & Hdone & Hrest).
  - lia.
  - exists (wvolume st). rewrite set_wvolume_id. split; [done|]. split; [done|].
    split; [intros; lia | done].
  - intros i s Hi (wv & -> & Hlen & Hdone & Hrest).
    assert (Hi' : 0 ≤ i < nmax (atom L)) by lia.
    destruct (allocated_lookup _ _ _ Ha Hi')
      as (np & ps & rs & vi & w & Hn & Hps & Hlps & Hrs & Hlrs & _ & Hw).
    pose proof (Hnp i np ltac:(lia) Hn) as Hle.
    unfold body.
    rewrite (setup_wvolume_atom L (set_wvolume wv st) i np ps rs w); try done; try lia.
    + eexists. split; [done|]. eexists. split; [done|]. simpl.
      split; [by rewrite length_insert|]. split.
      * intros k wk Hk Hwk. destruct (decide (k = i)) as [->|Hne].
        -- rewrite list_lookup_insert_eq by (pose proof Ha as (_&_&_&_&_&_&?); lia).
           rewrite Hw in Hwk. injection Hwk as <-. done.
        -- rewrite list_lookup_insert_ne by lia. apply Hdone; [lia | done].
      * intros k Hk. rewrite list_lookup_insert_ne by lia. apply Hrest. lia.
    + simpl. rewrite Hrest by lia. done.
  - exists wv. split; [done|]. split; [done|]. split.
    + intros i w Hi Hw. apply Hdone; [lia | done].
    + intros i Hi. apply Hrest. lia.
Qed.

(** ** [setup] as a whole *)

Lemma forward_comm_fix_spec L st :
  Forall (swap_ok (nlocal (atom L)) (nmax (atom L))) (swaps L) →
  0 ≤ nlocal (atom L) →
  Z.of_nat (length (wvolume st)) = nmax (atom L) →
  ∃ wv,
    forward_comm_fix L st = Ok (set_wvolume wv st) ∧
    length wv = length (wvolume st) ∧
    ∀ i, 0 ≤ i < nlocal (atom L) → wv !! Z.to_nat i = wvolume st !! Z.to_nat i.
Proof.
  unfold forward_comm_fix. generalize (swaps L) as sws.
  intros sws. revert st. induction sws as [|sw sws IH]; intros st Hsw Hnl Hlen.
  - exists (wvolume st). simpl. by rewrite set_wvolume_id.
  - apply Forall_cons in Hsw as [(Hsend & Hfirst & Hrecv) Hsw].
    cbn [foldl]. rewrite bind_Ok.
    destruct (pack_comm_spec st (sendnum sw) (sendlist sw) (fun _ => 0%Q))
      as (b & Hpack & _).
    { intros k Hk. specialize (Hsend k Hk). lia. }
    rewrite Hpack, bind_Ok.
    destruct (unpack_comm_spec st (recvnum sw) (firstrecv sw) (buf_recv sw))
      as (st1 & Hun & _); [lia | lia |].
    rewrite Hun.
    destruct (unpack_comm_frame _ _ _ _ _ Hun)
      as (Hf & Hm & Hn & Hp & Hr & Hv & Hl & Hw).
    destruct (IH st1 Hsw Hnl) as (wv & Hrun & Hlen' & Hloc); [lia|].
    exists wv. split.
    + rewrite Hrun. f_equal. destruct st, st1. simpl in *. by subst.
    + split; [congruence|]. intros i Hi. rewrite Hloc by done. apply Hw; lia.
Qed.

Lemma setup_spec L others st :
  ready L st →
  ∃ stb,
    setup_build L others st = Ok stb ∧
    allocated (nmax (atom L)) stb ∧
    first stb = 0 ∧
    maxpartner stb = MPI_Allreduce_MAX (list_max0 (local_degrees L)) others ∧
    (∀ i, 0 ≤ i < nlocal (atom L) →
       atom_state stb i =
         (Some (Z.of_nat (length (accepted L i))),
          bond_of L i <$> accepted L i,
          Some (vinter_of L (accepted L i)),
          Some 0%Q)) ∧
    ((duplicate_found L stb ∧ setup L others st = Fatal dup_msg) ∨
     (¬ duplicate_found L stb ∧
      ∃ wv,
        setup L others st = Ok (set_wvolume wv stb) ∧
        length wv = length (wvolume stb) ∧
        ∀ i, 0 ≤ i < nlocal (atom L) →
          wv !! Z.to_nat i = Some (wvolume_of L i 0%Q (bonds stb i)))).
Proof.
  intros Hr.
  destruct (setup_build_spec L others st Hr) as (stb & Hbuild & Ha & Hf & Hm & Hst).
  destruct Hr as (_ & Hnl & Hfirst & _ & _ & Hsw).
  exists stb. split; [done|]. split; [done|]. split; [done|]. split; [done|].
  split; [done|].
  assert (Hnp : ∀ i np, 0 ≤ i < nlocal (atom L) →
    npartner stb !! Z.to_nat i = Some np → np ≤ maxpartner stb).
  { intros i np Hi Hn.
    pose proof (f_equal (fun p => p.1.1.1) (Hst i Hi)) as Hn'. simpl in Hn'.
    rewrite Hn' in Hn. injection Hn as <-. rewrite Hm.
    pose proof (MPI_Allreduce_MAX_ge (list_max0 (local_degrees L)) others).
    assert (Z.of_nat (length (accepted L i)) ≤ list_max0 (local_degrees L)); [|lia].
    apply list_max0_ge, list_elem_of_lookup. exists (Z.to_nat i).
    by apply local_degrees_lookup. }
  destruct (setup_check_spec L stb Ha Hnl Hnp) as [Hcases Hiff].
  unfold setup. destruct (first st =? 0) eqn:E; [lia|].
  rewrite Hbuild, bind_Ok.
  destruct Hcases as [Hok|Hfatal].
  - right. split.
    { intros Hdup. apply Hiff in Hdup. congruence. }
    rewrite Hok, bind_Ok.
    destruct (setup_wvolume_spec L stb Ha Hnl Hnp) as (wv & Hwv & Hlen & Hloc & _).
    rewrite Hwv, bind_Ok.
    pose proof Ha as (_ & _ & _ & _ & _ & _ & Hwl).
    destruct (forward_comm_fix_spec L (set_wvolume wv stb)) as (wv' & Hcomm & Hlen' & Hloc');
      [done | lia | simpl; lia |].
    simpl in Hlen', Hloc'.
    exists wv'. split; [by rewrite Hcomm|]. split; [congruence|].
    intros i Hi. rewrite Hloc' by done. apply Hloc; [done|].
    pose proof (f_equal (fun p => p.2) (Hst i Hi)) as Hw. done.
  - left. split; [by apply Hiff|]. by rewrite Hfatal.
Qed.

(** ** The build-once flag *)

(** Take apart a hypothesis saying that a sequence of array accesses
    succeeded. *)
Ltac inv_ok H :=
  repeat match type of H with
  | Ok _ = Ok _ => injection H as <-
  | (Ok _ ≫= _) = Ok _ => rewrite bind_Ok in H
  | (?m ≫= _) = Ok _ =>
      let E := fresh "E" in
      destruct m eqn:E; [rewrite bind_Ok in H | discriminate H | discriminate H]
  | (if ?c then _ else _) = Ok _ => destruct c
  | (match ?p with PairPeriPMB => _ | PairPeriLPS _ => _ | PairOther => _ end) = Ok _ =>
      destruct p
  | (let _ := _ in _) = Ok _ => cbv zeta in H
  end.

Lemma setup_count_first L st st' : setup_count L st = Ok st' → first st' = first st.
Proof.
  unfold setup_count. intros H.
  apply (for__preserve (fun s => first s = first st)) in H; [done | | done].
  intros i s s1 _ Hs H1.
  apply (for__preserve (fun s => first s = first st)) in H1; [done | | done].
  intros j s2 s3 _ Hs2 H2. cbv zeta in H2. inv_ok H2; done.
Qed.

Lemma setup_localmax_first L st st' : setup_localmax L st = Ok st' → first st' = first st.
Proof.
  unfold setup_localmax. intros H.
  apply (for__preserve (fun s => first s = first st)) in H; [done | | done].
  intros i s s1 _ Hs H1. inv_ok H1. done.
Qed.

Lemma setup_realloc_first L st st' : setup_realloc L st = Ok st' → first st' = first st.
Proof.
  unfold setup_realloc. intros H.
  apply (for__preserve (fun s => first s = first st)) in H; [done | | done].
  intros i s s1 _ Hs H1. inv_ok H1. done.
Qed.

Lemma setup_populate_first L st st' : setup_populate L st = Ok st' → first st' = first st.
Proof.
  unfold setup_populate. intros H.
  apply (for__preserve (fun s => first s = first st)) in H; [done | | done].
  intros i s s1 _ Hs H1.
  apply (for__preserve (fun s => first s = first st)) in H1; [done | | done].
  intros j s2 s3 _ Hs2 H2. cbv zeta in H2. inv_ok H2; done.
Qed.

Lemma setup_wvolume_first L st st' : setup_wvolume L st = Ok st' → first st' = first st.
Proof.
  unfold setup_wvolume. intros H.
  apply (for__preserve (fun s => first s = first st)) in H; [done | | done].
  intros i s s1 _ Hs H1. inv_ok H1.
  apply (for__preserve (fun s => first s = first st)) in H1; [done | | done].
  intros j s2 s3 _ Hs2 H2. unfold setup_wvolume_slot in H2. cbv zeta in H2.
  inv_ok H2; done.
Qed.

Lemma forward_comm_fix_first L st st' :
  forward_comm_fix L st = Ok st' → first st' = first st.
Proof.
  unfold forward_comm_fix. generalize (swaps L) as sws. intros sws. revert st.
  induction sws as [|sw sws IH]; intros st H.
  - simpl in H. by injection H as <-.
  - cbn [foldl] in H. rewrite bind_Ok in H.
    destruct (pack_comm st (sendnum sw) (sendlist sw) (fun _ => 0%Q)) as [p| |] eqn:Ep.
    + rewrite bind_Ok in H.
      destruct (unpack_comm st (recvnum sw) (firstrecv sw) (buf_recv sw)) as [s1| |] eqn:Eu.
      * apply IH in H. apply unpack_comm_frame in Eu as (Hf & _). congruence.
      * exfalso. clear -H. induction sws as [|a l IHl]; simpl in H; [done | auto].
      * exfalso. clear -H. induction sws as [|a l IHl]; simpl in H; [done | auto].
    + exfalso. simpl in H. clear -H. induction sws as [|a l IHl]; simpl in H; [done | auto].
    + exfalso. simpl in H. clear -H. induction sws as [|a l IHl]; simpl in H; [done | auto].
Qed.

(** C7.  A store whose flag [first] is clear is left as it is by [setup];
    and [setup] clears the flag before it builds, so that after any call that
    returns, every further call (whatever the neighbor list, the other
    partitions' contributions or the messages) returns at once and leaves
    [npartner], [partner], [r0], [vinter], [wvolume] and [maxpartner]
    unchanged. *)
Theorem setup_idempotent L others st :
  (first st = 0 → setup L others st = Ok st) ∧
  (∀ st', setup L others st = Ok st' →
     first st' = 0 ∧ ∀ L' others', setup L' others' st' = Ok st').
Proof.
  assert (Hnoop : ∀ L1 o1 s, first s = 0 → setup L1 o1 s = Ok s).
  { intros L1 o1 s Hs. unfold setup. by rewrite Hs. }
  split; [apply Hnoop|].
  intros st' Hrun.
  assert (Hf : first st' = 0); [|split; [done | intros; by apply Hnoop]].
  unfold setup in Hrun. destruct (first st =? 0) eqn:E.
  - injection Hrun as <-. lia.
  - unfold setup_build in Hrun. cbv zeta in Hrun.
    destruct (setup_count L (set_first 0 st)) as [s1| |] eqn:E1; try done.
    rewrite !bind_Ok in Hrun.
    destruct (setup_localmax L s1) as [s2| |] eqn:E2; try done.
    rewrite !bind_Ok in Hrun.
    destruct (setup_realloc L _) as [s3| |] eqn:E3; try done.
    rewrite !bind_Ok in Hrun.
    destruct (setup_populate L s3) as [s4| |] eqn:E4; try done.
    rewrite !bind_Ok in Hrun.
    destruct (setup_check L s4) as [[]| |] eqn:E5; try done.
    rewrite !bind_Ok in Hrun.
    destruct (setup_wvolume L s4) as [s5| |] eqn:E6; try done.
    rewrite !bind_Ok in Hrun.
    apply forward_comm_fix_first in Hrun. apply setup_wvolume_first in E6.
    apply setup_populate_first in E4. apply setup_realloc_first in E3.
    apply setup_localmax_first in E2. apply setup_count_first in E1.
    simpl in *. congruence.
Qed.

(** ** All partitions together *)

Lemma collect_fmap_Ok {A B} (f : A → result B) (g : A → B) (l : list A) :
  Forall (fun a => f a = Ok (g a)) l → collect (f <$> l) = Ok (g <$> l).
Proof.
  induction 1 as [|a l Ha _ IH]; [done|].
  rewrite !fmap_cons. cbn [collect]. rewrite Ha, bind_Ok, IH. done.
Qed.

Lemma collect_Ok_lookup {A} (l : list (result A)) outs :
  collect l = Ok outs →
  length outs = length l ∧
  ∀ k r, l !! k = Some r → ∃ o, r = Ok o ∧ outs !! k = Some o.
Proof.
  revert outs. induction l as [|r l IH]; intros outs H.
  - simpl in H. injection H as <-. split; [done|]. intros k r Hk. done.
  - simpl in H. destruct r as [a| |]; try done. rewrite bind_Ok in H.
    destruct (collect l) as [rest| |]; try done. rewrite bind_Ok in H.
    injection H as <-. destruct (IH rest eq_refl) as [Hlen Hlook].
    split; [simpl; lia|]. intros [|k] r Hk.
    + injection Hk as <-. by exists a.
    + simpl in Hk. apply Hlook in Hk as (o & -> & Ho). by exists o.
Qed.

Lemma collect_not_Ok {A} (l : list (result A)) r :
  collect l = r → (∀ outs, r ≠ Ok outs) →
  ∃ k r' , l !! k = Some r' ∧ (∀ o, r' ≠ Ok o) ∧
    match r', r with
    | OutOfBounds, OutOfBounds => True
    | Fatal m, Fatal m' => m = m'
    | _, _ => False
    end.
Proof.
  revert r. induction l as [|a l IH]; intros r H Hne.
  - simpl in H. subst r. by destruct (Hne []).
  - simpl in H. destruct a as [a| |m].
    + rewrite bind_Ok in H. destruct (collect l) as [rest| |m'] eqn:E.
      * rewrite bind_Ok in H. subst r. by destruct (Hne (a :: rest)).
      * simpl in H. subst r. destruct (IH OutOfBounds eq_refl) as (k & r' & Hk & Hr' & Hm); [done|].
        exists (S k), r'. done.
      * simpl in H. subst r. destruct (IH (Fatal m') eq_refl) as (k & r' & Hk & Hr' & Hm); [done|].
        exists (S k), r'. done.
    + simpl in H. subst r. exists 0%nat, OutOfBounds. done.
    + simpl in H. subst r. exists 0%nat, (Fatal m). done.
Qed.

Lemma list_max0_app l1 l2 : list_max0 (l1 ++ l2) = Z.max (list_max0 l1) (list_max0 l2).
Proof.
  unfold list_max0. induction l1 as [|a l1 IH]; simpl.
  - pose proof (list_max0_nonneg l2). unfold list_max0 in *. lia.
  - rewrite IH. lia.
Qed.

Lemma list_max0_concat (ls : list (list Z)) :
  list_max0 (concat ls) = list_max0 (list_max0 <$> ls).
Proof.
  induction ls as [|l ls IH]; [done|].
  simpl. rewrite list_max0_app, IH. done.
Qed.

Lemma MPI_Allreduce_MAX_delete (contribs : list Z) k c :
  contribs !! k = Some c → 0 ≤ c →
  MPI_Allreduce_MAX c (delete k contribs) = list_max0 contribs.
Proof.
  unfold MPI_Allreduce_MAX, list_max0.
  revert k. induction contribs as [|a l IH]; intros k Hk Hc; [done|].
  destruct k as [|k].
  - injection Hk as ->. simpl. clear IH.
    induction l as [|b l IHl]; simpl; lia.
  - simpl in Hk. simpl. rewrite (IH k) by done. done.
Qed.

Lemma setup_Ok_summary L others st out :
  ready L st → setup L others st = Ok out →
  allocated (nmax (atom L)) out ∧
  maxpartner out = MPI_Allreduce_MAX (list_max0 (local_degrees L)) others ∧
  take (Z.to_nat (nlocal (atom L))) (npartner out) = local_degrees L ∧
  ∀ i, 0 ≤ i < nlocal (atom L) →
    npartner out !! Z.to_nat i = Some (Z.of_nat (length (accepted L i))) ∧
    bonds out i = bond_of L i <$> accepted L i ∧
    vinter out !! Z.to_nat i = Some (vinter_of L (accepted L i)).
Proof.
  intros Hr Hrun.
  destruct (setup_spec L others st Hr) as (stb & _ & Ha & Hf & Hm & Hst & Hout).
  destruct Hout as [[_ Hfatal] | (_ & wv & Hok & Hlen & _)]; [congruence|].
  rewrite Hok in Hrun. injection Hrun as <-.
  assert (Hloc : ∀ i, 0 ≤ i < nlocal (atom L) →
    npartner stb !! Z.to_nat i = Some (Z.of_nat (length (accepted L i))) ∧
    bonds stb i = bond_of L i <$> accepted L i ∧
    vinter stb !! Z.to_nat i = Some (vinter_of L (accepted L i))).
  { intros i Hi. specialize (Hst i Hi). unfold atom_state in Hst.
    injection Hst as H1 H2 H3 H4. done. }
  split; [|split; [done|split]].
  - destruct Ha as (H1 & H2 & H3 & H4 & H5 & H6 & H7).
    unfold allocated. simpl. repeat split; try done. lia.
  - simpl. apply list_eq. intros idx.
    destruct (decide (idx < Z.to_nat (nlocal (atom L)))%nat) as [Hlt|Hge].
    + rewrite lookup_take_lt by done.
      replace idx with (Z.to_nat (Z.of_nat idx)) by lia.
      rewrite local_degrees_lookup by lia. apply Hloc. lia.
    + rewrite lookup_take_ge by lia. symmetry. apply lookup_ge_None.
      rewrite length_local_degrees. lia.
  - intros i Hi. destruct (Hloc i Hi) as (H1 & H2 & H3). done.
Qed.

(** C1.  When all partitions have run [setup] (each one's all-reduce
    receiving the local maxima of all the others), every partition holds the
    same [maxpartner], the largest [npartner[i]] over the owned atoms of all
    partitions, and every owned atom has [0 <= npartner[i] <= maxpartner].
    No partition runs outside its arrays on the way. *)
Theorem maxpartner_global ps :
  Forall (fun p => ready p.1 p.2) ps →
  setup_world ps ≠ OutOfBounds ∧
  ∀ outs, setup_world ps = Ok outs →
    length outs = length ps ∧
    ∀ k L st out, ps !! k = Some (L, st) → outs !! k = Some out →
      maxpartner out = list_max0 (world_degrees ps outs) ∧
      ∀ i, 0 ≤ i < nlocal (atom L) →
        ∃ np, npartner out !! Z.to_nat i = Some np ∧ 0 ≤ np ≤ maxpartner out.
Proof.
  intros Hready.
  set (contribs := (fun p => list_max0 (local_degrees p.1)) <$> ps).
  assert (Hc : collect ((fun p => setup_contribution p.1 p.2) <$> ps) = Ok contribs).
  { apply collect_fmap_Ok. eapply Forall_impl; [exact Hready|].
    intros [L st] Hr. by apply setup_contribution_spec. }
  unfold setup_world. rewrite Hc, bind_Ok.
  assert (Hk : ∀ k L st, ps !! k = Some (L, st) →
    ready L st ∧ contribs !! k = Some (list_max0 (local_degrees L)) ∧
    imap (fun k p => setup p.1 (delete k contribs) p.2) ps !! k
      = Some (setup L (delete k contribs) st)).
  { intros k L st Hp. split; [|split].
    - by apply (Forall_lookup_1 _ _ _ _ Hready Hp).
    - unfold contribs. by rewrite list_lookup_fmap, Hp.
    - by rewrite list_lookup_imap, Hp. }
  split.
  - intros Hoob.
    apply collect_not_Ok in Hoob as (k & r & Hr & _ & Hm); [|done].
    destruct (lookup_lt_is_Some_2 ps k) as [[L st] Hp].
    { apply lookup_lt_Some in Hr. by rewrite length_imap in Hr. }
    destruct (Hk k L st Hp) as (Hrd & _ & Hlook).
    rewrite Hlook in Hr. injection Hr as <-.
    destruct (setup_spec L (delete k contribs) st Hrd) as (stb & _ & _ & _ & _ & _ & Hout).
    destruct Hout as [[_ Hf] | (_ & wv & Hok & _)].
    + by rewrite Hf in Hm.
    + by rewrite Hok in Hm.
  - intros outs Houts.
    apply collect_Ok_lookup in Houts as [Hlen Hlook].
    rewrite length_imap in Hlen. split; [done|].
    assert (Hsum : ∀ k L st out, ps !! k = Some (L, st) → outs !! k = Some out →
      allocated (nmax (atom L)) out ∧
      maxpartner out = list_max0 contribs ∧
      take (Z.to_nat (nlocal (atom L))) (npartner out) = local_degrees L ∧
      ∀ i, 0 ≤ i < nlocal (atom L) →
        npartner out !! Z.to_nat i = Some (Z.of_nat (length (accepted L i)))).
    { intros k L st out Hp Ho.
      destruct (Hk k L st Hp) as (Hrd & Hck & Him).
      destruct (Hlook _ _ Him) as (o & Hrun & Ho'). rewrite Ho in Ho'. injection Ho' as <-.
      destruct (setup_Ok_summary L _ st out Hrd Hrun) as (Ha & Hm & Ht & Hloc).
      split; [done|]. split; [|split; [done|]].
      - rewrite Hm. apply MPI_Allreduce_MAX_delete; [done | apply list_max0_nonneg].
      - intros i Hi. by apply Hloc. }
    assert (Hworld : list_max0 (world_degrees ps outs) = list_max0 contribs).
    { unfold world_degrees. rewrite list_max0_concat. f_equal.
      unfold contribs. apply list_eq. intros k.
      rewrite !list_lookup_fmap, lookup_zip_with.
      destruct (ps !! k) as [[L st]|] eqn:Hp; [|done]. simpl.
      destruct (lookup_lt_is_Some_2 outs k) as [out Ho].
      { apply lookup_lt_Some in Hp. lia. }
      rewrite Ho. simpl.
      destruct (Hsum k L st out Hp Ho) as (_ & _ & Ht & _). by rewrite Ht. }
    intros k L st out Hp Ho.
    destruct (Hsum k L st out Hp Ho) as (Ha & Hm & Ht & Hloc).
    split; [congruence|].
    intros i Hi. eexists. split; [by apply Hloc|]. split; [lia|].
    rewrite Hm. unfold contribs.
    destruct (Hk k L st Hp) as (_ & Hck & _).
    assert (list_max0 (local_degrees L) ≤ list_max0 contribs).
    { apply list_max0_ge, list_elem_of_lookup. by exists k. }
    assert (Z.of_nat (length (accepted L i)) ≤ list_max0 (local_degrees L)); [|unfold contribs in *; lia].
    apply list_max0_ge, list_elem_of_lookup. exists (Z.to_nat i).
    by apply local_degrees_lookup.
Qed.

(** ** The builder's contract *)

Lemma within_cutoff_iff L i j :
  within_cutoff L i j = true ↔
  (rsq_of (x (atom L)) i j <= cutsq L (type (atom L) i) (type (atom L) j))%Q.
Proof. unfold within_cutoff. apply Qle_bool_iff. Qed.

Lemma setup_keeps_bonds L others st stb out :
  ready L st → setup_build L others st = Ok stb → setup L others st = Ok out →
  first out = first stb ∧ maxpartner out = maxpartner stb ∧
  npartner out = npartner stb ∧ partner out = partner stb ∧ r0 out = r0 stb ∧
  vinter out = vinter stb ∧ ∀ i, bonds out i = bonds stb i.
Proof.
  intros Hr Hb Hrun.
  destruct (setup_spec L others st Hr) as (stb' & Hb' & _ & _ & _ & _ & Hout).
  rewrite Hb in Hb'. injection Hb' as <-.
  destruct Hout as [[_ Hf] | (_ & wv & Hok & _)]; [congruence|].
  rewrite Hok in Hrun. injection Hrun as <-. done.
Qed.

Lemma rsq_of_squared_distance pos i j :
  rsq_of pos i j = squared_distance (pos i) (pos j).
Proof. reflexivity. Qed.

Lemma within_cutoff_in_horizon L i j :
  within_cutoff L i j = true ↔ in_horizon L i j.
Proof.
  unfold in_horizon. rewrite <- rsq_of_squared_distance. apply within_cutoff_iff.
Qed.

Lemma accepted_of_in_horizon L i js :
  accepted_of L i js = filter (in_horizon L i) js.
Proof.
  unfold accepted_of. induction js as [|j js IH]; [done|].
  destruct (within_cutoff L i j) eqn:E.
  - rewrite filter_cons_True by by rewrite E.
    rewrite (filter_cons_True (in_horizon L i)) by by apply within_cutoff_in_horizon.
    by rewrite IH.
  - rewrite filter_cons_False by (rewrite E; exact (fun H => H)).
    rewrite (filter_cons_False (in_horizon L i)).
    + done.
    + intros H. apply within_cutoff_in_horizon in H. congruence.
Qed.

Lemma bond_of_bond_record L i j : bond_of L i j = bond_record L i j.
Proof. reflexivity. Qed.

(** C3.  The store [setup] builds holds, for every owned atom [i], one bond
    for each candidate [j] met in the scan of the neighbor list whose squared
    distance, measured in [double] arithmetic, is at most
    [cutsq[itype][jtype]], in scan order, and nothing else; [npartner[i]] is
    their number.  Candidate by candidate: one with [rsq <= cutsq] adds its
    bond [(tag[j], sqrt(rsq))] at its place in the list, in particular one
    with [rsq == cutsq], and one with [rsq > cutsq] adds nothing. *)
Theorem bond_iff_within_cutoff L others st :
  ready L st →
  ∃ stb,
    setup_build L others st = Ok stb ∧
    (∀ out, setup L others st = Ok out → ∀ i, bonds out i = bonds stb i) ∧
    ∀ i, 0 ≤ i < nlocal (atom L) →
      bonds stb i = bond_record L i <$> filter (in_horizon L i) (candidates L i) ∧
      npartner stb !! Z.to_nat i
        = Some (Z.of_nat (length (filter (in_horizon L i) (candidates L i)))) ∧
      ∀ js1 j js2, candidates L i = js1 ++ j :: js2 →
        let rsq := squared_distance (x (atom L) i) (x (atom L) j) in
        let cut := cutsq L (type (atom L) i) (type (atom L) j) in
        let before := bond_record L i <$> filter (in_horizon L i) js1 in
        let after := bond_record L i <$> filter (in_horizon L i) js2 in
        ((rsq <= cut)%Q →
         bonds stb i = before ++ (tag (atom L) j, sqrt rsq) :: after) ∧
        ((rsq == cut)%Q →
         bonds stb i = before ++ (tag (atom L) j, sqrt rsq) :: after) ∧
        ((cut < rsq)%Q → bonds stb i = before ++ after).
Proof.
  intros Hr.
  destruct (setup_spec L others st Hr) as (stb & Hb & Ha & Hf & Hm & Hst & Hout).
  exists stb. split; [done|]. split.
  { intros out Hrun i. by apply (setup_keeps_bonds L others st stb out). }
  intros i Hi. specialize (Hst i Hi). unfold atom_state in Hst.
  injection Hst as H1 H2 H3 H4.
  unfold accepted in H1, H2. rewrite accepted_of_in_horizon in H1, H2.
  assert (Hmap : ∀ js : list Z, bond_of L i <$> js = bond_record L i <$> js)
    by (intros js; reflexivity).
  rewrite Hmap in H2.
  split; [done|]. split; [done|].
  intros js1 j js2 Hc rsq cut before after.
  assert (Hin : (rsq <= cut)%Q →
    bonds stb i = before ++ (tag (atom L) j, sqrt rsq) :: after).
  { intros Hle. rewrite H2, Hc, filter_app, filter_cons_True by exact Hle.
    by rewrite fmap_app, fmap_cons. }
  split; [done|]. split.
  - intros Heq. apply Hin. rewrite Heq. apply Qle_refl.
  - intros Hgt. rewrite H2, Hc, filter_app, filter_cons_False.
    + by rewrite fmap_app.
    + intros Hle. unfold in_horizon in Hle. fold rsq cut in Hle.
      apply (Qlt_not_le _ _ Hgt Hle).
Qed.

(** C4.  The check is made exactly when an axis of the domain is periodic.
    [setup] ends in the fatal error exactly when the domain is periodic and,
    in the store just built, an owned atom has two bond slots [jj < kk] with
    the same partner tag.  In a domain without a periodic axis the check does
    nothing, whatever the store holds, and [setup] returns. *)
Theorem duplicate_check_fatal L others st :
  ready L st →
  ∃ stb,
    setup_build L others st = Ok stb ∧
    (periodic (domain L) = true ↔
     xperiodic (domain L) ≠ 0 ∨ yperiodic (domain L) ≠ 0 ∨ zperiodic (domain L) ≠ 0) ∧
    ((∃ msg, setup L others st = Fatal msg) ↔
     periodic (domain L) = true ∧
     ∃ i, 0 ≤ i < nlocal (atom L) ∧ has_duplicate (bonds stb i)) ∧
    (∀ msg, setup L others st = Fatal msg → msg = dup_msg) ∧
    (periodic (domain L) = false →
     (∀ s, setup_check L s = Ok tt) ∧ ∃ out, setup L others st = Ok out).
Proof.
  intros Hr.
  destruct (setup_spec L others st Hr) as (stb & Hb & Ha & Hf & Hm & Hst & Hout).
  exists stb. split; [done|]. split; [|split; [|split]].
  - unfold periodic.
    destruct (xperiodic (domain L) =? 0) eqn:Ex, (yperiodic (domain L) =? 0) eqn:Ey,
      (zperiodic (domain L) =? 0) eqn:Ez; simpl; split; intros H; try done; try lia.
  - fold (duplicate_found L stb).
    destruct Hout as [[Hdup Hfatal] | (Hnd & wv & Hok & _)].
    + split; [done | by exists dup_msg].
    + split; [|done]. intros [msg Hmsg]. congruence.
  - intros msg Hmsg.
    destruct Hout as [[Hdup Hfatal] | (Hnd & wv & Hok & _)]; congruence.
  - intros Hper. split.
    + intros s. unfold setup_check. by rewrite Hper.
    + destruct Hout as [[[Hp _] _] | (_ & wv & Hok & _)]; [congruence|]. by eexists.
Qed.

Lemma wr2_in_bounds {A} (rows rows' : list (list A)) i k v M :
  Forall (fun row => length row = Z.to_nat M) rows →
  wr2 rows i k v = Ok rows' → 0 ≤ k < M.
Proof.
  intros Hrows. unfold wr2.
  destruct (rd rows i) as [row| |] eqn:Hrd; try done. rewrite bind_Ok.
  destruct (wr row k v) as [row'| |] eqn:Hwr; try done. intros _.
  apply rd_Ok_inv in Hrd as [_ Hrow]. apply wr_Ok_inv in Hwr as [Hk _].
  pose proof (Forall_lookup_1 _ _ _ _ Hrows Hrow) as Hl. simpl in Hl. lia.
Qed.

(** C8.  The population pass never writes outside a row.  Every write of
    [partner[i][..]] and [r0[i][..]] is checked against the row, which has
    [maxpartner] columns; the pass runs through; the store it leaves is
    allocated with the all-reduced [maxpartner], which is at least the local
    maximum of the bond counts, and every owned atom ends with
    [npartner[i] <= maxpartner] bonds. *)
Theorem population_in_bounds L others st :
  ready L st →
  (∀ A (rows rows' : list (list A)) i k v M,
     Forall (fun row => length row = Z.to_nat M) rows →
     wr2 rows i k v = Ok rows' → 0 ≤ k < M) ∧
  setup L others st ≠ OutOfBounds ∧
  ∃ stb,
    setup_build L others st = Ok stb ∧
    allocated (nmax (atom L)) stb ∧
    maxpartner stb = MPI_Allreduce_MAX (list_max0 (local_degrees L)) others ∧
    list_max0 (local_degrees L) ≤ maxpartner stb ∧
    ∀ i, 0 ≤ i < nlocal (atom L) →
      ∃ np, npartner stb !! Z.to_nat i = Some np ∧
            0 ≤ np ≤ maxpartner stb ∧
            Z.of_nat (length (bonds stb i)) = np.
Proof.
  intros Hr. split; [intros A; apply wr2_in_bounds|].
  destruct (setup_spec L others st Hr) as (stb & Hb & Ha & Hf & Hm & Hst & Hout).
  split.
  { destruct Hout as [[_ Hfatal] | (_ & wv & Hok & _)]; congruence. }
  exists stb. split; [done|]. split; [done|]. split; [done|].
  pose proof (MPI_Allreduce_MAX_ge (list_max0 (local_degrees L)) others) as Hge.
  split; [lia|].
  intros i Hi. specialize (Hst i Hi). unfold atom_state in Hst.
  injection Hst as H1 H2 H3 H4.
  eexists. split; [done|]. split.
  - split; [lia|]. rewrite Hm.
    assert (Z.of_nat (length (accepted L i)) ≤ list_max0 (local_degrees L)); [|lia].
    apply list_max0_ge, list_elem_of_lookup. exists (Z.to_nat i).
    by apply local_degrees_lookup.
  - by rewrite H2, length_fmap.
Qed.

(** ** The weighted volume's contract *)

Lemma wvolume_add_skip L i w b : resolvable L b = false → wvolume_add L i w b = w.
Proof. intros H. unfold wvolume_add. by rewrite H. Qed.

Lemma wvolume_of_filter L i w bl :
  wvolume_of L i w bl = wvolume_of L i w (filter (fun b => resolvable L b) bl).
Proof.
  unfold wvolume_of. revert w. induction bl as [|b bl IH]; intros w; [done|].
  destruct (resolvable L b) eqn:E.
  - rewrite filter_cons_True by by rewrite E. simpl. apply IH.
  - rewrite filter_cons_False by (rewrite E; simpl; exact (fun H => H)). simpl.
    rewrite wvolume_add_skip by done. apply IH.
Qed.

Lemma resolvable_false_iff L t r :
  resolvable L (t, r) = false ↔ t = 0 ∨ map (atom L) t < 0.
Proof.
  unfold resolvable. simpl.
  destruct (t =? 0) eqn:E1, (map (atom L) t <? 0) eqn:E2; simpl; split; intros H;
    try done; try lia.
Qed.

(** C9.  [setup]'s weighted-volume loop returns (no slot is an error),
    changes nothing but [wvolume], so that no slot is tombstoned, and gives
    every owned atom the sum over its live slots whose partner tag maps to an
    atom: slots with tag 0 and slots whose tag [atom->map] does not resolve
    leave the accumulator as it is.  An atom with only such slots keeps its
    [wvolume]. *)
Theorem unresolved_slots_skipped L st :
  allocated (nmax (atom L)) st →
  0 ≤ nlocal (atom L) ≤ nmax (atom L) →
  (∀ i np, 0 ≤ i < nlocal (atom L) →
     npartner st !! Z.to_nat i = Some np → np ≤ maxpartner st) →
  (∀ t r, resolvable L (t, r) = false ↔ t = 0 ∨ map (atom L) t < 0) ∧
  (∀ i w b, resolvable L b = false → wvolume_add L i w b = w) ∧
  ∃ st',
    setup_wvolume L st = Ok st' ∧
    first st' = first st ∧ maxpartner st' = maxpartner st ∧
    npartner st' = npartner st ∧ partner st' = partner st ∧ r0 st' = r0 st ∧
    vinter st' = vinter st ∧
    ∀ i w, 0 ≤ i < nlocal (atom L) → wvolume st !! Z.to_nat i = Some w →
      wvolume st' !! Z.to_nat i = Some (wvolume_of L i w (bonds st i)) ∧
      wvolume_of L i w (bonds st i)
        = wvolume_of L i w (filter (fun b => resolvable L b) (bonds st i)) ∧
      (Forall (fun b => resolvable L b = false) (bonds st i) →
       wvolume st' !! Z.to_nat i = Some w).
Proof.
  intros Ha Hnl Hnp.
  split; [apply resolvable_false_iff|]. split; [apply wvolume_add_skip|].
  destruct (setup_wvolume_spec L st Ha Hnl Hnp) as (wv & Hrun & Hlen & Hloc & _).
  exists (set_wvolume wv st). split; [done|]. simpl.
  split; [done|]. split; [done|]. split; [done|]. split; [done|]. split; [done|].
  split; [done|].
  intros i w Hi Hw. rewrite (Hloc i w Hi Hw).
  split; [done|]. split; [apply wvolume_of_filter|].
  intros Hall. f_equal. rewrite wvolume_of_filter.
  replace (filter (fun b => resolvable L b) (bonds st i)) with (@nil (Z * Q)); [done|].
  symmetry. induction Hall as [|b bl Hb _ IH]; [done|].
  rewrite filter_cons_False by (rewrite Hb; simpl; exact (fun H => H)). done.
Qed.

Lemma vfrac_scale_in_band half_lc delta r :
  (Qabs (r ⊖ delta) <= half_lc)%Q →
  vfrac_scale half_lc delta r
  = ((-1)%Q ⊘ (2 ⊗ half_lc)) ⊗ r ⊕ (1 ⊕ (delta ⊖ half_lc) ⊘ (2 ⊗ half_lc)).
Proof.
  intros H. unfold vfrac_scale. apply Qle_bool_iff in H. by rewrite H.
Qed.

Lemma vfrac_scale_out_of_band half_lc delta r :
  ¬ (Qabs (r ⊖ delta) <= half_lc)%Q → vfrac_scale half_lc delta r = 1%Q.
Proof.
  intros H. unfold vfrac_scale.
  destruct (Qle_bool (Qabs (r ⊖ delta)) half_lc) eqn:E; [|done].
  apply Qle_bool_iff in E. done.
Qed.

(** The weighted volume of an atom, bond by bond: what a live bond that
    resolves adds between the bonds before it and the bonds after it. *)
Lemma bond_wvolume L st i bl1 t r bl2 j w0 :
  allocated (nmax (atom L)) st →
  0 ≤ i < nlocal (atom L) → nlocal (atom L) ≤ nmax (atom L) →
  (∀ k np, 0 ≤ k < nlocal (atom L) →
     npartner st !! Z.to_nat k = Some np → np ≤ maxpartner st) →
  anypair L = PairPeriPMB →
  bonds st i = bl1 ++ (t, r) :: bl2 → t ≠ 0 → map (atom L) t = j → 0 ≤ j →
  wvolume st !! Z.to_nat i = Some w0 →
  ∃ st',
    setup_wvolume L st = Ok st' ∧
    wvolume st' !! Z.to_nat i
    = Some (wvolume_of L i
              (wvolume_of L i w0 bl1
               ⊕ 1 ⊗ squared_distance (x0 (atom L) i) (x0 (atom L) j)
                   ⊗ vfrac (atom L) j
                   ⊗ vfrac_scale ((1 # 2)%Q ⊗ xlattice (domain L))
                       (sqrt (cutsq L (type (atom L) i) (type (atom L) j))) r)
              bl2).
Proof.
  intros Ha Hi Hnl Hnp Hpair Hb Ht Hj Hj0 Hw.
  destruct (setup_wvolume_spec L st Ha ltac:(lia) Hnp) as (wv & Hrun & Hlen & Hloc & _).
  exists (set_wvolume wv st). split; [done|].
  cbn [wvolume set_wvolume]. rewrite (Hloc i w0 Hi Hw), Hb. f_equal.
  unfold wvolume_of. rewrite foldl_app. cbn [foldl].
  apply (f_equal (fun w => foldl (wvolume_add L i) w bl2)).
  unfold wvolume_add at 1. unfold resolvable, influence. simpl fst. simpl snd. rewrite Hj.
  destruct (t =? 0) eqn:E1; [lia|]. destruct (j <? 0) eqn:E2; [lia|].
  simpl. by rewrite Hpair.
Qed.

(** *** Exact arithmetic *)

Section Exact.

Hypothesis rnd_exact : ∀ q, (rnd q == q)%Q.

#[local] Instance rnd_exact_proper : Proper (Qeq ==> Qeq) rnd.
Proof using rnd_exact. intros a b H. by rewrite !rnd_exact. Qed.

Lemma dadd_exact a b : (a ⊕ b == a + b)%Q.
Proof using rnd_exact. apply rnd_exact. Qed.

Lemma dsub_exact a b : (a ⊖ b == a - b)%Q.
Proof using rnd_exact. apply rnd_exact. Qed.

Lemma dmul_exact a b : (a ⊗ b == a * b)%Q.
Proof using rnd_exact. apply rnd_exact. Qed.

Lemma ddiv_exact a b : (a ⊘ b == a / b)%Q.
Proof using rnd_exact. apply rnd_exact. Qed.

Lemma blend_exact h delta r :
  (0 < h)%Q →
  (((-1)%Q ⊘ (2 ⊗ h)) ⊗ r ⊕ (1 ⊕ (delta ⊖ h) ⊘ (2 ⊗ h))
   == - r / (2 * h) + 1 + (delta - h) / (2 * h))%Q.
Proof using rnd_exact.
  intros Hh.
  unfold dadd, dsub, dmul, ddiv. rewrite !rnd_exact.
  field. intros E. rewrite E in Hh. by apply Qlt_irrefl in Hh.
Qed.

Lemma squared_distance_exact p q :
  (squared_distance p q
   == (p 0%Z - q 0%Z) * (p 0%Z - q 0%Z) + (p 1%Z - q 1%Z) * (p 1%Z - q 1%Z)
      + (p 2%Z - q 2%Z) * (p 2%Z - q 2%Z))%Q.
Proof using rnd_exact.
  unfold squared_distance, dadd, dsub, dmul. rewrite !rnd_exact. reflexivity.
Qed.

End Exact.


(** * Further properties of the class *)

(** ** [copy_arrays] *)

(** X1.  [copy_arrays] gives slot [j] the bonded state of slot [i], broken bonds
    included, and leaves every other slot and the allocation as they were. *)
Theorem copy_arrays_copies nmax st i j np :
  allocated nmax st → 0 ≤ i < nmax → 0 ≤ j < nmax →
  npartner st !! Z.to_nat i = Some np → np ≤ maxpartner st →
  ∃ st',
    copy_arrays st i j = Ok st' ∧
    atom_state st' j = atom_state st i ∧
    (∀ k, 0 ≤ k → k ≠ j → atom_state st' k = atom_state st k) ∧
    allocated nmax st' ∧
    first st' = first st ∧ maxpartner st' = maxpartner st.
Proof.
  intros Ha Hi Hj Hnp Hle.
  destruct (allocated_lookup _ _ _ Ha Hi)
    as (np' & psi & rsi & vi & wi & Hnp' & Hpsi & Hlpsi & Hrsi & Hlrsi & Hvi & Hwi).
  rewrite Hnp in Hnp'. injection Hnp' as <-.
  destruct (allocated_lookup _ _ _ Ha Hj)
    as (npj & psj & rsj & vj & wj & Hnpj & Hpsj & Hlpsj & Hrsj & Hlrsj & Hvj & Hwj).
  pose proof Ha as (Hn & Hp & Hpr & Hr & Hrr & Hv & Hw).
  unfold copy_arrays.
  rewrite (rd_Ok _ _ np) by (lia || done). rewrite bind_Ok.
  rewrite wr_Ok by lia. rewrite bind_Ok. cbv zeta.
  rewrite (rd_Ok _ j np); [|lia|simpl; apply list_lookup_insert_eq; lia].
  rewrite bind_Ok.
  set (st1 := set_npartner (<[Z.to_nat j := np]> (npartner st)) st).
  match goal with |- context [for_ _ ?b _] => set (body := b) end.
  destruct (for__seqZ_rule'
    (fun m s =>
       ∃ ps' rs',
         s = set_r0 (<[Z.to_nat j := rs']> (r0 st))
               (set_partner (<[Z.to_nat j := ps']> (partner st)) st1) ∧
         length ps' = length psj ∧ length rs' = length rsj ∧
         (∀ k : nat, (Z.of_nat k < m) → ps' !! k = psi !! k ∧ rs' !! k = rsi !! k) ∧
         (∀ k : nat, (m ≤ Z.of_nat k) → ps' !! k = psj !! k ∧ rs' !! k = rsj !! k))
    body 0 np st1) as (s & Hloop & ps' & rs' & -> & Hlp & Hlr & Hlow & Hhigh).
  - exists psj, rsj. split.
    { unfold st1, set_r0, set_partner, set_npartner. simpl.
      rewrite (list_insert_id (partner st)) by done.
      by rewrite (list_insert_id (r0 st)) by done. }
    split; [done|]. split; [done|]. split; [intros; lia | done].
  - intros m s Hm (ps' & rs' & -> & Hlp & Hlr & Hlow & Hhigh).
    destruct (lookup_lt_is_Some_2 psi (Z.to_nat m)) as [p Hpm]; [lia|].
    destruct (lookup_lt_is_Some_2 rsi (Z.to_nat m)) as [r Hrm]; [lia|].
    assert (Hrdp : ∃ row, (<[Z.to_nat j := ps']> (partner st)) !! Z.to_nat i = Some row ∧
                          row !! Z.to_nat m = Some p).
    { destruct (decide (i = j)) as [->|Hne].
      - exists ps'. split; [apply list_lookup_insert_eq; lia|].
        destruct (Hhigh (Z.to_nat m)) as [H1 _]; [lia|].
        rewrite H1. rewrite Hpsi in Hpsj. injection Hpsj as <-. done.
      - exists psi. rewrite list_lookup_insert_ne by lia. done. }
    assert (Hrdr : ∃ row, (<[Z.to_nat j := rs']> (r0 st)) !! Z.to_nat i = Some row ∧
                          row !! Z.to_nat m = Some r).
    { destruct (decide (i = j)) as [->|Hne].
      - exists rs'. split; [apply list_lookup_insert_eq; lia|].
        destruct (Hhigh (Z.to_nat m)) as [_ H2]; [lia|].
        rewrite H2. rewrite Hrsi in Hrsj. injection Hrsj as <-. done.
      - exists rsi. rewrite list_lookup_insert_ne by lia. done. }
    destruct Hrdp as (rowp & Hrowp & Hrowpm). destruct Hrdr as (rowr & Hrowr & Hrowrm).
    unfold body. simpl.
    rewrite (rd2_Ok _ i m rowp p) by (done || lia). rewrite bind_Ok.
    rewrite (wr2_Ok _ j m ps'); [| lia | apply list_lookup_insert_eq; lia | lia].
    rewrite bind_Ok. simpl.
    rewrite (rd2_Ok _ i m rowr r) by (done || lia). rewrite bind_Ok.
    rewrite (wr2_Ok _ j m rs'); [| lia | apply list_lookup_insert_eq; lia | lia].
    rewrite bind_Ok.
    eexists. split; [done|].
    exists (<[Z.to_nat m := p]> ps'), (<[Z.to_nat m := r]> rs').
    split; [unfold set_r0, set_partner; simpl; by rewrite !list_insert_insert_eq|].
    split; [by rewrite length_insert|]. split; [by rewrite length_insert|]. split.
    + intros k Hk. destruct (decide (k = Z.to_nat m)) as [->|Hne].
      * rewrite !list_lookup_insert_eq by lia. by rewrite Hpm, Hrm.
      * rewrite !list_lookup_insert_ne by done. apply Hlow. lia.
    + intros k Hk. rewrite !list_lookup_insert_ne by lia. apply Hhigh. lia.
  - rewrite_loop Hloop. rewrite bind_Ok. unfold st1. simpl.
    rewrite (rd_Ok (vinter st) i vi) by (lia || done). rewrite bind_Ok.
    rewrite (wr_Ok (vinter st)) by lia. rewrite bind_Ok.
    rewrite (rd_Ok (wvolume st) i wi) by (lia || done). rewrite bind_Ok.
    rewrite (wr_Ok (wvolume st)) by lia. rewrite bind_Ok.
    eexists. split; [done|].
    split; [|split; [|split; [|done]]].
    + unfold atom_state, bonds. simpl.
      rewrite !list_lookup_insert_eq by lia. rewrite Hnp, Hpsi, Hrsi, Hvi, Hwi.
      do 3 f_equal. f_equal.
      * apply list_eq. intros k. destruct (decide (k < Z.to_nat np)%nat).
        -- rewrite !lookup_take_lt by done. apply Hlow. lia.
        -- by rewrite !lookup_take_ge by lia.
      * apply list_eq. intros k. destruct (decide (k < Z.to_nat np)%nat).
        -- rewrite !lookup_take_lt by done. apply Hlow. lia.
        -- by rewrite !lookup_take_ge by lia.
    + intros k Hk Hne. unfold atom_state, bonds. simpl.
      rewrite !list_lookup_insert_ne by lia. done.
    + unfold allocated. simpl. rewrite !length_insert.
      repeat split; try done.
      * apply Forall_insert; [done|]. by rewrite Hlp.
      * apply Forall_insert; [done|]. by rewrite Hlr.
Qed.

(** ** The constructor *)

Lemma FixPeriNeigh_new_spec a :
  0 ≤ nlocal a ≤ nmax a →
  ∃ st,
    FixPeriNeigh_new a = Ok st ∧
    first st = 1 ∧ maxpartner st = 1 ∧
    allocated (nmax a) st ∧
    ∀ i, 0 ≤ i < nlocal a → npartner st !! Z.to_nat i = Some 0.
Proof.
  intros Hnl. unfold FixPeriNeigh_new.
  match goal with |- context [for_ _ ?b ?s] => set (body := b); set (s0 := s) end.
  destruct (grow_arrays_allocated (mkFix 1 1 [] [] [] [] []) (nmax a)) as (Ha & Hf & Hm).
  fold s0 in Ha, Hf, Hm. simpl in Hf, Hm.
  destruct (for__seqZ_rule
    (fun i s =>
       allocated (nmax a) s ∧ first s = 1 ∧ maxpartner s = 1 ∧
       ∀ k, 0 ≤ k < i → npartner s !! Z.to_nat k = Some 0)
    body 0 (nlocal a) s0) as (s & Hloop & Has & Hfs & Hms & Hz).
  - lia.
  - split; [done|]. split; [done|]. split; [done|]. intros; lia.
  - intros i s Hi (Has & Hfs & Hms & Hz).
    pose proof Has as (Hn & Hrest).
    unfold body. rewrite wr_Ok by lia. rewrite bind_Ok.
    eexists. split; [done|].
    split; [|split; [done|split; [done|]]].
    + destruct Hrest as (Hp & Hpr & Hr & Hrr & Hv & Hw).
      unfold allocated. simpl. rewrite length_insert. done.
    + intros k Hk. simpl. destruct (decide (k = i)) as [->|Hne].
      * apply list_lookup_insert_eq. lia.
      * rewrite list_lookup_insert_ne by lia. apply Hz. lia.
  - exists s. split; [done|]. split; [done|]. split; [done|]. split; [done|].
    intros i Hi. apply Hz. lia.
Qed.

(** X2.  The store the constructor makes has [first = 1], the placeholder
    [maxpartner = 1], arrays for [atom->nmax] atoms and [npartner = 0] for
    the owned atoms; [setup] can build from it with any neighbor list over
    the owned atoms and never leaves its arrays. *)
Theorem constructor_then_setup a :
  0 ≤ nlocal a ≤ nmax a →
  ∃ st,
    FixPeriNeigh_new a = Ok st ∧
    first st = 1 ∧ maxpartner st = 1 ∧
    allocated (nmax a) st ∧
    (∀ i, 0 ≤ i < nlocal a → atom_state st i
        = (Some 0, [], vinter st !! Z.to_nat i, wvolume st !! Z.to_nat i)) ∧
    ∀ L others,
      atom L = a →
      Forall (fun i => 0 ≤ i < nlocal a) (ilist (neigh_list L)) →
      Forall (swap_ok (nlocal a) (nmax a)) (swaps L) →
      ready L st ∧
      ((∃ out, setup L others st = Ok out ∧ first out = 0) ∨
       setup L others st = Fatal dup_msg).
Proof.
  intros Hnl.
  destruct (FixPeriNeigh_new_spec a Hnl) as (st & Hnew & Hf & Hm & Ha & Hz).
  exists st. split; [done|]. split; [done|]. split; [done|]. split; [done|].
  split.
  { intros i Hi. unfold atom_state. rewrite (bonds_zero st i (Hz i Hi)).
    by rewrite (Hz i Hi). }
  intros L others <- Hil Hsw.
  assert (Hr : ready L st).
  { split; [done|]. split; [done|]. split; [lia|]. done. }
  split; [done|].
  destruct (setup_spec L others st Hr) as (stb & _ & _ & Hfb & _ & _ & Hout).
  destruct Hout as [[_ Hfatal] | (_ & wv & Hok & _)].
  - by right.
  - left. eexists. split; [done|]. done.
Qed.

(** ** Buffers *)

Lemma for__fail {S} l1 n l2 (body : Z → S → result S) s s1 r :
  for_ l1 body s = Ok s1 → body n s1 = r → (∀ x, r ≠ Ok x) →
  for_ (l1 ++ n :: l2) body s = r.
Proof.
  intros H1 Hn Hr. rewrite for__app, H1, bind_Ok, for__cons, Hn.
  destruct r; [by destruct (Hr a) | done | done].
Qed.

Lemma pack_exchange_frame st i buf m buf' :
  pack_exchange st i buf = Ok (m, buf') →
  3 ≤ m ∧ ∀ k, ¬ (0 ≤ k < m) → buf' k = buf k.
Proof.
  unfold pack_exchange. intros H.
  destruct (rd (npartner st) i) as [np| |]; try done. rewrite bind_Ok in H.
  match type of H with context [for_ ?l ?b ?s] =>
    destruct (for_ l b s) as [[m1 b1]| |] eqn:Hloop end; try done.
  rewrite bind_Ok in H.
  apply (for__preserve
    (fun '((m, b) : Z * buffer) => 1 ≤ m ∧ ∀ k, ¬ (1 ≤ k < m) → b k = buf k))
    in Hloop.
  - destruct Hloop as [Hm1 Hb1].
    destruct (rd (vinter st) i) as [vi| |]; try done. rewrite bind_Ok in H.
    destruct (rd (wvolume st) i) as [wv| |]; try done. rewrite bind_Ok in H.
    injection H as <- <-. split; [lia|].
    intros k Hk. rewrite !buf_set_ne by lia. apply Hb1. lia.
  - intros n [m2 b2] [m3 b3] _ [Hm2 Hb2] Hbody.
    destruct (rd2 (partner st) i n) as [p| |]; try done. rewrite bind_Ok in Hbody.
    destruct (p =? 0).
    + injection Hbody as <- <-. done.
    + destruct (rd2 (r0 st) i n) as [r| |]; try done. rewrite bind_Ok in Hbody.
      injection Hbody as <- <-. split; [lia|].
      intros k Hk. rewrite !buf_set_ne by lia. apply Hb2. lia.
  - split; [lia | done].
Qed.

Lemma Forall_filter_length {A} (P : A → Prop) `{∀ x, Decision (P x)} (l : list A) :
  length (filter P l) = length l ↔ Forall P l.
Proof.
  induction l as [|a l IH]; [by split; [constructor|]|].
  destruct (decide (P a)) as [Ha|Ha].
  - rewrite filter_cons_True by done. simpl. split.
    + intros Hl. constructor; [done|]. apply IH. lia.
    + intros Hall. apply Forall_cons in Hall as [_ Hall]. f_equal. by apply IH.
  - rewrite filter_cons_False by done. simpl. split.
    + intros Hl. pose proof (length_filter P l). lia.
    + intros Hall. by apply Forall_cons in Hall as [? _].
Qed.

(** X3.  [pack_exchange] writes the words [0 .. m-1] of the buffer and no other;
    [m] is at least 3 and at most [2*npartner[i] + 3 <= 2*maxpartner + 3],
    and reaches [2*npartner[i] + 3] exactly when no bond of the atom is
    broken. *)
Theorem pack_exchange_extent nmax st i buf np :
  allocated nmax st → 0 ≤ i < nmax →
  npartner st !! Z.to_nat i = Some np → 0 ≤ np ≤ maxpartner st →
  ∃ m buf',
    pack_exchange st i buf = Ok (m, buf') ∧
    (∀ k, ¬ (0 ≤ k < m) → buf' k = buf k) ∧
    3 ≤ m ≤ 2 * np + 3 ∧ 2 * np + 3 ≤ 2 * maxpartner st + 3 ∧
    (m = 2 * np + 3 ↔ Forall (fun b => b.1 ≠ 0) (bonds st i)).
Proof.
  intros Ha Hi Hnp Hle.
  destruct (allocated_lookup _ _ _ Ha Hi)
    as (np' & ps & rs & vi & wv & Hnp' & Hps & Hlps & Hrs & Hlrs & Hvi & Hwv).
  rewrite Hnp in Hnp'. injection Hnp' as <-.
  destruct (pack_exchange_spec st i buf np ps rs vi wv) as (buf' & Hpack & _);
    try done; try lia.
  destruct (pack_exchange_frame _ _ _ _ _ Hpack) as [Hm Hframe].
  assert (Hlen : length (bonds st i) = Z.to_nat np).
  { rewrite (bonds_unfold st i np ps rs) by done. rewrite length_take, length_zip. lia. }
  pose proof (length_filter_le live (bonds st i)) as Hfl.
  eexists _, buf'. split; [exact Hpack|]. split; [done|].
  split; [lia|]. split; [lia|].
  assert (Hlive : ∀ b : Z * Q, live b ↔ b.1 ≠ 0).
  { intros [t r]. unfold live. simpl. destruct (t =? 0) eqn:E; simpl; split; try done; lia. }
  split.
  - intros Heq.
    assert (Hl : length (filter (fun b => live b) (bonds st i)) = length (bonds st i))
      by lia.
    apply (proj1 (Forall_filter_length (fun b => live b) (bonds st i))) in Hl.
    eapply Forall_impl; [exact Hl|]. intros b Hb. by apply Hlive.
  - intros Hall.
    assert (Hall' : Forall (fun b => live b) (bonds st i)).
    { eapply Forall_impl; [exact Hall|]. intros b Hb. by apply Hlive. }
    apply (proj2 (Forall_filter_length (fun b => live b) (bonds st i))) in Hall'. lia.
Qed.

Lemma pack_restart_frame st i buf m buf' :
  pack_restart st i buf = Ok (m, buf') →
  ∀ k, ¬ (0 ≤ k < m) → buf' k = buf k.
Proof.
  unfold pack_restart. intros H.
  destruct (rd (npartner st) i) as [np| |]; try done. rewrite bind_Ok in H.
  cbv zeta in H.
  match type of H with context [for_ ?l ?b ?s] =>
    destruct (for_ l b s) as [[m1 b1]| |] eqn:Hloop end; try done.
  rewrite bind_Ok in H.
  apply (for__preserve
    (fun '((m, b) : Z * buffer) => 2 ≤ m ∧ ∀ k, ¬ (0 ≤ k < m) → b k = buf k))
    in Hloop.
  - destruct Hloop as [Hm1 Hb1].
    destruct (rd (vinter st) i) as [vi| |]; try done. rewrite bind_Ok in H.
    destruct (rd (wvolume st) i) as [wv| |]; try done. rewrite bind_Ok in H.
    injection H as <- <-.
    intros k Hk. rewrite !buf_set_ne by lia. apply Hb1. lia.
  - intros n [m2 b2] [m3 b3] _ [Hm2 Hb2] Hbody.
    destruct (rd2 (partner st) i n) as [p| |]; try done. rewrite bind_Ok in Hbody.
    destruct (rd2 (r0 st) i n) as [r| |]; try done. rewrite bind_Ok in Hbody.
    injection Hbody as <- <-. split; [lia|].
    intros k Hk. rewrite !buf_set_ne by lia. apply Hb2. lia.
  - split; [lia|]. intros k Hk. rewrite !buf_set_ne by lia. done.
Qed.

(** X4.  [size_restart] is the number of words [pack_restart] writes for the atom
    and the value of the record's first word; it never exceeds
    [maxsize_restart], and [pack_restart] writes no word outside the
    record. *)
Theorem restart_record_size nmax st i buf np :
  allocated nmax st → 0 ≤ i < nmax →
  npartner st !! Z.to_nat i = Some np → 0 ≤ np ≤ maxpartner st →
  ∃ n buf',
    size_restart st i = Ok n ∧
    pack_restart st i buf = Ok (n, buf') ∧
    double_to_int (buf' 0) = n ∧
    n = 2 * np + 4 ∧ n ≤ maxsize_restart st ∧
    ∀ k, ¬ (0 ≤ k < n) → buf' k = buf k.
Proof.
  intros Ha Hi Hnp Hle.
  destruct (allocated_lookup _ _ _ Ha Hi)
    as (np' & ps & rs & vi & wv & Hnp' & Hps & Hlps & Hrs & Hlrs & Hvi & Hwv).
  rewrite Hnp in Hnp'. injection Hnp' as <-.
  destruct (pack_restart_spec st i buf np ps rs vi wv)
    as (Hlen & buf' & Hpack & Hrec); try done; try lia.
  exists (2 * np + 4), buf'.
  split; [unfold size_restart; by rewrite (rd_Ok _ _ np) by (lia || done)|].
  split; [done|]. split.
  { destruct Hrec as (H0 & _). rewrite H0, Hlen, double_to_int_to_double. lia. }
  split; [done|]. split; [unfold maxsize_restart; lia|].
  by apply (pack_restart_frame st i buf).
Qed.

(** ** [unpack_exchange] *)

Lemma wr2_Ok_inv {A} (a a' : list (list A)) i k v :
  wr2 a i k v = Ok a' →
  0 ≤ i ∧ ∃ row, a !! Z.to_nat i = Some row ∧ 0 ≤ k < Z.of_nat (length row) ∧
    a' = <[Z.to_nat i := <[Z.to_nat k := v]> row]> a.
Proof.
  unfold wr2. intros H.
  destruct (rd a i) as [row| |] eqn:Hrd; try done. rewrite bind_Ok in H.
  destruct (wr row k v) as [row'| |] eqn:Hwr; try done. rewrite bind_Ok in H.
  apply rd_Ok_inv in Hrd as [Hi Hrow]. apply wr_Ok_inv in Hwr as [Hk ->].
  apply wr_Ok_inv in H as [_ ->]. split; [done|]. by exists row.
Qed.

Lemma same_but_refl j st : same_but j st st.
Proof. unfold same_but. repeat split. Qed.

Lemma fmap_length_insert2 {A} (a : list (list A)) i k v row :
  a !! i = Some row →
  length <$> <[i := <[k := v]> row]> a = length <$> a.
Proof.
  intros Hrow. rewrite list_fmap_insert, length_insert.
  apply list_insert_id. by rewrite list_lookup_fmap, Hrow.
Qed.

Lemma same_but_allocated j st s nmax :
  same_but j st s → allocated nmax st → allocated nmax s.
Proof.
  intros (Hf & Hm & Hn & Hp & Hr & Hv & Hw & _) (An & Ap & Apr & Ar & Arr & Av & Aw).
  assert (Hrows : ∀ (A : Type) (l l' : list (list A)) M,
    length <$> l' = length <$> l →
    Forall (fun row => length row = M) l → Forall (fun row => length row = M) l').
  { intros A l l' M Heq Hall.
    apply (Forall_fmap length (fun n => n = M)). rewrite Heq.
    by apply (Forall_fmap length (fun n => n = M)). }
  unfold allocated. rewrite Hm.
  split; [congruence|]. split.
  { rewrite <- Ap, <- (length_fmap length (partner s)), Hp. by rewrite length_fmap. }
  split; [by apply (Hrows _ (partner st))|]. split.
  { rewrite <- Ar, <- (length_fmap length (r0 s)), Hr. by rewrite length_fmap. }
  split; [by apply (Hrows _ (r0 st))|]. split; congruence.
Qed.

Lemma same_but_row {A} (l l' : list (list A)) (k : nat) row :
  length <$> l' = length <$> l → l !! k = Some row →
  ∃ row', l' !! k = Some row' ∧ length row' = length row.
Proof.
  intros Heq Hrow.
  assert (H : (length <$> l') !! k = Some (length row)).
  { rewrite Heq, list_lookup_fmap, Hrow. done. }
  rewrite list_lookup_fmap in H.
  destruct (l' !! k) as [row'|]; [|done]. injection H as H. by exists row'.
Qed.

Lemma unpack_body_same_but j (buf : buffer) st n m s m' s' :
  same_but j st s →
  (a ← wr2 (partner s) j n (double_to_int (buf m));
   let s := set_partner a s in
   b ← wr2 (r0 s) j n (buf (m + 1));
   let s := set_r0 b s in
   Ok (m + 2, s)) = Ok (m', s') →
  m' = m + 2 ∧ same_but j st s'.
Proof.
  intros (Hf & Hm & Hn & Hp & Hr & Hv & Hw & Hk) H.
  destruct (wr2 (partner s) j n _) as [a| |] eqn:Ea; try done. rewrite bind_Ok in H.
  cbv zeta in H.
  destruct (wr2 (r0 (set_partner a s)) j n _) as [b| |] eqn:Eb; try done.
  rewrite bind_Ok in H. injection H as <- <-.
  apply wr2_Ok_inv in Ea as (Hj & rowa & Hrowa & _ & ->).
  apply wr2_Ok_inv in Eb as (_ & rowb & Hrowb & _ & ->). simpl in Hrowb.
  split; [done|]. unfold same_but. simpl.
  rewrite (fmap_length_insert2 _ _ _ _ _ Hrowa), (fmap_length_insert2 _ _ _ _ _ Hrowb).
  split; [done|]. split; [done|]. split; [done|]. split; [done|]. split; [done|].
  split; [done|]. split; [done|].
  intros k Hne. rewrite !list_lookup_insert_ne by done. by apply Hk.
Qed.

Lemma unpack_exchange_touches_slot st j buf m st' :
  unpack_exchange st j buf = Ok (m, st') →
  let count := double_to_int (buf 0) in
  m = 2 * Z.max 0 count + 3 ∧
  npartner st' !! Z.to_nat j = Some count ∧
  0 ≤ j ∧ same_but j st st'.
Proof.
  unfold unpack_exchange. cbv zeta. intros H.
  destruct (wr (npartner st) j _) as [a| |] eqn:Ea; try done. rewrite bind_Ok in H.
  apply wr_Ok_inv in Ea as [Hj ->].
  rewrite (rd_Ok _ j (double_to_int (buf 0))) in H;
    [| lia | simpl; apply list_lookup_insert_eq; lia].
  rewrite bind_Ok in H.
  set (count := double_to_int (buf 0)) in *.
  set (st1 := set_npartner (<[Z.to_nat j := count]> (npartner st)) st) in *.
  assert (H1 : same_but j st st1).
  { unfold same_but, st1. simpl. rewrite length_insert.
    repeat split; try done. by rewrite list_lookup_insert_ne. }
  match type of H with context [for_ ?l ?b ?s] =>
    destruct (for_ l b s) as [[m1 s1]| |] eqn:Hloop end; try done.
  rewrite bind_Ok in H.
  assert (Hinv : m1 = 0 + 1 + 2 * Z.of_nat (length (seqZ 0 count)) ∧ same_but j st s1 ∧
                 npartner s1 = npartner st1).
  { revert Hloop. generalize (seqZ 0 count) as l. generalize (0 + 1) as m0.
    revert H1. generalize st1 as s0. intros s0 H0 m0 l. revert s0 m0 H0.
    induction l as [|n l IH]; intros s0 m0 H0 Hrun.
    - simpl in Hrun. injection Hrun as <- <-. simpl. split; [lia | done].
    - rewrite for__cons in Hrun.
      match type of Hrun with (?e ≫= _) = _ => destruct e as [[m2 s2]| |] eqn:Eb end;
        try done.
      rewrite bind_Ok in Hrun.
      pose proof Eb as Eb'.
      apply (unpack_body_same_but j buf st) in Eb as [-> Hs2]; [|done].
      destruct (IH s2 (m0 + 2) Hs2 Hrun) as (-> & Hs1 & Hn1).
      split; [simpl length; lia|]. split; [done|]. rewrite Hn1.
      destruct (wr2 (partner s0) j n _) as [a| |]; try done. rewrite bind_Ok in Eb'.
      cbv zeta in Eb'.
      destruct (wr2 (r0 (set_partner a s0)) j n _) as [b| |]; try done.
      rewrite bind_Ok in Eb'. by injection Eb' as <-. }
  destruct Hinv as (Hm1 & Hs1 & Hn1).
  destruct (wr (vinter s1) j _) as [v| |] eqn:Ev; try done. rewrite bind_Ok in H.
  cbv zeta in H.
  destruct (wr (wvolume (set_vinter v s1)) j _) as [w| |] eqn:Ew; try done.
  rewrite bind_Ok in H. injection H as <- <-.
  apply wr_Ok_inv in Ev as [_ ->]. apply wr_Ok_inv in Ew as [_ ->]. simpl.
  destruct Hs1 as (Hf & Hm & Hn & Hp & Hr & Hv & Hw & Hk).
  split; [rewrite Hm1, length_seqZ; lia|].
  split; [rewrite Hn1; unfold st1; simpl; apply list_lookup_insert_eq; lia|].
  split; [lia|].
  unfold same_but. simpl. rewrite !length_insert.
  repeat split; try done; rewrite ?list_lookup_insert_ne by done; by apply Hk.
Qed.

(** *** The block layout *)

Lemma length_concat_rows {A} (rows : list (list A)) (c : nat) :
  Forall (fun row => length row = c) rows → length (concat rows) = (length rows * c)%nat.
Proof.
  induction 1 as [|row rows Hrow _ IH]; [done|].
  simpl. rewrite length_app, Hrow, IH. lia.
Qed.


Lemma recut_concat {A} (a : list (list A)) : recut (length <$> a) (concat a) = a.
Proof.
  induction a as [|r a IH]; [done|].
  rewrite fmap_cons, concat_cons. cbn [recut].
  rewrite take_app_length, drop_app_length. by rewrite IH.
Qed.

Lemma recut_insert_row {A} (a : list (list A)) (i k : nat) row v :
  a !! i = Some row → (k < length row)%nat →
  recut (length <$> a) (<[(length (concat (take i a)) + k)%nat := v]> (concat a))
  = <[i := <[k := v]> row]> a.
Proof.
  revert i. induction a as [|r a IH]; intros i Hrow Hk; [done|].
  rewrite fmap_cons, concat_cons. cbn [recut].
  destruct i as [|i].
  - injection Hrow as ->. cbn [take concat length Nat.add].
    rewrite insert_app_l by done.
    rewrite <- (length_insert row k v).
    rewrite take_app_length, drop_app_length. by rewrite recut_concat.
  - cbn [lookup list_lookup] in Hrow. rewrite firstn_cons, concat_cons, length_app.
    rewrite <- Nat.add_assoc.
    rewrite insert_app_r. rewrite take_app_length, drop_app_length.
    by rewrite (IH i Hrow Hk).
Qed.

Lemma recut_replicate {A} (n w : nat) (data : list A) :
  length data = (n * w)%nat →
  length (recut (replicate n w) data) = n ∧
  Forall (fun row => length row = w) (recut (replicate n w) data) ∧
  concat (recut (replicate n w) data) = data.
Proof.
  revert data. induction n as [|n IH]; intros data Hlen; cbn [replicate recut].
  - split; [done|]. split; [constructor|]. symmetry. apply nil_length_inv. lia.
  - destruct (IH (drop w data)) as (H0 & H1 & H2).
    { rewrite length_drop. lia. }
    split; [simpl; lia|]. split.
    + constructor; [|done]. rewrite length_take. lia.
    + rewrite concat_cons, H2. apply take_drop.
Qed.

Lemma shape_rect {A} (a : list (list A)) (w : nat) :
  Forall (fun row => length row = w) a → length <$> a = replicate (length a) w.
Proof.
  induction 1 as [|r a Hr _ IH]; [done|].
  rewrite fmap_cons, Hr, IH. done.
Qed.

Lemma length_concat_take {A} (a : list (list A)) (w i : nat) :
  Forall (fun row => length row = w) a → (i ≤ length a)%nat →
  length (concat (take i a)) = (i * w)%nat.
Proof.
  intros Hall Hi. rewrite (length_concat_rows _ w) by by apply Forall_take.
  rewrite length_take, Nat.min_l by done. done.
Qed.

Lemma lookup_concat_rect {A} (a : list (list A)) (w i k : nat) row :
  Forall (fun row => length row = w) a → a !! i = Some row → (k < w)%nat →
  concat a !! (i * w + k)%nat = row !! k.
Proof.
  intros Hall Hrow Hk. pose proof (lookup_lt_Some _ _ _ Hrow) as Hi.
  assert (Hw : length row = w) by by apply (Forall_lookup_1 _ _ _ _ Hall Hrow).
  rewrite <- (take_drop_middle a i row Hrow) at 1.
  rewrite concat_app, concat_cons.
  rewrite lookup_app_r; rewrite (length_concat_take a w i) by (done || lia); [|lia].
  replace (i * w + k - i * w)%nat with k by lia.
  by rewrite lookup_app_l by lia.
Qed.

(** A write that [wr2] accepts is the write the machine makes. *)
Lemma wr2_block_refines {A} (a a' : list (list A)) i k v :
  wr2 a i k v = Ok a' → wr2_block a i k v = Ok a'.
Proof.
  intros H. apply wr2_Ok_inv in H as (Hi & row & Hrow & Hk & ->).
  pose proof (lookup_lt_Some _ _ _ Hrow) as Hlt.
  assert (Hlen : (length (concat (take (Z.to_nat i) a)) + length row
                  ≤ length (concat a))%nat).
  { rewrite <- (take_drop_middle a (Z.to_nat i) row Hrow) at 2.
    rewrite concat_app, concat_cons, !length_app. lia. }
  unfold wr2_block, block_offset.
  destruct ((0 <=? i) && (i <? Z.of_nat (length a))) eqn:E1; [|lia].
  cbv zeta.
  match goal with |- context [if ?c then _ else _] => destruct c eqn:E2 end; [|lia].
  f_equal.
  replace (Z.to_nat (Z.of_nat (length (concat (take (Z.to_nat i) a))) + k))
    with (length (concat (take (Z.to_nat i) a)) + Z.to_nat k)%nat by lia.
  apply recut_insert_row; [done | lia].
Qed.

(** The write of the machine into a rectangular array of [n] rows of [w]
    columns: it lands in the block [k] cells after the start of row [i]. *)
Lemma wr2_block_rect {A} (a : list (list A)) (n w : nat) i k v :
  length a = n → Forall (fun row => length row = w) a →
  0 ≤ i < Z.of_nat n → 0 ≤ i * Z.of_nat w + k < Z.of_nat n * Z.of_nat w →
  ∃ a', wr2_block a i k v = Ok a' ∧
    length a' = n ∧ Forall (fun row => length row = w) a' ∧
    concat a' = <[Z.to_nat (i * Z.of_nat w + k) := v]> (concat a).
Proof.
  intros Hn Hall Hi Hoff.
  assert (Hc : length (concat a) = (n * w)%nat)
    by (rewrite (length_concat_rows _ w) by done; by rewrite Hn).
  assert (Ht : length (concat (take (Z.to_nat i) a)) = (Z.to_nat i * w)%nat)
    by (apply length_concat_take; [done | lia]).
  unfold wr2_block, block_offset. rewrite Ht, Hc, Hn.
  rewrite !Nat2Z.inj_mul, Z2Nat.id by lia.
  destruct ((0 <=? i) && (i <? Z.of_nat n)) eqn:E1; [|lia]. cbv zeta.
  match goal with |- context [if ?c then _ else _] => destruct c eqn:E2 end; [|lia].
  eexists. split; [done|].
  rewrite (shape_rect a w Hall), Hn.
  apply recut_replicate. by rewrite length_insert.
Qed.

Lemma wr2_block_outside {A} (a : list (list A)) (n w : nat) i k v :
  length a = n → Forall (fun row => length row = w) a →
  0 ≤ i < Z.of_nat n → Z.of_nat n * Z.of_nat w ≤ i * Z.of_nat w + k →
  wr2_block a i k v = OutOfBounds.
Proof.
  intros Hn Hall Hi Hoff.
  assert (Hc : length (concat a) = (n * w)%nat)
    by (rewrite (length_concat_rows _ w) by done; by rewrite Hn).
  assert (Ht : length (concat (take (Z.to_nat i) a)) = (Z.to_nat i * w)%nat)
    by (apply length_concat_take; [done | lia]).
  unfold wr2_block, block_offset. rewrite Ht, Hc, Hn.
  rewrite !Nat2Z.inj_mul, Z2Nat.id by lia.
  destruct ((0 <=? i) && (i <? Z.of_nat n)) eqn:E1; [|done]. cbv zeta.
  match goal with |- context [if ?c then _ else _] => destruct c eqn:E2 end; [|done].
  lia.
Qed.

Lemma for__refines {S} l (body body' : Z → S → result S) s r :
  (∀ n s r, body n s = Ok r → body' n s = Ok r) →
  for_ l body s = Ok r → for_ l body' s = Ok r.
Proof.
  intros Href. revert s. induction l as [|n l IH]; intros s Hrun; [done|].
  rewrite for__cons in Hrun. rewrite for__cons.
  destruct (body n s) as [s1| |] eqn:E; try done.
  rewrite (Href n s s1 E). rewrite bind_Ok in Hrun. rewrite bind_Ok. by apply IH.
Qed.

(** What [unpack_exchange] returns under the row discipline, the machine
    returns too. *)
Lemma unpack_exchange_block_refines st j buf r :
  unpack_exchange st j buf = Ok r → unpack_exchange_block st j buf = Ok r.
Proof.
  unfold unpack_exchange, unpack_exchange_block. cbv zeta. intros H.
  destruct (wr (npartner st) j _) as [a| |]; try done.
  rewrite bind_Ok in H. rewrite bind_Ok.
  destruct (rd _ j) as [np| |]; try done.
  rewrite bind_Ok in H. rewrite bind_Ok.
  match type of H with context [for_ ?l ?b ?s] =>
    destruct (for_ l b s) as [[m1 s1]| |] eqn:Hloop end; try done.
  erewrite for__refines; [exact H | | exact Hloop].
  intros n [m s] [m' s'] Hb.
  destruct (wr2 (partner s) j n _) as [p| |] eqn:Ep; try done.
  rewrite (wr2_block_refines _ _ _ _ _ Ep). rewrite bind_Ok in Hb. rewrite bind_Ok.
  cbv zeta in Hb. cbv zeta.
  destruct (wr2 (r0 (set_partner p s)) j n _) as [q| |] eqn:Eq; try done.
  by rewrite (wr2_block_refines _ _ _ _ _ Eq).
Qed.

(** X5.  A record whose count is an [int] not above [maxpartner] is unpacked
    without leaving row [j]: [unpack_exchange] returns, having read
    [2*max(0, count) + 3] words and set [npartner[j]] to [count], and has
    changed nothing outside slot [j]: every other atom keeps its state and
    the arrays keep their shape.  The machine's run is this run. *)
Theorem unpack_exchange_frame nmax st j buf :
  allocated nmax st → 0 ≤ j < nmax →
  let count := double_to_int (buf 0) in
  - 2 ^ 31 ≤ count → count ≤ maxpartner st → maxpartner st < 2 ^ 31 →
  ∃ st',
    unpack_exchange st j buf = Ok (2 * Z.max 0 count + 3, st') ∧
    unpack_exchange_block st j buf = Ok (2 * Z.max 0 count + 3, st') ∧
    npartner st' !! Z.to_nat j = Some count ∧
    first st' = first st ∧ maxpartner st' = maxpartner st ∧
    (∀ k, 0 ≤ k → k ≠ j → atom_state st' k = atom_state st k) ∧
    allocated nmax st'.
Proof.
  intros Ha Hj count Hlo Hcount Hhi.
  destruct (allocated_lookup _ _ _ Ha Hj)
    as (np & ps & rs & vi & wv & Hnp & Hps & Hlps & Hrs & Hlrs & Hvi & Hwv).
  pose proof Ha as (Hn & _ & _ & _ & _ & Hvl & Hwl).
  assert (Hrun : ∃ r, unpack_exchange st j buf = Ok r).
  { unfold unpack_exchange. cbv zeta.
    rewrite wr_Ok by lia. rewrite bind_Ok.
    rewrite (rd_Ok _ j (double_to_int (buf 0)));
      [| lia | simpl; apply list_lookup_insert_eq; lia].
    rewrite bind_Ok. fold count.
    set (st1 := set_npartner (<[Z.to_nat j := count]> (npartner st)) st).
    assert (H1 : same_but j st st1).
    { unfold same_but, st1. simpl. rewrite length_insert.
      repeat split; try done. by rewrite list_lookup_insert_ne. }
    match goal with |- context [for_ _ ?b _] => set (body := b) end.
    destruct (for__seqZ_rule' (fun _ '((m, s) : Z * FixPeriNeigh) => same_but j st s)
                body 0 count (0 + 1, st1)) as ([m s] & Hloop & Hs); [done | |].
    { intros n [m s] Hnb (Hf & Hm & Hl & Hp & Hr & Hv & Hw & Hk).
      destruct (same_but_row _ _ _ _ Hp Hps) as (rowp & H2 & H3).
      destruct (same_but_row _ _ _ _ Hr Hrs) as (rowr & H4 & H5).
      assert (Hbody : ∃ r, body n (m, s) = Ok r).
      { unfold body. rewrite (wr2_Ok _ j n rowp) by (done || lia). rewrite bind_Ok.
        cbv zeta. rewrite (wr2_Ok _ j n rowr) by (done || lia). rewrite bind_Ok.
        by eexists. }
      destruct Hbody as [[m' s'] Hbody]. exists (m', s'). split; [done|].
      by apply (unpack_body_same_but j buf st n m s m' s'). }
    rewrite Hloop, bind_Ok.
    destruct Hs as (_ & _ & _ & _ & _ & Hv & Hw & _).
    rewrite wr_Ok by lia. rewrite bind_Ok. cbv zeta.
    rewrite wr_Ok by (simpl; lia). rewrite bind_Ok.
    by eexists. }
  destruct Hrun as [[m st'] Hrun].
  destruct (unpack_exchange_touches_slot _ _ _ _ _ Hrun) as (Hm & Hnc & _ & Hsame).
  fold count in Hm, Hnc. subst m.
  exists st'. split; [done|]. split; [by apply unpack_exchange_block_refines|].
  split; [done|].
  pose proof Hsame as (Hf & Hmax & _ & _ & _ & _ & _ & Hk).
  split; [done|]. split; [done|]. split.
  - intros k Hk0 Hne. unfold atom_state, bonds.
    destruct (Hk (Z.to_nat k)) as (E1 & E2 & E3 & E4 & E5); [lia|].
    by rewrite E1, E2, E3, E4, E5.
  - by apply (same_but_allocated j st).
Qed.

Lemma filter_live_idem (l : list (Z * Q)) : filter live (filter live l) = filter live l.
Proof.
  induction l as [|b l IH]; [done|].
  destruct (decide (live b)) as [Hb|Hb].
  - rewrite !filter_cons_True by done. by rewrite IH.
  - by rewrite filter_cons_False by done.
Qed.

(** X7.  Migration settles: the first [pack_exchange]/[unpack_exchange] drops the
    broken bonds, and migrating the received atom again, into any slot of any
    store with the same [maxpartner], moves the same number of words and
    leaves exactly the state the first migration left. *)
Theorem migration_settles src dst dst2 nsrc ndst ndst2 i j k buf bufB np :
  allocated nsrc src → allocated ndst dst → allocated ndst2 dst2 →
  maxpartner dst = maxpartner src → maxpartner dst2 = maxpartner src →
  0 ≤ i < nsrc → 0 ≤ j < ndst → 0 ≤ k < ndst2 →
  npartner src !! Z.to_nat i = Some np → np ≤ maxpartner src →
  ∃ m buf1 dst' buf2 dst2',
    pack_exchange src i buf = Ok (m, buf1) ∧
    unpack_exchange dst j buf1 = Ok (m, dst') ∧
    pack_exchange dst' j bufB = Ok (m, buf2) ∧
    unpack_exchange dst2 k buf2 = Ok (m, dst2') ∧
    atom_state dst2' k = atom_state dst' j ∧
    bonds dst' j = filter live (bonds src i).
Proof.
  intros Hsrc Hdst Hdst2 Hmax Hmax2 Hi Hj Hk Hnp Hle.
  destruct (allocated_lookup _ _ _ Hsrc Hi)
    as (np' & ps & rs & vi & wv & Hnp' & Hps & Hlps & Hrs & Hlrs & Hvi & Hwv).
  rewrite Hnp in Hnp'. injection Hnp' as <-.
  destruct (allocated_lookup _ _ _ Hdst Hj)
    as (npd & psd & rsd & vid & wvd & Hnpd & Hpsd & Hlpsd & Hrsd & Hlrsd & Hvid & Hwvd).
  destruct (allocated_lookup _ _ _ Hdst2 Hk)
    as (npe & pse & rse & vie & wve & Hnpe & Hpse & Hlpse & Hrse & Hlrse & Hvie & Hwve).
  set (lv := filter live (bonds src i)).
  destruct (pack_exchange_spec src i buf np ps rs vi wv) as (buf1 & Hpack & Hrec);
    try done; try lia.
  pose proof (length_bonds_le src i np Hnp) as Hbl.
  pose proof (length_filter_le live (bonds src i)) as Hfl. fold lv in Hfl, Hpack, Hrec.
  destruct (unpack_exchange_spec dst j buf1 lv vi wv psd rsd)
    as (dst' & Hunpack & Hn & Hb & Hv & Hw & _ & Hm'); try done; try lia.
  { by apply lookup_lt_Some in Hnpd. }
  { by apply lookup_lt_Some in Hvid. }
  { by apply lookup_lt_Some in Hwvd. }
  pose proof (unpack_exchange_touches_slot _ _ _ _ _ Hunpack) as (_ & _ & _ & Hsame).
  pose proof (same_but_allocated j dst dst' ndst Hsame Hdst) as Hal.
  destruct (allocated_lookup _ _ _ Hal Hj)
    as (np1 & ps1 & rs1 & vi1 & wv1 & Hnp1 & Hps1 & Hlps1 & Hrs1 & Hlrs1 & Hvi1 & Hwv1).
  rewrite Hn in Hnp1. injection Hnp1 as <-.
  rewrite Hv in Hvi1. injection Hvi1 as <-.
  rewrite Hw in Hwv1. injection Hwv1 as <-.
  destruct (pack_exchange_spec dst' j bufB (Z.of_nat (length lv)) ps1 rs1 vi wv)
    as (buf2 & Hpack2 & Hrec2); try done; try lia.
  rewrite Hb in Hpack2, Hrec2. unfold lv in Hpack2, Hrec2.
  rewrite filter_live_idem in Hpack2, Hrec2. fold lv in Hpack2, Hrec2.
  destruct (unpack_exchange_spec dst2 k buf2 lv vi wv pse rse)
    as (dst2' & Hunpack2 & Hn2 & Hb2 & Hv2 & Hw2 & _); try done; try lia.
  { by apply lookup_lt_Some in Hnpe. }
  { by apply lookup_lt_Some in Hvie. }
  { by apply lookup_lt_Some in Hwve. }
  exists (2 * Z.of_nat (length lv) + 3), buf1, dst', buf2, dst2'.
  split; [done|]. split; [done|]. split; [done|]. split; [done|]. split; [|done].
  unfold atom_state. by rewrite Hn, Hb, Hv, Hw, Hn2, Hb2, Hv2, Hw2.
Qed.


(** Under the row discipline a count above [maxpartner] is refused at the
    first pair that does not fit the row. *)
Lemma unpack_exchange_row_check nmax st j buf :
  allocated nmax st → 0 ≤ j < nmax →
  0 ≤ maxpartner st < double_to_int (buf 0) →
  unpack_exchange st j buf = OutOfBounds.
Proof.
  intros Ha Hj Hcount.
  destruct (allocated_lookup _ _ _ Ha Hj)
    as (np & ps & rs & vi & wv & Hnp & Hps & Hlps & Hrs & Hlrs & Hvi & Hwv).
  pose proof Ha as (Hn & _).
  unfold unpack_exchange. cbv zeta.
  rewrite wr_Ok by lia. rewrite bind_Ok.
  rewrite (rd_Ok _ j (double_to_int (buf 0)));
    [| lia | simpl; apply list_lookup_insert_eq; lia].
  rewrite bind_Ok.
  set (count := double_to_int (buf 0)) in *.
  set (M := maxpartner st) in *.
  set (st1 := set_npartner (<[Z.to_nat j := count]> (npartner st)) st).
  assert (H1 : same_but j st st1).
  { unfold same_but, st1. simpl. rewrite length_insert.
    repeat split; try done. by rewrite list_lookup_insert_ne. }
  match goal with |- context [for_ _ ?b _] => set (body := b) end.
  assert (Hsplit : seqZ 0 count = seqZ 0 M ++ M :: seqZ (M + 1) (count - M - 1)).
  { replace count with (M + (count - M)) at 1 by lia.
    rewrite seqZ_app by lia. f_equal.
    rewrite (seqZ_cons (0 + M)) by lia.
    replace (Z.succ (0 + M)) with (M + 1) by lia.
    by replace (Z.pred (count - M)) with (count - M - 1) by lia. }
  assert (Hrow : ∀ s, same_but j st s →
    ∃ rowp rowr, partner s !! Z.to_nat j = Some rowp ∧ length rowp = Z.to_nat M ∧
                 r0 s !! Z.to_nat j = Some rowr ∧ length rowr = Z.to_nat M).
  { intros s (_ & _ & _ & Hp & Hr & _).
    destruct (same_but_row _ _ _ _ Hp Hps) as (rowp & H2 & H3).
    destruct (same_but_row _ _ _ _ Hr Hrs) as (rowr & H4 & H5).
    exists rowp, rowr. repeat split; try done; lia. }
  destruct (for__seqZ_rule (fun _ '((m, s) : Z * FixPeriNeigh) => same_but j st s)
              body 0 M (0 + 1, st1)) as ([m s] & Hloop & Hs); [lia | done | |].
  { intros n [m s] Hnb Hs.
    destruct (Hrow s Hs) as (rowp & rowr & Hrp & Hlp & Hrr & Hlr).
    assert (Hbody : ∃ r, body n (m, s) = Ok r).
    { unfold body. rewrite (wr2_Ok _ j n rowp) by (done || lia). rewrite bind_Ok.
      cbv zeta. rewrite (wr2_Ok _ j n rowr) by (done || lia). rewrite bind_Ok.
      by eexists. }
    destruct Hbody as [[m' s'] Hbody]. exists (m', s'). split; [done|].
    by apply (unpack_body_same_but j buf st n m s m' s'). }
  rewrite Hsplit.
  rewrite (for__fail (seqZ 0 M) M _ body _ (m, s) OutOfBounds); [done | done | | done].
  destruct (Hrow s Hs) as (rowp & rowr & Hrp & Hlp & Hrr & Hlr).
  unfold body, wr2. rewrite (rd_Ok _ _ rowp) by (done || lia). rewrite bind_Ok.
  unfold wr. destruct (0 <=? M) eqn:E1; [|done].
  destruct (M <? Z.of_nat (length rowp)) eqn:E2; [|done].
  apply Z.ltb_lt in E2. lia.
Qed.

Lemma unpack_block_step nmax j buf st n m s :
  0 ≤ j < nmax → 0 ≤ maxpartner st → 0 ≤ n →
  j * maxpartner st + n < nmax * maxpartner st →
  m = 1 + 2 * n → block_filled nmax j buf st n s →
  ∃ s',
    (a ← wr2_block (partner s) j n (double_to_int (buf m));
     let s := set_partner a s in
     b ← wr2_block (r0 s) j n (buf (m + 1));
     let s := set_r0 b s in
     Ok (m + 2, s)) = Ok (m + 2, s') ∧
    block_filled nmax j buf st (n + 1) s'.
Proof.
  intros Hj HM Hn Hoff -> (Hf & Hm & Hnp & Hv & Hw & Hpl & Hpr & Hrl & Hrr & Hcells).
  set (M := maxpartner st) in *.
  assert (Hrange : 0 ≤ j * Z.of_nat (Z.to_nat M) + n
                   < Z.of_nat (Z.to_nat nmax) * Z.of_nat (Z.to_nat M))
    by (rewrite !Z2Nat.id by lia; nia).
  destruct (wr2_block_rect (partner s) (Z.to_nat nmax) (Z.to_nat M) j n
              (double_to_int (buf (1 + 2 * n))) Hpl Hpr ltac:(lia) Hrange)
    as (a' & Ea & Hal & Har & Hac).
  destruct (wr2_block_rect (r0 s) (Z.to_nat nmax) (Z.to_nat M) j n
              (buf (1 + 2 * n + 1)) Hrl Hrr ltac:(lia) Hrange)
    as (b' & Eb & Hbl & Hbr & Hbc).
  rewrite Z2Nat.id in Hac, Hbc by lia.
  exists (set_r0 b' (set_partner a' s)). split.
  { rewrite Ea, bind_Ok. cbv zeta. cbn [r0 set_partner]. by rewrite Eb, bind_Ok. }
  unfold block_filled. cbn [first maxpartner npartner partner r0 vinter wvolume
                            set_r0 set_partner].
  fold M.
  split; [done|]. split; [done|]. split; [done|]. split; [done|]. split; [done|].
  split; [done|]. split; [done|]. split; [done|]. split; [done|].
  assert (Hcp : length (concat (partner s)) = (Z.to_nat nmax * Z.to_nat M)%nat)
    by (rewrite (length_concat_rows _ (Z.to_nat M)) by done; by rewrite Hpl).
  assert (Hcr : length (concat (r0 s)) = (Z.to_nat nmax * Z.to_nat M)%nat)
    by (rewrite (length_concat_rows _ (Z.to_nat M)) by done; by rewrite Hrl).
  assert (Hlt : (Z.to_nat (j * M + n) < Z.to_nat nmax * Z.to_nat M)%nat) by nia.
  intros k Hk. rewrite Hac, Hbc.
  destruct (decide (k = n)) as [->|Hne].
  - rewrite !list_lookup_insert_eq by lia. split; [done|]. do 2 f_equal. lia.
  - rewrite !list_lookup_insert_ne by lia. apply Hcells. lia.
Qed.

Lemma unpack_block_loop nmax j buf st N :
  allocated nmax st → 0 ≤ j < nmax → 0 ≤ maxpartner st → 0 ≤ N →
  j * maxpartner st + N ≤ nmax * maxpartner st →
  ∃ s,
    for_ (seqZ 0 N) (fun n '(m, s) =>
        a ← wr2_block (partner s) j n (double_to_int (buf m));
        let s := set_partner a s in
        b ← wr2_block (r0 s) j n (buf (m + 1));
        let s := set_r0 b s in
        Ok (m + 2, s))
      (0 + 1, set_npartner (<[Z.to_nat j := double_to_int (buf 0)]> (npartner st)) st)
    = Ok (1 + 2 * N, s) ∧
    block_filled nmax j buf st N s.
Proof.
  intros (Hn & Hp & Hpr & Hr & Hrr & Hv & Hw) Hj HM HN Hoff.
  match goal with |- context [for_ _ ?b ?s0] =>
    destruct (for__seqZ_rule
      (fun k '((m, s) : Z * FixPeriNeigh) => m = 1 + 2 * k ∧ block_filled nmax j buf st k s)
      b 0 N s0) as ([m s] & Hloop & Hm & Hs) end; [done | | |].
  - split; [done|]. unfold block_filled. simpl.
    repeat split; try done; lia.
  - intros k [m s] Hk [Hm Hs].
    destruct (unpack_block_step nmax j buf st k m s) as (s' & Hb & Hs');
      try done; try lia.
    exists (m + 2, s'). split; [done|]. split; [lia | done].
  - exists s. split; [|done]. rewrite Hloop. do 2 f_equal. lia.
Qed.

(** X6.  [unpack_exchange] trusts the record.  With a count, an [int], above
    [maxpartner] the pairs no longer fit row [j]: the row discipline refuses
    the run, but the machine keeps writing into the block.  While the pairs
    stay inside the block it returns as if nothing had happened, and the
    first bond of the next atom now holds the record's pair number
    [maxpartner]; when they leave the block the write is outside the
    allocation. *)
Theorem unpack_exchange_overflow nmax st j buf :
  allocated nmax st → 0 ≤ j < nmax →
  let count := double_to_int (buf 0) in
  0 ≤ maxpartner st → maxpartner st < count → count < 2 ^ 31 →
  unpack_exchange st j buf = OutOfBounds ∧
  (count ≤ (nmax - j) * maxpartner st →
   ∃ st' ps rs,
     unpack_exchange_block st j buf = Ok (2 * count + 3, st') ∧
     partner st' !! Z.to_nat (j + 1) = Some ps ∧
     ps !! 0%nat = Some (double_to_int (buf (1 + 2 * maxpartner st))) ∧
     r0 st' !! Z.to_nat (j + 1) = Some rs ∧
     rs !! 0%nat = Some (buf (2 + 2 * maxpartner st))) ∧
  ((nmax - j) * maxpartner st < count →
   unpack_exchange_block st j buf = OutOfBounds).
Proof.
  intros Ha Hj count HM Hcount Hint.
  split; [by apply (unpack_exchange_row_check nmax)|].
  pose proof Ha as (Hn & _ & _ & _ & _ & Hv & Hw).
  set (M := maxpartner st) in *.
  assert (Hstart : unpack_exchange_block st j buf =
    ('(m, s) ← for_ (seqZ 0 count) (fun n '(m, s) =>
          a ← wr2_block (partner s) j n (double_to_int (buf m));
          let s := set_partner a s in
          b ← wr2_block (r0 s) j n (buf (m + 1));
          let s := set_r0 b s in
          Ok (m + 2, s))
        (0 + 1, set_npartner (<[Z.to_nat j := count]> (npartner st)) st);
     a ← wr (vinter s) j (buf m);
     let s := set_vinter a s in
     b ← wr (wvolume s) j (buf (m + 1));
     let s := set_wvolume b s in
     Ok (m + 2, s))).
  { unfold unpack_exchange_block. cbv zeta.
    rewrite wr_Ok by lia. rewrite bind_Ok.
    rewrite (rd_Ok _ j (double_to_int (buf 0)));
      [| lia | simpl; apply list_lookup_insert_eq; lia].
    by rewrite bind_Ok. }
  rewrite Hstart. split.
  - intros Hfit.
    destruct (unpack_block_loop nmax j buf st count Ha Hj HM ltac:(lia) ltac:(nia))
      as (s & Hloop & Hs).
    fold count in Hloop. rewrite Hloop, bind_Ok.
    destruct Hs as (Hf & Hm & Hnp & Hvs & Hws & Hpl & Hpr & Hrl & Hrr & Hcells).
    rewrite Hvs, wr_Ok by lia. rewrite bind_Ok. cbv zeta.
    cbn [wvolume set_vinter]. rewrite Hws, wr_Ok by lia. rewrite bind_Ok.
    assert (Hj1 : (Z.to_nat (j + 1) < Z.to_nat nmax)%nat) by nia.
    destruct (lookup_lt_is_Some_2 (partner s) (Z.to_nat (j + 1))) as [ps Hps]; [lia|].
    destruct (lookup_lt_is_Some_2 (r0 s) (Z.to_nat (j + 1))) as [rs Hrs]; [lia|].
    destruct (Hcells M ltac:(lia)) as [Hcp Hcr]. fold M in Hcp, Hcr.
    assert (Hidx : Z.to_nat (j * M + M) = (Z.to_nat (j + 1) * Z.to_nat M + 0)%nat) by nia.
    rewrite Hidx in Hcp, Hcr.
    rewrite (lookup_concat_rect _ _ _ _ ps Hpr Hps) in Hcp by lia.
    rewrite (lookup_concat_rect _ _ _ _ rs Hrr Hrs) in Hcr by lia.
    eexists _, ps, rs. split; [do 2 f_equal; lia|]. simpl. done.
  - intros Hout.
    set (N := (nmax - j) * M).
    assert (HN : 0 ≤ N) by (unfold N; nia).
    destruct (unpack_block_loop nmax j buf st N Ha Hj HM HN ltac:(unfold N; nia))
      as (s & Hloop & Hs).
    fold count in Hloop.
    assert (Hsplit : seqZ 0 count = seqZ 0 N ++ N :: seqZ (N + 1) (count - N - 1)).
    { replace count with (N + (count - N)) at 1 by lia.
      rewrite seqZ_app by lia. f_equal.
      rewrite (seqZ_cons (0 + N)) by lia.
      replace (Z.succ (0 + N)) with (N + 1) by lia.
      by replace (Z.pred (count - N)) with (count - N - 1) by lia. }
    rewrite Hsplit.
    match goal with |- context [for_ _ ?b ?s0] =>
      rewrite (for__fail (seqZ 0 N) N (seqZ (N + 1) (count - N - 1)) b s0
                 (1 + 2 * N, s) OutOfBounds Hloop) end; [done | | done].
    destruct Hs as (Hf & Hm & Hnp & Hvs & Hws & Hpl & Hpr & Hrl & Hrr & Hcells).
    rewrite (wr2_block_outside (partner s) (Z.to_nat nmax) (Z.to_nat M)); try done.
    + lia.
    + rewrite !Z2Nat.id by lia. unfold N. nia.
Qed.


(** ** Ghost exchange, end to end *)

(** X8.  What [pack_comm] packs on the owning partition, [unpack_comm] stores on
    the receiving one: ghost [first_ + k] gets the owner's
    [wvolume[sendl k]]. *)
Theorem ghost_receives_owner_value owner ghost n (sendl : Z → Z) buf0 first_ :
  (∀ k, 0 ≤ k < n → 0 ≤ sendl k < Z.of_nat (length (wvolume owner))) →
  0 ≤ first_ → first_ + n ≤ Z.of_nat (length (wvolume ghost)) →
  ∃ buf ghost',
    pack_comm owner n sendl buf0 = Ok (comm_forward, buf) ∧
    unpack_comm ghost n first_ buf = Ok ghost' ∧
    ∀ k, 0 ≤ k < n →
      wvolume ghost' !! Z.to_nat (first_ + k) = wvolume owner !! Z.to_nat (sendl k).
Proof.
  intros Hsend Hf Hl.
  destruct (pack_comm_spec owner n sendl buf0 Hsend) as (buf & Hpack & Hin & _).
  destruct (unpack_comm_spec ghost n first_ buf Hf Hl) as (ghost' & Hun & Hval).
  exists buf, ghost'. split; [done|]. split; [done|].
  intros k Hk. rewrite Hval by lia. rewrite Hin by lia. do 2 f_equal. lia.
Qed.

(** ** What [setup] leaves behind *)

Lemma rsq_of_sym pos i j :
  Proper (Qeq ==> Qeq) rnd → (∀ q, rnd (- q) == - rnd q)%Q →
  (rsq_of pos i j == rsq_of pos j i)%Q.
Proof.
  intros Hp Hodd. unfold rsq_of, dadd, dmul, dsub.
  assert (Hd : ∀ k, (rnd (pos j k - pos i k) == - rnd (pos i k - pos j k))%Q).
  { intros k. rewrite <- Hodd. apply Hp. ring. }
  assert (Hsq : ∀ a, (- a * - a == a * a)%Q) by (intros a; ring).
  cbv zeta. rewrite !Hd, !Hsq. reflexivity.
Qed.

Lemma within_cutoff_sym L i j :
  Proper (Qeq ==> Qeq) rnd → (∀ q, rnd (- q) == - rnd q)%Q →
  (cutsq L (type (atom L) i) (type (atom L) j)
   == cutsq L (type (atom L) j) (type (atom L) i))%Q →
  within_cutoff L i j = within_cutoff L j i.
Proof.
  intros Hp Hodd Hc. apply eq_true_iff_eq. rewrite !within_cutoff_iff.
  rewrite Hc, (rsq_of_sym _ i j Hp Hodd). done.
Qed.

(** X9.  With a cutoff table that is symmetric in the two types, the test is
    symmetric in the pair: when [j] is a candidate of [i] and [i] one of [j],
    either both atoms get the bond or neither does.  The rounding is taken to
    depend on the value only and to commute with negation, as rounding to
    nearest does. *)
Theorem bonds_symmetric L others st i j :
  Proper (Qeq ==> Qeq) rnd → (∀ q, rnd (- q) == - rnd q)%Q →
  ready L st →
  0 ≤ i < nlocal (atom L) → 0 ≤ j < nlocal (atom L) →
  (cutsq L (type (atom L) i) (type (atom L) j)
   == cutsq L (type (atom L) j) (type (atom L) i))%Q →
  j ∈ candidates L i → i ∈ candidates L j →
  within_cutoff L i j = within_cutoff L j i ∧
  (j ∈ accepted L i ↔ i ∈ accepted L j) ∧
  ∃ stb,
    setup_build L others st = Ok stb ∧
    (within_cutoff L i j = true →
     bond_of L i j ∈ bonds stb i ∧ bond_of L j i ∈ bonds stb j) ∧
    (within_cutoff L i j = false →
     (j ∉ accepted L i) ∧ (i ∉ accepted L j)).
Proof.
  intros Hp Hodd Hr Hi Hj Hc Hji Hij.
  pose proof (within_cutoff_sym L i j Hp Hodd Hc) as Hsym.
  assert (Hacc : ∀ a b, b ∈ accepted L a ↔ within_cutoff L a b = true ∧ b ∈ candidates L a).
  { intros a b. unfold accepted, accepted_of. rewrite list_elem_of_filter.
    by rewrite Is_true_true. }
  split; [done|]. split.
  { rewrite !Hacc, Hsym. clear -Hji Hij. tauto. }
  destruct (setup_build_spec L others st Hr) as (stb & Hb & _ & _ & _ & Hst).
  exists stb. split; [done|]. split.
  - intros Hw.
    pose proof (f_equal (fun p => p.1.1.2) (Hst i Hi)) as Hbi.
    pose proof (f_equal (fun p => p.1.1.2) (Hst j Hj)) as Hbj.
    simpl in Hbi, Hbj. rewrite Hbi, Hbj. split.
    + apply list_elem_of_fmap_2. by apply Hacc.
    + apply list_elem_of_fmap_2. apply Hacc. by rewrite <- Hsym.
  - intros Hw. rewrite !Hacc, <- Hsym, Hw. clear. split; intros [? _]; done.
Qed.

(** X10.  After [setup], for every owned atom: [vinter[i]] is the sum of the
    volume fractions of the bonded candidates, added in scan order from 0,
    and [wvolume[i]] is the weighted sum over its own bond list, whatever the
    ghost exchange at the end received. *)
Theorem setup_accumulates L others st out :
  ready L st → setup L others st = Ok out →
  first out = 0 ∧
  ∀ i, 0 ≤ i < nlocal (atom L) →
    bonds out i = bond_of L i <$> accepted L i ∧
    vinter out !! Z.to_nat i = Some (vinter_of L (accepted L i)) ∧
    wvolume out !! Z.to_nat i = Some (wvolume_of L i 0%Q (bonds out i)).
Proof.
  intros Hr Hrun.
  destruct (setup_spec L others st Hr) as (stb & _ & _ & Hf & _ & Hst & Hout).
  destruct Hout as [[_ Hfatal] | (_ & wv & Hok & _ & Hwv)]; [congruence|].
  rewrite Hok in Hrun. injection Hrun as <-. split; [done|].
  intros i Hi. specialize (Hst i Hi). unfold atom_state in Hst.
  injection Hst as H1 H2 H3 H4. split; [done|]. split; [done|].
  simpl. by apply Hwv.
Qed.

(** X11.  A partner met twice within the cutoff: in a periodic domain [setup] stops
    with the fatal error; in a domain without a periodic axis it returns and
    the atom keeps both bonds. *)
Theorem duplicate_candidate_outcome L others st i (p q : nat) j1 j2 :
  ready L st → 0 ≤ i < nlocal (atom L) →
  (p < q)%nat →
  accepted L i !! p = Some j1 → accepted L i !! q = Some j2 →
  tag (atom L) j1 = tag (atom L) j2 →
  (periodic (domain L) = true → setup L others st = Fatal dup_msg) ∧
  (periodic (domain L) = false →
   ∃ out, setup L others st = Ok out ∧
     has_duplicate (bonds out i) ∧
     npartner out !! Z.to_nat i = Some (Z.of_nat (length (accepted L i)))).
Proof.
  intros Hr Hi Hpq Hp Hq Htag.
  destruct (setup_spec L others st Hr) as (stb & _ & _ & _ & _ & Hst & Hout).
  pose proof (Hst i Hi) as Hsi. unfold atom_state in Hsi.
  injection Hsi as H1 H2 H3 H4.
  assert (Hdup : has_duplicate (bonds stb i)).
  { exists p, q, (tag (atom L) j1), (sqrt (rsq_of (x (atom L)) i j1)),
      (sqrt (rsq_of (x (atom L)) i j2)).
    split; [done|]. rewrite H2, !list_lookup_fmap, Hp, Hq. simpl.
    unfold bond_of. by rewrite Htag. }
  split.
  - intros Hper.
    destruct Hout as [[_ Hfatal] | (Hnd & _)]; [done|].
    exfalso. apply Hnd. split; [done|]. by exists i.
  - intros Hper.
    destruct Hout as [[[Hp' _] _] | (_ & wv & Hok & _)]; [congruence|].
    eexists. split; [done|]. simpl. done.
Qed.

Lemma list_max0_zero l : Forall (fun v => v = 0) l → list_max0 l = 0.
Proof.
  unfold list_max0. induction 1 as [|a l -> _ IH]; [done|]. simpl. rewrite IH. done.
Qed.

(** X12.  An owned atom that the neighbor list does not list gets no bond,
    [vinter = 0] and [wvolume = 0].  With an empty list [setup] returns for
    every partition, periodic or not, and [maxpartner] is what the other
    partitions contributed, 0 if there are none. *)
Theorem unlisted_atoms_unbonded L others st :
  ready L st →
  (∀ out, setup L others st = Ok out →
     ∀ i, 0 ≤ i < nlocal (atom L) → i ∉ ilist (neigh_list L) →
       atom_state out i = (Some 0, [], Some 0%Q, Some 0%Q)) ∧
  (ilist (neigh_list L) = [] →
   ∃ out, setup L others st = Ok out ∧
     maxpartner out = MPI_Allreduce_MAX 0 others ∧
     ∀ i, 0 ≤ i < nlocal (atom L) →
       atom_state out i = (Some 0, [], Some 0%Q, Some 0%Q)).
Proof.
  intros Hr.
  destruct (setup_spec L others st Hr) as (stb & _ & _ & _ & Hm & Hst & Hout).
  assert (Hun : ∀ i, 0 ≤ i < nlocal (atom L) → i ∉ ilist (neigh_list L) →
    atom_state stb i = (Some 0, [], Some 0%Q, Some 0%Q)).
  { intros i Hi Hni. rewrite (Hst i Hi).
    unfold accepted, candidates. rewrite (scan_not_in L _ i Hni). done. }
  assert (Hfin : ∀ wv,
    (∀ i, 0 ≤ i < nlocal (atom L) →
       wv !! Z.to_nat i = Some (wvolume_of L i 0%Q (bonds stb i))) →
    ∀ i, 0 ≤ i < nlocal (atom L) → i ∉ ilist (neigh_list L) →
      atom_state (set_wvolume wv stb) i = (Some 0, [], Some 0%Q, Some 0%Q)).
  { intros wv Hwv i Hi Hni. specialize (Hun i Hi Hni). unfold atom_state in Hun.
    injection Hun as H1 H2 H3 H4.
    unfold atom_state, bonds in *. simpl. rewrite H1, H3, (Hwv i Hi).
    fold (bonds stb i). unfold bonds. rewrite H1.
    destruct (partner stb !! Z.to_nat i); [|done].
    by destruct (r0 stb !! Z.to_nat i). }
  split.
  - intros out Hrun i Hi Hni.
    destruct Hout as [[_ Hfatal] | (_ & wv & Hok & _ & Hwv)]; [congruence|].
    rewrite Hok in Hrun. injection Hrun as <-. by apply Hfin.
  - intros Hnil.
    assert (Hnone : ∀ i, i ∉ ilist (neigh_list L)).
    { intros i. rewrite Hnil. apply not_elem_of_nil. }
    destruct Hout as [[[_ (i & Hi & Hdup)] _] | (_ & wv & Hok & _ & Hwv)].
    + exfalso. specialize (Hun i Hi (Hnone i)).
      pose proof (f_equal (fun p => p.1.1.2) Hun) as Hb. simpl in Hb.
      destruct Hdup as (jj & kk & t & r1 & r2 & _ & H1 & _). by rewrite Hb in H1.
    + eexists. split; [done|]. split.
      * simpl. rewrite Hm. f_equal. apply list_max0_zero.
        unfold local_degrees. apply Forall_fmap, Forall_forall. intros i _. simpl.
        unfold accepted, candidates. by rewrite (scan_not_in L _ i (Hnone i)).
      * intros i Hi. by apply Hfin.
Qed.

(** ** [grow_arrays] keeps the atoms already stored *)

Lemma grow1_keeps {A} (junk : nat → A) (a : list A) n (i : nat) v :
  (length a ≤ Z.to_nat n)%nat → a !! i = Some v → grow1 junk a n !! i = Some v.
Proof.
  intros Hlen Hv. pose proof (lookup_lt_Some _ _ _ Hv) as Hi.
  unfold grow1. rewrite lookup_take_lt by lia. by rewrite lookup_app_l.
Qed.

Lemma grow2_keeps {A} (junk : nat → A) (a : list (list A)) n1 n2 (i : nat) row :
  0 ≤ n2 →
  Forall (fun row => length row = Z.to_nat n2) a →
  (length a ≤ Z.to_nat n1)%nat →
  a !! i = Some row → grow2 junk a n1 n2 !! i = Some row.
Proof.
  intros Hn2 Hrows Hlen Hrow. pose proof (lookup_lt_Some _ _ _ Hrow) as Hi.
  assert (Hc : length row = Z.to_nat n2).
  { rewrite Forall_forall in Hrows. apply Hrows. by eapply list_elem_of_lookup_2. }
  unfold grow2. rewrite list_lookup_fmap, lookup_seq_lt by lia. simpl. f_equal.
  set (c := Z.to_nat n2) in *.
  assert (Hsplit : concat a = concat (take i a) ++ row ++ concat (drop (S i) a)).
  { rewrite <- (take_drop_middle a i row Hrow) at 1.
    by rewrite concat_app, concat_cons. }
  assert (Hpre : length (concat (take i a)) = (i * c)%nat).
  { rewrite (length_concat_rows _ c) by by apply Forall_take.
    rewrite length_take. lia. }
  assert (HN : ((i + 1) * c ≤ Z.to_nat (n1 * n2))%nat).
  { assert (0 ≤ n1) by lia. rewrite Z2Nat.inj_mul by lia. fold c. nia. }
  apply list_eq. intros k.
  destruct (decide (k < c)%nat) as [Hk|Hk].
  - rewrite lookup_take_lt, lookup_drop by done.
    unfold grow1. rewrite lookup_take_lt by nia.
    rewrite Hsplit, <- !(assoc (++)).
    rewrite lookup_app_r by lia. rewrite Hpre.
    replace (i * c + k - i * c)%nat with k by lia.
    by rewrite lookup_app_l by lia.
  - rewrite lookup_take_ge by lia. symmetry. apply lookup_ge_None. lia.
Qed.

(** X13.  Growing the arrays to a larger [nmax] keeps every atom already stored:
    its bond count, bond list, [vinter] and [wvolume] are what they were, and
    the arrays have the new size. *)
Theorem grow_arrays_keeps_atoms nold nnew st :
  allocated nold st → 0 ≤ nold ≤ nnew → 0 ≤ maxpartner st →
  allocated nnew (grow_arrays st nnew) ∧
  first (grow_arrays st nnew) = first st ∧
  maxpartner (grow_arrays st nnew) = maxpartner st ∧
  ∀ i, 0 ≤ i < nold → atom_state (grow_arrays st nnew) i = atom_state st i.
Proof.
  intros Hal Hn Hm.
  destruct (grow_arrays_allocated st nnew) as (Ha & Hf & Hmp).
  split; [done|]. split; [done|]. split; [done|].
  intros i Hi.
  destruct Hal as (H1 & H2 & H3 & H4 & H5 & H6 & H7).
  assert (Hlt : (Z.to_nat i < Z.to_nat nold)%nat) by lia.
  destruct (lookup_lt_is_Some_2 (npartner st) (Z.to_nat i)) as [np Hnp]; [lia|].
  destruct (lookup_lt_is_Some_2 (partner st) (Z.to_nat i)) as [ps Hps]; [lia|].
  destruct (lookup_lt_is_Some_2 (r0 st) (Z.to_nat i)) as [rs Hrs]; [lia|].
  destruct (lookup_lt_is_Some_2 (vinter st) (Z.to_nat i)) as [vi Hvi]; [lia|].
  destruct (lookup_lt_is_Some_2 (wvolume st) (Z.to_nat i)) as [wv Hwv]; [lia|].
  unfold atom_state, bonds, grow_arrays. simpl.
  rewrite (grow1_keeps _ (npartner st) nnew _ np) by (done || lia).
  rewrite (grow2_keeps _ (partner st) nnew _ _ ps) by (done || lia).
  rewrite (grow2_keeps _ (r0 st) nnew _ _ rs) by (done || lia).
  rewrite (grow1_keeps _ (vinter st) nnew _ vi) by (done || lia).
  rewrite (grow1_keeps _ (wvolume st) nnew _ wv) by (done || lia).
  by rewrite Hnp, Hps, Hrs, Hvi, Hwv.
Qed.

(** ** [memory_usage] *)

Lemma to_int_congr a b : a mod 2 ^ 32 = b mod 2 ^ 32 → to_int a = to_int b.
Proof.
  intros H. unfold to_int. f_equal.
  rewrite (Z.add_mod a), (Z.add_mod b) by lia. by rewrite H.
Qed.

Lemma to_size_t_mod z : to_size_t z mod 2 ^ 32 = z mod 2 ^ 32.
Proof.
  unfold to_size_t. apply Z.mod_mod_divide. exists (2 ^ 32). lia.
Qed.

Lemma to_int_mod z : to_int z mod 2 ^ 32 = z mod 2 ^ 32.
Proof.
  unfold to_int. rewrite Zminus_mod_idemp_l.
  f_equal. lia.
Qed.

Lemma to_int_small z : - 2 ^ 31 ≤ z < 2 ^ 31 → to_int z = z.
Proof. intros H. unfold to_int. rewrite Z.mod_small; lia. Qed.

Lemma to_int_add_size_t b t :
  to_int (to_size_t (to_size_t (to_int b) + to_size_t t)) = to_int (b + t).
Proof.
  apply to_int_congr. rewrite to_size_t_mod.
  rewrite Z.add_mod, !to_size_t_mod, to_int_mod, <- Z.add_mod by lia. done.
Qed.

Lemma to_size_t_mul_mod n s : (to_size_t (to_size_t n * s)) mod 2 ^ 32 = (n * s) mod 2 ^ 32.
Proof.
  rewrite to_size_t_mod, Z.mul_mod, to_size_t_mod, <- Z.mul_mod by lia. done.
Qed.

Lemma to_int_add_congr b t t' :
  t mod 2 ^ 32 = t' mod 2 ^ 32 → to_int (b + t) = to_int (b + t').
Proof.
  intros H. apply to_int_congr.
  rewrite (Z.add_mod b t), (Z.add_mod b t') by lia. by rewrite H.
Qed.

Lemma to_int_mul_size_t n s : to_int (to_size_t (to_size_t n * s)) = to_int (n * s).
Proof. apply to_int_congr, to_size_t_mul_mod. Qed.

Lemma to_int_step b n s :
  to_int (to_size_t (to_size_t (to_int b) + to_size_t (to_size_t n * s))) =
  to_int (b + n * s).
Proof.
  rewrite to_int_add_size_t. apply to_int_add_congr.
  rewrite Z.mul_mod, to_size_t_mod, <- Z.mul_mod by lia. done.
Qed.

Lemma memory_usage_wrapped a st :
  - 2 ^ 31 ≤ nmax a * maxpartner st < 2 ^ 31 →
  memory_usage a st =
  int_to_double (to_int (nmax a * sizeof_int + nmax a * maxpartner st * sizeof_int +
    nmax a * maxpartner st * sizeof_double + nmax a * sizeof_double +
    nmax a * sizeof_double)).
Proof.
  intros Hnm. unfold memory_usage. cbv zeta. f_equal.
  rewrite (to_int_small (nmax a * maxpartner st)) by done.
  rewrite (to_int_mul_size_t (nmax a) sizeof_int).
  set (n := nmax a). set (nm := n * maxpartner st).
  rewrite (to_int_step (n * sizeof_int) nm sizeof_int).
  rewrite (to_int_step (n * sizeof_int + nm * sizeof_int) nm sizeof_double).
  rewrite (to_int_step (n * sizeof_int + nm * sizeof_int + nm * sizeof_double)
             n sizeof_double).
  by rewrite to_int_step.
Qed.

Lemma array_bytes_allocated a st :
  allocated (nmax a) st → 0 ≤ nmax a → 0 ≤ maxpartner st →
  array_bytes st =
  nmax a * sizeof_int + nmax a * maxpartner st * sizeof_int +
  nmax a * maxpartner st * sizeof_double + nmax a * sizeof_double +
  nmax a * sizeof_double.
Proof.
  intros (H1 & H2 & H3 & H4 & H5 & H6 & H7) Hn Hm. unfold array_bytes.
  rewrite (length_concat_rows _ _ H3), (length_concat_rows _ _ H5).
  rewrite H1, H2, H4, H6, H7. rewrite !Nat2Z.inj_mul, !Z2Nat.id by lia. ring.
Qed.

(** X14.  [memory_usage] reports the bytes of the cells of the five arrays exactly
    as long as that count fits a 32-bit [int].  From 2^31 bytes on (with the
    product [nmax * maxpartner] still an [int]) the reported value is the
    count reduced by a multiple of 2^32, and negative up to 2^32. *)
Theorem memory_usage_counts_bytes a st :
  allocated (nmax a) st → 0 ≤ nmax a → 0 ≤ maxpartner st →
  nmax a * maxpartner st < 2 ^ 31 →
  (array_bytes st < 2 ^ 31 → memory_usage a st = int_to_double (array_bytes st)) ∧
  (2 ^ 31 ≤ array_bytes st < 2 ^ 32 →
   memory_usage a st = int_to_double (array_bytes st - 2 ^ 32) ∧
   (memory_usage a st < 0)%Q) ∧
  ∃ k, 0 ≤ k ∧ memory_usage a st = int_to_double (array_bytes st - k * 2 ^ 32).
Proof.
  intros Hal Hn Hm Hnm.
  rewrite memory_usage_wrapped by lia.
  rewrite <- (array_bytes_allocated a st Hal Hn Hm).
  assert (Hpos : 0 ≤ array_bytes st).
  { unfold array_bytes, sizeof_int, sizeof_double. lia. }
  split; [|split].
  - intros Hfit. by rewrite to_int_small by lia.
  - intros Hbig.
    assert (Hv : to_int (array_bytes st) = array_bytes st - 2 ^ 32).
    { unfold to_int.
      replace (array_bytes st + 2 ^ 31) with
        ((array_bytes st - 2 ^ 31) + 1 * 2 ^ 32) by lia.
      rewrite Z_mod_plus_full, Z.mod_small by lia. lia. }
    rewrite Hv. split; [done|].
    unfold int_to_double. rewrite <- (Zlt_Qlt _ 0). lia.
  - exists ((array_bytes st + 2 ^ 31) / 2 ^ 32). split.
    + apply Z.div_pos; lia.
    + f_equal. unfold to_int.
      pose proof (Z.div_mod (array_bytes st + 2 ^ 31) (2 ^ 32) ltac:(lia)). lia.
Qed.

(** ** A restarted run *)

(** X15.  The header written after [setup] has run makes the restarted fix skip
    [setup]: [restart] reads back [first = 0] and the [maxpartner] of the
    run, allocates rows of that width, and [setup] and [min_setup] then
    return at once, so the bonds come from [unpack_restart] and are never
    rebuilt from the current positions. *)
Theorem restarted_run_skips_setup L others st out fresh a L' others' :
  ready L st → setup L others st = Ok out →
  let header := [int_to_double (first out); int_to_double (maxpartner out)] in
  let st1 := restart fresh a (buf_of_list header) in
  write_restart out 0 = Some (2 * sizeof_double, header) ∧
  first st1 = 0 ∧
  maxpartner st1 = MPI_Allreduce_MAX (list_max0 (local_degrees L)) others ∧
  allocated (nmax a) st1 ∧
  setup L' others' st1 = Ok st1 ∧ min_setup L' others' st1 = Ok st1.
Proof.
  intros Hr Hrun header st1.
  destruct (setup_Ok_summary L others st out Hr Hrun) as (_ & Hm & _).
  assert (Hf : first out = 0).
  { destruct (setup_spec L others st Hr) as (stb & _ & _ & Hf & _ & _ & Hout).
    destruct Hout as [[_ Hfatal] | (_ & wv & Hok & _)]; [congruence|].
    rewrite Hok in Hrun. by injection Hrun as <-. }
  assert (Hst1 : allocated (nmax a) st1 ∧ first st1 = first out ∧
                 maxpartner st1 = maxpartner out).
  { unfold st1, restart. cbv zeta.
    match goal with |- context [grow_arrays ?s ?n] =>
      destruct (grow_arrays_allocated s n) as (Hal & Hf1 & Hm1) end.
    rewrite Hf1, Hm1. split; [done|]. simpl.
    unfold buf_of_list, header. simpl. by rewrite !double_to_int_to_double. }
  destruct Hst1 as (Hal & Hfirst & Hmax). rewrite Hf in Hfirst.
  split; [done|]. split; [done|]. split; [by rewrite Hmax|]. split; [done|].
  unfold min_setup, setup. by rewrite Hfirst.
Qed.

End Externals.

(** * IEEE 754 binary64 as the rounding *)

(** [round64] depends on the value only. *)
Lemma round64_proper : Proper (Qeq ==> Qeq) round64.
Proof.
  intros p q H. unfold round64, Q2SF. by rewrite (Qred_complete p q H).
Qed.

Lemma binary_round_aux_sign m e l :
  (SF2Q (binary_round_aux 53 1024 true m e l)
   == - SF2Q (binary_round_aux 53 1024 false m e l))%Q.
Proof.
  unfold binary_round_aux.
  destruct (shr_fexp 53 1024 m e l) as [mrs' e'].
  destruct (shr_fexp 53 1024 _ e' loc_Exact) as [mrs'' e''].
  destruct (shr_m mrs'') as [|p|p]; [reflexivity| |reflexivity].
  destruct (e'' <=? 1024 - 53); [|reflexivity].
  unfold SF2Q. rewrite !Qred_correct.
  change (Z.neg p) with (- Z.pos p). rewrite inject_Z_opp. ring.
Qed.

(** Rounding to nearest commutes with negation. *)
Lemma round64_odd q : (round64 (- q) == - round64 q)%Q.
Proof.
  unfold round64, Q2SF. rewrite Qred_opp.
  destruct (Qred q) as [n d]. cbn [Qopp Qnum Qden].
  destruct n as [|p|p].
  - reflexivity.
  - change (- Z.pos p) with (Z.neg p). unfold Z2SF, SFdiv. cbn [xorb].
    destruct (SFdiv_core_binary 53 1024 (Z.pos p) 0 (Z.pos d) 0) as [[mz ez] lz].
    apply binary_round_aux_sign.
  - change (- Z.neg p) with (Z.pos p). unfold Z2SF, SFdiv. cbn [xorb].
    destruct (SFdiv_core_binary 53 1024 (Z.pos p) 0 (Z.pos d) 0) as [[mz ez] lz].
    rewrite binary_round_aux_sign. ring.
Qed.

(** The machine's rounding on a few values. *)
Example round64_tenth :
  round64 (1 # 10) = (3602879701896397 # 36028797018963968)%Q.
Proof. vm_compute. reflexivity. Qed.

Example round64_tie_to_even :
  round64 (inject_Z (2 ^ 53 + 1)) = inject_Z (2 ^ 53) ∧
  round64 (inject_Z (2 ^ 53 + 3)) = inject_Z (2 ^ 53 + 4).
Proof. vm_compute. split; reflexivity. Qed.

Example sqrt64_two : sqrt64 2 = (6369051672525773 # 4503599627370496)%Q.
Proof. vm_compute. reflexivity. Qed.

(** * The theorems at concrete partitions *)

Ltac solve_allocated :=
  unfold allocated; vm_compute; repeat split; repeat constructor.

Ltac solve_ready slots :=
  unfold ready;
  split; [solve_allocated|];
  split; [cbn; lia|];
  split; [cbn; lia|];
  split; [apply slots; reflexivity|];
  split; [cbn; repeat (constructor; [lia|]); constructor | cbn; constructor].

(** The constructor on the line's atoms. *)
Example constructor_line : FixPeriNeigh_new sevens thirds line_atom = Ok fresh6.
Proof. vm_compute. reflexivity. Qed.

(** Lines 150-240 on the line: degrees 1, 2, 2, 1 and [maxpartner = 2]. *)
Example build_line : setup_build round64 mask30 sqrt64 sevens thirds line [] fresh6 = Ok built6.
Proof. vm_compute. reflexivity. Qed.

(** Two partitions: the pair's [maxpartner] is the line's maximum. *)
Example world_line_pair :
  match setup_world round64 mask30 sqrt64 sevens thirds [(line, fresh6); (pair, fresh2)] with
  | Ok outs => Some (List.map maxpartner outs, List.map npartner outs)
  | _ => None
  end = Some ([2; 2], [[1; 2; 2; 1; 7; 7]; [1; 1]]).
Proof. vm_compute. reflexivity. Qed.

(** Migration drops the broken bond of atom 1 and sends 5 words. *)
Example pack_broken :
  match pack_exchange broken6 1 (fun _ => 0%Q) with
  | Ok (m, buf) => Some (m, buf_words buf 0 m)
  | _ => None
  end = Some (5, [1; 3; 1; 2; 4]%Q).
Proof. vm_compute. reflexivity. Qed.

(** A periodic box shorter than twice the horizon: the same partner twice. *)
Example wrapped_is_fatal :
  setup round64 mask30 sqrt64 sevens thirds wrapped [] fresh6 = Fatal dup_msg.
Proof. vm_compute. reflexivity. Qed.

Lemma line_slots (P : Z → Prop) :
  P 0 → P 1 → P 2 → P 3 → ∀ i, 0 ≤ i < 4 → P i.
Proof.
  intros H0 H1 H2 H3 i Hi.
  assert (i = 0 ∨ i = 1 ∨ i = 2 ∨ i = 3) as [->|[->|[->| ->]]] by lia; assumption.
Qed.

Lemma pair_slots (P : Z → Prop) : P 0 → P 1 → ∀ i, 0 ≤ i < 2 → P i.
Proof.
  intros H0 H1 i Hi. assert (i = 0 ∨ i = 1) as [->| ->] by lia; assumption.
Qed.


Lemma exchange_roundtrip_witness :
  allocated 6 broken6 ∧ allocated 6 built6 ∧
  maxpartner built6 = maxpartner broken6 ∧
  0 ≤ 1 < 6 ∧ 0 ≤ 4 < 6 ∧
  npartner broken6 !! Z.to_nat 1 = Some 2 ∧ 2 ≤ maxpartner broken6 ∧
  ∃ m buf' dst',
    pack_exchange broken6 1 (fun _ => 0%Q) = Ok (m, buf') ∧
    unpack_exchange built6 4 buf' = Ok (m, dst') ∧
    m = 2 * Z.of_nat (length (filter live (bonds broken6 1))) + 3 ∧
    npartner dst' !! Z.to_nat 4
      = Some (Z.of_nat (length (filter live (bonds broken6 1)))) ∧
    bonds dst' 4 = filter live (bonds broken6 1) ∧
    Forall (fun b => b.1 ≠ 0) (bonds dst' 4) ∧
    vinter dst' !! Z.to_nat 4 = vinter broken6 !! Z.to_nat 1 ∧
    wvolume dst' !! Z.to_nat 4 = wvolume broken6 !! Z.to_nat 1 ∧
    is_Some (vinter broken6 !! Z.to_nat 1) ∧ is_Some (wvolume broken6 !! Z.to_nat 1).
Proof.
  assert (H1 : allocated 6 broken6) by solve_allocated.
  assert (H2 : allocated 6 built6) by solve_allocated.
  assert (H3 : maxpartner built6 = maxpartner broken6) by reflexivity.
  assert (H4 : 0 ≤ 1 < 6) by lia.
  assert (H5 : 0 ≤ 4 < 6) by lia.
  assert (H6 : npartner broken6 !! Z.to_nat 1 = Some 2) by reflexivity.
  assert (H7 : 2 ≤ maxpartner broken6) by (cbn; lia).
  repeat (split; [assumption|]).
  exact (exchange_roundtrip broken6 built6 6 6 1 4 (fun _ => 0%Q) 2 H1 H2 H3 H4 H5 H6 H7).
Defined.

Lemma maxpartner_global_witness :
  let ps := [(line, fresh6); (pair, fresh2)] in
  Forall (fun p => ready p.1 p.2) ps ∧
  setup_world round64 mask30 sqrt64 sevens thirds ps ≠ OutOfBounds ∧
  ∀ outs, setup_world round64 mask30 sqrt64 sevens thirds ps = Ok outs →
    length outs = length ps ∧
    ∀ k L st out, ps !! k = Some (L, st) → outs !! k = Some out →
      maxpartner out = list_max0 (world_degrees ps outs) ∧
      ∀ i, 0 ≤ i < nlocal (atom L) →
        ∃ np, npartner out !! Z.to_nat i = Some np ∧ 0 ≤ np ≤ maxpartner out.
Proof.
  intros ps.
  assert (H : Forall (fun p => ready p.1 p.2) ps).
  { constructor; [solve_ready line_slots|].
    constructor; [solve_ready pair_slots|]. constructor. }
  split; [assumption|].
  exact (maxpartner_global round64 mask30 sqrt64 sevens thirds ps H).
Defined.

Lemma edge_slots (P : Z → Prop) : P 0 → P 1 → P 2 → ∀ i, 0 ≤ i < 3 → P i.
Proof.
  intros H0 H1 H2 i Hi.
  assert (i = 0 ∨ i = 1 ∨ i = 2) as [->|[->| ->]] by lia; assumption.
Qed.

(** Lines 150-240 on [edge] with the machine's arithmetic: the pair at the
    cutoff is bonded. *)
Example build_edge :
  setup_build round64 mask30 sqrt64 sevens thirds edge [] fresh4 = Ok edge_built.
Proof. vm_compute. reflexivity. Qed.

(** Rounding decides at the boundary.  In [grazing] the exact squared
    distance of the two atoms is beyond the squared cutoff, the machine's
    [rsq] equals it, and the bond is made; in [skimming] the exact squared
    distance is within the squared cutoff, the machine's [rsq] is beyond it,
    and no bond is made. *)
Example rounding_bonds_grazing :
  (cutsq grazing 1 1 < d07 * d07)%Q ∧
  (squared_distance round64 (x (atom grazing) 0) (x (atom grazing) 1)
   == cutsq grazing 1 1)%Q ∧
  ∃ stb, setup_build round64 mask30 sqrt64 sevens thirds grazing [] fresh2 = Ok stb ∧
         bonds stb 0 = [(2, d07)].
Proof.
  split; [vm_compute; reflexivity|]. split; [vm_compute; reflexivity|].
  eexists. split; vm_compute; reflexivity.
Qed.

Example rounding_skips_skimming :
  (d01 * d01 + d01 * d01 + d04 * d04 <= cutsq skimming 1 1)%Q ∧
  (cutsq skimming 1 1
   < squared_distance round64 (x (atom skimming) 0) (x (atom skimming) 1))%Q ∧
  ∃ stb, setup_build round64 mask30 sqrt64 sevens thirds skimming [] fresh2 = Ok stb ∧
         bonds stb 0 = [].
Proof.
  split; [vm_compute; discriminate|]. split; [vm_compute; reflexivity|].
  eexists. split; vm_compute; reflexivity.
Qed.

Lemma bond_iff_within_cutoff_witness :
  ready edge fresh4 ∧
  (squared_distance round64 (x (atom edge) 0) (x (atom edge) 1)
   == cutsq edge (type (atom edge) 0) (type (atom edge) 1))%Q ∧
  candidates mask30 edge 0 = [] ++ 1 :: [2] ∧
  ∃ stb,
    setup_build round64 mask30 sqrt64 sevens thirds edge [] fresh4 = Ok stb ∧
    (∀ out, setup round64 mask30 sqrt64 sevens thirds edge [] fresh4 = Ok out →
       ∀ i, bonds out i = bonds stb i) ∧
    ∀ i, 0 ≤ i < nlocal (atom edge) →
      bonds stb i
        = bond_record round64 sqrt64 edge i
            <$> filter (in_horizon round64 edge i) (candidates mask30 edge i) ∧
      npartner stb !! Z.to_nat i
        = Some (Z.of_nat (length (filter (in_horizon round64 edge i)
                                    (candidates mask30 edge i)))) ∧
      ∀ js1 j js2, candidates mask30 edge i = js1 ++ j :: js2 →
        let rsq := squared_distance round64 (x (atom edge) i) (x (atom edge) j) in
        let cut := cutsq edge (type (atom edge) i) (type (atom edge) j) in
        let before := bond_record round64 sqrt64 edge i
                        <$> filter (in_horizon round64 edge i) js1 in
        let after := bond_record round64 sqrt64 edge i
                       <$> filter (in_horizon round64 edge i) js2 in
        ((rsq <= cut)%Q →
         bonds stb i = before ++ (tag (atom edge) j, sqrt64 rsq) :: after) ∧
        ((rsq == cut)%Q →
         bonds stb i = before ++ (tag (atom edge) j, sqrt64 rsq) :: after) ∧
        ((cut < rsq)%Q → bonds stb i = before ++ after).
Proof.
  assert (H : ready edge fresh4) by solve_ready edge_slots.
  split; [assumption|].
  split; [vm_compute; reflexivity|]. split; [reflexivity|].
  exact (bond_iff_within_cutoff round64 mask30 sqrt64 sevens thirds edge [] fresh4 H).
Defined.

Lemma duplicate_check_fatal_witness :
  ready wrapped fresh6 ∧
  ∃ stb,
    setup_build round64 mask30 sqrt64 sevens thirds wrapped [] fresh6 = Ok stb ∧
    (periodic (domain wrapped) = true ↔
     xperiodic (domain wrapped) ≠ 0 ∨ yperiodic (domain wrapped) ≠ 0 ∨
     zperiodic (domain wrapped) ≠ 0) ∧
    ((∃ msg, setup round64 mask30 sqrt64 sevens thirds wrapped [] fresh6 = Fatal msg) ↔
     periodic (domain wrapped) = true ∧
     ∃ i, 0 ≤ i < nlocal (atom wrapped) ∧ has_duplicate (bonds stb i)) ∧
    (∀ msg, setup round64 mask30 sqrt64 sevens thirds wrapped [] fresh6 = Fatal msg →
       msg = dup_msg) ∧
    (periodic (domain wrapped) = false →
     (∀ s, setup_check wrapped s = Ok tt) ∧
     ∃ out, setup round64 mask30 sqrt64 sevens thirds wrapped [] fresh6 = Ok out).
Proof.
  assert (H : ready wrapped fresh6) by solve_ready line_slots.
  split; [assumption|].
  exact (duplicate_check_fatal round64 mask30 sqrt64 sevens thirds wrapped [] fresh6 H).
Defined.

Lemma population_in_bounds_witness :
  ready line fresh6 ∧
  setup round64 mask30 sqrt64 sevens thirds line [] fresh6 ≠ OutOfBounds ∧
  ∃ stb,
    setup_build round64 mask30 sqrt64 sevens thirds line [] fresh6 = Ok stb ∧
    allocated (nmax (atom line)) stb ∧
    maxpartner stb = MPI_Allreduce_MAX (list_max0 (local_degrees round64 mask30 line)) [] ∧
    list_max0 (local_degrees round64 mask30 line) ≤ maxpartner stb ∧
    ∀ i, 0 ≤ i < nlocal (atom line) →
      ∃ np, npartner stb !! Z.to_nat i = Some np ∧
            0 ≤ np ≤ maxpartner stb ∧
            Z.of_nat (length (bonds stb i)) = np.
Proof.
  assert (H : ready line fresh6) by solve_ready line_slots.
  split; [assumption|].
  exact (proj2 (population_in_bounds round64 mask30 sqrt64 sevens thirds line [] fresh6 H)).
Defined.

Lemma setup_idempotent_witness :
  ∃ out,
    setup round64 mask30 sqrt64 sevens thirds line [] fresh6 = Ok out ∧
    first out = 0 ∧
    ∀ L' others', setup round64 mask30 sqrt64 sevens thirds L' others' out = Ok out.
Proof.
  destruct (setup round64 mask30 sqrt64 sevens thirds line [] fresh6) as [out| |] eqn:E;
    [|vm_compute in E; discriminate E | vm_compute in E; discriminate E].
  exists out. split; [reflexivity|].
  exact (proj2 (setup_idempotent round64 mask30 sqrt64 sevens thirds line [] fresh6) out E).
Defined.

Lemma restart_roundtrip_witness :
  let foreign := fun _ : Z => [[int_to_double 2; 9%Q]] in
  allocated 6 broken6 ∧
  0 ≤ nlocal line_atom ≤ 6 ∧ nlocal line_atom ≤ nmax line_atom ∧
  (∀ i np, 0 ≤ i < nlocal line_atom →
     npartner broken6 !! Z.to_nat i = Some np → 0 ≤ np ≤ maxpartner broken6) ∧
  (∀ i, 0 ≤ i < nlocal line_atom →
     Forall self_describing (foreign i) ∧ Z.of_nat (length (foreign i)) = 1) ∧
  let header := [int_to_double (first broken6); int_to_double (maxpartner broken6)] in
  let st1 := restart sevens thirds fresh2 line_atom (buf_of_list header) in
  ∃ records dst,
    write_restart broken6 0 = Some (2 * sizeof_double, header) ∧
    (∀ i np, 0 ≤ i < nlocal line_atom → npartner broken6 !! Z.to_nat i = Some np →
       serialize_atom broken6 i = Ok (records i) ∧
       self_describing (records i) ∧
       Z.of_nat (length (records i)) = 2 * np + 4) ∧
    allocated (nmax line_atom) st1 ∧ maxpartner st1 = maxpartner broken6 ∧
    deserialize sevens thirds fresh2 line_atom header
      (fun i => buf_of_list (concat (foreign i) ++ records i)) 1 = Ok dst ∧
    first dst = first broken6 ∧ maxpartner dst = maxpartner broken6 ∧
    allocated (nmax line_atom) dst ∧
    ∀ i, 0 ≤ i < nlocal line_atom → atom_state dst i = atom_state broken6 i.
Proof.
  intros foreign.
  assert (H1 : allocated 6 broken6) by solve_allocated.
  assert (H2 : 0 ≤ nlocal line_atom ≤ 6) by (cbn; lia).
  assert (H3 : nlocal line_atom ≤ nmax line_atom) by (cbn; lia).
  assert (H4 : ∀ i np, 0 ≤ i < nlocal line_atom →
    npartner broken6 !! Z.to_nat i = Some np → 0 ≤ np ≤ maxpartner broken6).
  { intros i np Hi. revert np. revert i Hi.
    apply (line_slots (fun i => ∀ np,
      npartner broken6 !! Z.to_nat i = Some np → 0 ≤ np ≤ maxpartner broken6));
      intros np [= <-]; cbn; lia. }
  assert (H5 : ∀ i, 0 ≤ i < nlocal line_atom →
    Forall self_describing (foreign i) ∧ Z.of_nat (length (foreign i)) = 1).
  { intros i _. split; [|reflexivity]. repeat constructor. }
  repeat (split; [assumption|]).
  exact (restart_roundtrip sevens thirds broken6 fresh2 line_atom 6 foreign 1
           H1 H2 H3 H4 H5).
Defined.

Lemma ghost_sync_frame_witness :
  let sendl := fun k : Z => k + 1 in
  let buf0 := fun _ : Z => 0%Q in
  let buf := fun k : Z => inject_Z (k + 10) in
  0 ≤ 4 ≤ 4 ∧
  (∀ st2,
     (∀ k, 0 ≤ k < 2 →
        wvolume st2 !! Z.to_nat (sendl k) = wvolume broken6 !! Z.to_nat (sendl k)) →
     pack_comm st2 2 sendl buf0 = pack_comm broken6 2 sendl buf0) ∧
  ((∀ k, 0 ≤ k < 2 → 0 ≤ sendl k < Z.of_nat (length (wvolume broken6))) →
     ∃ buf',
       pack_comm broken6 2 sendl buf0 = Ok (1, buf') ∧
       (∀ k, 0 ≤ k < 2 → wvolume broken6 !! Z.to_nat (sendl k) = Some (buf' k)) ∧
       (∀ k, ¬ (0 ≤ k < 2) → buf' k = buf0 k)) ∧
  (∀ st', unpack_comm broken6 2 4 buf = Ok st' →
     first st' = first broken6 ∧ maxpartner st' = maxpartner broken6 ∧
     npartner st' = npartner broken6 ∧ partner st' = partner broken6 ∧
     r0 st' = r0 broken6 ∧ vinter st' = vinter broken6 ∧
     (∀ i, 0 ≤ i < 4 → wvolume st' !! Z.to_nat i = wvolume broken6 !! Z.to_nat i) ∧
     (∀ i, 0 ≤ i → ¬ (4 ≤ i < 4 + 2) →
        wvolume st' !! Z.to_nat i = wvolume broken6 !! Z.to_nat i)) ∧
  (4 + 2 ≤ Z.of_nat (length (wvolume broken6)) →
     ∃ st',
       unpack_comm broken6 2 4 buf = Ok st' ∧
       ∀ i, 4 ≤ i < 4 + 2 → wvolume st' !! Z.to_nat i = Some (buf (i - 4))).
Proof.
  intros sendl buf0 buf.
  assert (H : 0 ≤ 4 ≤ 4) by lia.
  split; [assumption|].
  exact (ghost_sync_frame broken6 2 sendl buf0 2 4 buf 4 H).
Defined.

Lemma unresolved_slots_skipped_witness :
  allocated (nmax (atom line)) broken6 ∧
  0 ≤ nlocal (atom line) ≤ nmax (atom line) ∧
  (∀ i np, 0 ≤ i < nlocal (atom line) →
     npartner broken6 !! Z.to_nat i = Some np → np ≤ maxpartner broken6) ∧
  ∃ st',
    setup_wvolume round64 sqrt64 line broken6 = Ok st' ∧
    first st' = first broken6 ∧ maxpartner st' = maxpartner broken6 ∧
    npartner st' = npartner broken6 ∧ partner st' = partner broken6 ∧
    r0 st' = r0 broken6 ∧ vinter st' = vinter broken6 ∧
    ∀ i w, 0 ≤ i < nlocal (atom line) → wvolume broken6 !! Z.to_nat i = Some w →
      wvolume st' !! Z.to_nat i = Some (wvolume_of round64 sqrt64 line i w (bonds broken6 i)) ∧
      wvolume_of round64 sqrt64 line i w (bonds broken6 i)
        = wvolume_of round64 sqrt64 line i w
            (filter (fun b => resolvable line b) (bonds broken6 i)) ∧
      (Forall (fun b => resolvable line b = false) (bonds broken6 i) →
       wvolume st' !! Z.to_nat i = Some w).
Proof.
  assert (H1 : allocated (nmax (atom line)) broken6) by solve_allocated.
  assert (H2 : 0 ≤ nlocal (atom line) ≤ nmax (atom line)) by (cbn; lia).
  assert (H3 : ∀ i np, 0 ≤ i < nlocal (atom line) →
    npartner broken6 !! Z.to_nat i = Some np → np ≤ maxpartner broken6).
  { intros i np Hi. revert np. revert i Hi.
    apply (line_slots (fun i => ∀ np,
      npartner broken6 !! Z.to_nat i = Some np → np ≤ maxpartner broken6));
      intros np [= <-]; cbn; lia. }
  repeat (split; [assumption|]).
  exact (proj2 (proj2 (unresolved_slots_skipped round64 sqrt64 line broken6 H1 H2 H3))).
Defined.

(** The weighted volume of [edge] with the machine's arithmetic: the bond
    of atom 0 lies at [r0 = delta], inside the band, and is scaled by 1/2. *)
Example wvolume_edge :
  match setup round64 mask30 sqrt64 sevens thirds edge [] fresh4 with
  | Ok out => Some (wvolume out)
  | _ => None
  end = Some [9 # 8; 9 # 8; 0; 5 # 3]%Q.
Proof. vm_compute. reflexivity. Qed.



(** ** The further properties at concrete stores *)

Lemma copy_arrays_copies_witness :
  allocated 6 broken6 ∧ 0 ≤ 1 < 6 ∧ 0 ≤ 5 < 6 ∧
  npartner broken6 !! Z.to_nat 1 = Some 2 ∧ 2 ≤ maxpartner broken6 ∧
  ∃ st',
    copy_arrays broken6 1 5 = Ok st' ∧
    atom_state st' 5 = atom_state broken6 1 ∧
    (∀ k, 0 ≤ k → k ≠ 5 → atom_state st' k = atom_state broken6 k) ∧
    allocated 6 st' ∧
    first st' = first broken6 ∧ maxpartner st' = maxpartner broken6.
Proof.
  assert (H1 : allocated 6 broken6) by solve_allocated.
  assert (H2 : 0 ≤ 1 < 6) by lia.
  assert (H3 : 0 ≤ 5 < 6) by lia.
  assert (H4 : npartner broken6 !! Z.to_nat 1 = Some 2) by reflexivity.
  assert (H5 : 2 ≤ maxpartner broken6) by (cbn; lia).
  do 5 (split; [assumption|]).
  exact (copy_arrays_copies 6 broken6 1 5 2 H1 H2 H3 H4 H5).
Defined.

Lemma constructor_then_setup_witness :
  0 ≤ nlocal line_atom ≤ nmax line_atom ∧
  ∃ st,
    FixPeriNeigh_new sevens thirds line_atom = Ok st ∧
    first st = 1 ∧ maxpartner st = 1 ∧
    allocated (nmax line_atom) st ∧
    (∀ i, 0 ≤ i < nlocal line_atom →
       atom_state st i =
       (Some 0, [], vinter st !! Z.to_nat i, wvolume st !! Z.to_nat i)) ∧
    ∀ L others,
      atom L = line_atom →
      Forall (fun i => 0 ≤ i < nlocal line_atom) (ilist (neigh_list L)) →
      Forall (swap_ok (nlocal line_atom) (nmax line_atom)) (swaps L) →
      ready L st ∧
      ((∃ out, setup round64 mask30 sqrt64 sevens thirds L others st = Ok out ∧ first out = 0) ∨
       setup round64 mask30 sqrt64 sevens thirds L others st = Fatal dup_msg).
Proof.
  assert (H : 0 ≤ nlocal line_atom ≤ nmax line_atom) by (cbn; lia).
  split; [assumption|].
  exact (constructor_then_setup round64 mask30 sqrt64 sevens thirds line_atom H).
Defined.

Lemma pack_exchange_extent_witness :
  allocated 6 broken6 ∧ 0 ≤ 1 < 6 ∧
  npartner broken6 !! Z.to_nat 1 = Some 2 ∧ 0 ≤ 2 ≤ maxpartner broken6 ∧
  ∃ m buf',
    pack_exchange broken6 1 (fun _ => 0%Q) = Ok (m, buf') ∧
    (∀ k, ¬ (0 ≤ k < m) → buf' k = 0%Q) ∧
    3 ≤ m ≤ 2 * 2 + 3 ∧
    2 * 2 + 3 ≤ 2 * maxpartner broken6 + 3 ∧
    (m = 2 * 2 + 3 ↔ Forall (fun b => b.1 ≠ 0) (bonds broken6 1)).
Proof.
  assert (H1 : allocated 6 broken6) by solve_allocated.
  assert (H2 : 0 ≤ 1 < 6) by lia.
  assert (H3 : npartner broken6 !! Z.to_nat 1 = Some 2) by reflexivity.
  assert (H4 : 0 ≤ 2 ≤ maxpartner broken6) by (cbn; lia).
  do 4 (split; [assumption|]).
  exact (pack_exchange_extent 6 broken6 1 (fun _ => 0%Q) 2 H1 H2 H3 H4).
Defined.

Lemma restart_record_size_witness :
  allocated 6 broken6 ∧ 0 ≤ 1 < 6 ∧
  npartner broken6 !! Z.to_nat 1 = Some 2 ∧ 0 ≤ 2 ≤ maxpartner broken6 ∧
  ∃ n buf',
    size_restart broken6 1 = Ok n ∧
    pack_restart broken6 1 (fun _ => 0%Q) = Ok (n, buf') ∧
    double_to_int (buf' 0) = n ∧
    n = 2 * 2 + 4 ∧
    n ≤ maxsize_restart broken6 ∧
    ∀ k, ¬ (0 ≤ k < n) → buf' k = 0%Q.
Proof.
  assert (H1 : allocated 6 broken6) by solve_allocated.
  assert (H2 : 0 ≤ 1 < 6) by lia.
  assert (H3 : npartner broken6 !! Z.to_nat 1 = Some 2) by reflexivity.
  assert (H4 : 0 ≤ 2 ≤ maxpartner broken6) by (cbn; lia).
  do 4 (split; [assumption|]).
  exact (restart_record_size 6 broken6 1 (fun _ => 0%Q) 2 H1 H2 H3 H4).
Defined.

Lemma unpack_exchange_frame_witness :
  allocated 6 built6 ∧ 0 ≤ 4 < 6 ∧
  let count := double_to_int (buf_of_list record5 0) in
  - 2 ^ 31 ≤ count ∧ count ≤ maxpartner built6 ∧ maxpartner built6 < 2 ^ 31 ∧
  ∃ st',
    unpack_exchange built6 4 (buf_of_list record5) = Ok (2 * Z.max 0 count + 3, st') ∧
    unpack_exchange_block built6 4 (buf_of_list record5)
      = Ok (2 * Z.max 0 count + 3, st') ∧
    npartner st' !! Z.to_nat 4 = Some count ∧
    first st' = first built6 ∧ maxpartner st' = maxpartner built6 ∧
    (∀ k, 0 ≤ k → k ≠ 4 → atom_state st' k = atom_state built6 k) ∧
    allocated 6 st'.
Proof.
  assert (H1 : allocated 6 built6) by solve_allocated.
  assert (H2 : 0 ≤ 4 < 6) by lia.
  assert (H3 : - 2 ^ 31 ≤ double_to_int (buf_of_list record5 0))
    by (vm_compute; discriminate).
  assert (H4 : double_to_int (buf_of_list record5 0) ≤ maxpartner built6)
    by (vm_compute; discriminate).
  assert (H5 : maxpartner built6 < 2 ^ 31) by (vm_compute; reflexivity).
  split; [exact H1|]. split; [exact H2|]. intros count.
  split; [exact H3|]. split; [exact H4|]. split; [exact H5|].
  exact (unpack_exchange_frame 6 built6 4 (buf_of_list record5) H1 H2 H3 H4 H5).
Defined.

(** The machine on a record that announces three bonds for rows of two:
    it returns 9, and slot 5 has lost its first bond to the record's third
    pair. *)
Example overrun_built6 :
  unpack_exchange_block built6 4 (buf_of_list record9) = Ok (9, overrun6) ∧
  bonds built6 5 ≠ bonds overrun6 5 ∧
  unpack_exchange_block built6 5 (buf_of_list record9) = OutOfBounds.
Proof.
  split; [vm_compute; reflexivity|]. split; [|vm_compute; reflexivity].
  vm_compute. discriminate.
Qed.

Lemma unpack_exchange_overflow_witness :
  allocated 6 built6 ∧ 0 ≤ 4 < 6 ∧
  let count := double_to_int (buf_of_list record9 0) in
  0 ≤ maxpartner built6 ∧ maxpartner built6 < count ∧ count < 2 ^ 31 ∧
  unpack_exchange built6 4 (buf_of_list record9) = OutOfBounds ∧
  (count ≤ (6 - 4) * maxpartner built6 →
   ∃ st' ps rs,
     unpack_exchange_block built6 4 (buf_of_list record9) = Ok (2 * count + 3, st') ∧
     partner st' !! Z.to_nat (4 + 1) = Some ps ∧
     ps !! 0%nat
       = Some (double_to_int (buf_of_list record9 (1 + 2 * maxpartner built6))) ∧
     r0 st' !! Z.to_nat (4 + 1) = Some rs ∧
     rs !! 0%nat = Some (buf_of_list record9 (2 + 2 * maxpartner built6))) ∧
  ((6 - 4) * maxpartner built6 < count →
   unpack_exchange_block built6 4 (buf_of_list record9) = OutOfBounds).
Proof.
  assert (H1 : allocated 6 built6) by solve_allocated.
  assert (H2 : 0 ≤ 4 < 6) by lia.
  assert (H3 : 0 ≤ maxpartner built6) by (vm_compute; discriminate).
  assert (H4 : maxpartner built6 < double_to_int (buf_of_list record9 0))
    by (vm_compute; reflexivity).
  assert (H5 : double_to_int (buf_of_list record9 0) < 2 ^ 31)
    by (vm_compute; reflexivity).
  split; [exact H1|]. split; [exact H2|]. intros count.
  split; [exact H3|]. split; [exact H4|]. split; [exact H5|].
  exact (unpack_exchange_overflow 6 built6 4 (buf_of_list record9) H1 H2 H3 H4 H5).
Defined.

Lemma migration_settles_witness :
  allocated 6 broken6 ∧ allocated 6 built6 ∧ allocated 6 settled6 ∧
  maxpartner built6 = maxpartner broken6 ∧ maxpartner settled6 = maxpartner broken6 ∧
  0 ≤ 1 < 6 ∧ 0 ≤ 4 < 6 ∧ 0 ≤ 5 < 6 ∧
  npartner broken6 !! Z.to_nat 1 = Some 2 ∧ 2 ≤ maxpartner broken6 ∧
  ∃ m buf1 dst' buf2 dst2',
    pack_exchange broken6 1 (fun _ => 0%Q) = Ok (m, buf1) ∧
    unpack_exchange built6 4 buf1 = Ok (m, dst') ∧
    pack_exchange dst' 4 (fun _ => 1%Q) = Ok (m, buf2) ∧
    unpack_exchange settled6 5 buf2 = Ok (m, dst2') ∧
    atom_state dst2' 5 = atom_state dst' 4 ∧
    bonds dst' 4 = filter live (bonds broken6 1).
Proof.
  assert (H1 : allocated 6 broken6) by solve_allocated.
  assert (H2 : allocated 6 built6) by solve_allocated.
  assert (H3 : allocated 6 settled6) by solve_allocated.
  assert (H4 : maxpartner built6 = maxpartner broken6) by reflexivity.
  assert (H5 : maxpartner settled6 = maxpartner broken6) by reflexivity.
  assert (H6 : 0 ≤ 1 < 6) by lia.
  assert (H7 : 0 ≤ 4 < 6) by lia.
  assert (H8 : 0 ≤ 5 < 6) by lia.
  assert (H9 : npartner broken6 !! Z.to_nat 1 = Some 2) by reflexivity.
  assert (H10 : 2 ≤ maxpartner broken6) by (cbn; lia).
  split; [exact H1|]. split; [exact H2|]. split; [exact H3|].
  split; [exact H4|]. split; [exact H5|]. split; [exact H6|].
  split; [exact H7|]. split; [exact H8|]. split; [exact H9|]. split; [exact H10|].
  exact (migration_settles broken6 built6 settled6 6 6 6 1 4 5
           (fun _ => 0%Q) (fun _ => 1%Q) 2 H1 H2 H3 H4 H5 H6 H7 H8 H9 H10).
Defined.

Lemma ghost_receives_owner_value_witness :
  (∀ k, 0 ≤ k < 2 → 0 ≤ k + 1 < Z.of_nat (length (wvolume settled6))) ∧
  0 ≤ 4 ∧ 4 + 2 ≤ Z.of_nat (length (wvolume fresh6)) ∧
  ∃ buf ghost',
    pack_comm settled6 2 (fun k => k + 1) (fun _ => 0%Q) = Ok (comm_forward, buf) ∧
    unpack_comm fresh6 2 4 buf = Ok ghost' ∧
    ∀ k, 0 ≤ k < 2 →
      wvolume ghost' !! Z.to_nat (4 + k) = wvolume settled6 !! Z.to_nat (k + 1).
Proof.
  assert (H1 : ∀ k, 0 ≤ k < 2 → 0 ≤ k + 1 < Z.of_nat (length (wvolume settled6)))
    by (intros k Hk; cbn; lia).
  assert (H2 : 0 ≤ 4) by lia.
  assert (H3 : 4 + 2 ≤ Z.of_nat (length (wvolume fresh6))) by (cbn; lia).
  split; [exact H1|]. split; [exact H2|]. split; [exact H3|].
  exact (ghost_receives_owner_value settled6 fresh6 2 (fun k => k + 1) (fun _ => 0%Q) 4
           H1 H2 H3).
Defined.

Lemma bonds_symmetric_witness :
  Proper (Qeq ==> Qeq) round64 ∧ (∀ q, round64 (- q) == - round64 q)%Q ∧
  ready line fresh6 ∧
  0 ≤ 1 < nlocal (atom line) ∧ 0 ≤ 2 < nlocal (atom line) ∧
  (cutsq line (type (atom line) 1) (type (atom line) 2)
   == cutsq line (type (atom line) 2) (type (atom line) 1))%Q ∧
  2 ∈ candidates mask30 line 1 ∧ 1 ∈ candidates mask30 line 2 ∧
  within_cutoff round64 line 1 2 = within_cutoff round64 line 2 1 ∧
  (2 ∈ accepted round64 mask30 line 1 ↔ 1 ∈ accepted round64 mask30 line 2) ∧
  ∃ stb,
    setup_build round64 mask30 sqrt64 sevens thirds line [] fresh6 = Ok stb ∧
    (within_cutoff round64 line 1 2 = true →
     bond_of round64 sqrt64 line 1 2 ∈ bonds stb 1 ∧ bond_of round64 sqrt64 line 2 1 ∈ bonds stb 2) ∧
    (within_cutoff round64 line 1 2 = false →
     (2 ∉ accepted round64 mask30 line 1) ∧ (1 ∉ accepted round64 mask30 line 2)).
Proof.
  assert (H1 : ready line fresh6) by solve_ready line_slots.
  assert (H2 : 0 ≤ 1 < nlocal (atom line)) by (cbn; lia).
  assert (H3 : 0 ≤ 2 < nlocal (atom line)) by (cbn; lia).
  assert (H4 : (cutsq line (type (atom line) 1) (type (atom line) 2)
                == cutsq line (type (atom line) 2) (type (atom line) 1))%Q)
    by (vm_compute; reflexivity).
  assert (H5 : 2 ∈ candidates mask30 line 1) by (vm_compute; repeat constructor).
  assert (H6 : 1 ∈ candidates mask30 line 2) by (vm_compute; repeat constructor).
  split; [exact round64_proper|]. split; [exact round64_odd|].
  split; [exact H1|]. split; [exact H2|]. split; [exact H3|].
  split; [exact H4|]. split; [exact H5|]. split; [exact H6|].
  exact (bonds_symmetric round64 mask30 sqrt64 sevens thirds line [] fresh6 1 2
           round64_proper round64_odd H1 H2 H3 H4 H5 H6).
Defined.

Lemma setup_accumulates_witness :
  ready line fresh6 ∧
  setup round64 mask30 sqrt64 sevens thirds line [] fresh6 = Ok settled6 ∧
  first settled6 = 0 ∧
  ∀ i, 0 ≤ i < nlocal (atom line) →
    bonds settled6 i = bond_of round64 sqrt64 line i <$> accepted round64 mask30 line i ∧
    vinter settled6 !! Z.to_nat i = Some (vinter_of round64 line (accepted round64 mask30 line i)) ∧
    wvolume settled6 !! Z.to_nat i
      = Some (wvolume_of round64 sqrt64 line i 0%Q (bonds settled6 i)).
Proof.
  assert (H1 : ready line fresh6) by solve_ready line_slots.
  assert (H2 : setup round64 mask30 sqrt64 sevens thirds line [] fresh6 = Ok settled6)
    by (vm_compute; reflexivity).
  split; [exact H1|]. split; [exact H2|].
  exact (setup_accumulates round64 mask30 sqrt64 sevens thirds line [] fresh6 settled6 H1 H2).
Defined.

Lemma duplicate_candidate_outcome_witness :
  ready wrapped fresh6 ∧ 0 ≤ 0 < nlocal (atom wrapped) ∧ (0 < 1)%nat ∧
  accepted round64 mask30 wrapped 0 !! 0%nat = Some 1 ∧
  accepted round64 mask30 wrapped 0 !! 1%nat = Some 4 ∧
  tag (atom wrapped) 1 = tag (atom wrapped) 4 ∧
  (periodic (domain wrapped) = true →
   setup round64 mask30 sqrt64 sevens thirds wrapped [] fresh6 = Fatal dup_msg) ∧
  (periodic (domain wrapped) = false →
   ∃ out, setup round64 mask30 sqrt64 sevens thirds wrapped [] fresh6 = Ok out ∧
     has_duplicate (bonds out 0) ∧
     npartner out !! Z.to_nat 0
       = Some (Z.of_nat (length (accepted round64 mask30 wrapped 0)))).
Proof.
  assert (H1 : ready wrapped fresh6) by solve_ready line_slots.
  assert (H2 : 0 ≤ 0 < nlocal (atom wrapped)) by (cbn; lia).
  assert (H3 : (0 < 1)%nat) by lia.
  assert (H4 : accepted round64 mask30 wrapped 0 !! 0%nat = Some 1) by (vm_compute; reflexivity).
  assert (H5 : accepted round64 mask30 wrapped 0 !! 1%nat = Some 4) by (vm_compute; reflexivity).
  assert (H6 : tag (atom wrapped) 1 = tag (atom wrapped) 4) by reflexivity.
  split; [exact H1|]. split; [exact H2|]. split; [exact H3|].
  split; [exact H4|]. split; [exact H5|]. split; [exact H6|].
  exact (duplicate_candidate_outcome round64 mask30 sqrt64 sevens thirds wrapped [] fresh6 0 0 1 1 4
           H1 H2 H3 H4 H5 H6).
Defined.

Lemma unlisted_atoms_unbonded_witness :
  ready idle fresh6 ∧
  (∀ out, setup round64 mask30 sqrt64 sevens thirds idle [3] fresh6 = Ok out →
     ∀ i, 0 ≤ i < nlocal (atom idle) → i ∉ ilist (neigh_list idle) →
       atom_state out i = (Some 0, [], Some 0%Q, Some 0%Q)) ∧
  (ilist (neigh_list idle) = [] →
   ∃ out, setup round64 mask30 sqrt64 sevens thirds idle [3] fresh6 = Ok out ∧
     maxpartner out = MPI_Allreduce_MAX 0 [3] ∧
     ∀ i, 0 ≤ i < nlocal (atom idle) →
       atom_state out i = (Some 0, [], Some 0%Q, Some 0%Q)).
Proof.
  assert (H1 : ready idle fresh6) by solve_ready line_slots.
  split; [exact H1|].
  exact (unlisted_atoms_unbonded round64 mask30 sqrt64 sevens thirds idle [3] fresh6 H1).
Defined.

Lemma grow_arrays_keeps_atoms_witness :
  allocated 6 built6 ∧ 0 ≤ 6 ≤ 8 ∧ 0 ≤ maxpartner built6 ∧
  allocated 8 (grow_arrays sevens thirds built6 8) ∧
  first (grow_arrays sevens thirds built6 8) = first built6 ∧
  maxpartner (grow_arrays sevens thirds built6 8) = maxpartner built6 ∧
  ∀ i, 0 ≤ i < 6 →
    atom_state (grow_arrays sevens thirds built6 8) i = atom_state built6 i.
Proof.
  assert (H1 : allocated 6 built6) by solve_allocated.
  assert (H2 : 0 ≤ 6 ≤ 8) by lia.
  assert (H3 : 0 ≤ maxpartner built6) by (cbn; lia).
  split; [exact H1|]. split; [exact H2|]. split; [exact H3|].
  exact (grow_arrays_keeps_atoms sevens thirds 6 8 built6 H1 H2 H3).
Defined.

Lemma memory_usage_counts_bytes_witness :
  allocated (nmax line_atom) built6 ∧ 0 ≤ nmax line_atom ∧ 0 ≤ maxpartner built6 ∧
  nmax line_atom * maxpartner built6 < 2 ^ 31 ∧
  (array_bytes built6 < 2 ^ 31 →
   memory_usage line_atom built6 = int_to_double (array_bytes built6)) ∧
  (2 ^ 31 ≤ array_bytes built6 < 2 ^ 32 →
   memory_usage line_atom built6 = int_to_double (array_bytes built6 - 2 ^ 32) ∧
   (memory_usage line_atom built6 < 0)%Q) ∧
  ∃ k, 0 ≤ k ∧
    memory_usage line_atom built6 = int_to_double (array_bytes built6 - k * 2 ^ 32).
Proof.
  assert (H1 : allocated (nmax line_atom) built6) by solve_allocated.
  assert (H2 : 0 ≤ nmax line_atom) by (cbn; lia).
  assert (H3 : 0 ≤ maxpartner built6) by (cbn; lia).
  assert (H4 : nmax line_atom * maxpartner built6 < 2 ^ 31) by (cbn; lia).
  split; [exact H1|]. split; [exact H2|]. split; [exact H3|]. split; [exact H4|].
  exact (memory_usage_counts_bytes line_atom built6 H1 H2 H3 H4).
Defined.

Lemma restarted_run_skips_setup_witness :
  ready line fresh6 ∧
  setup round64 mask30 sqrt64 sevens thirds line [] fresh6 = Ok settled6 ∧
  let header := [int_to_double (first settled6); int_to_double (maxpartner settled6)] in
  let st1 := restart sevens thirds fresh2 pair_atom (buf_of_list header) in
  write_restart settled6 0 = Some (2 * sizeof_double, header) ∧
  first st1 = 0 ∧
  maxpartner st1 = MPI_Allreduce_MAX (list_max0 (local_degrees round64 mask30 line)) [] ∧
  allocated (nmax pair_atom) st1 ∧
  setup round64 mask30 sqrt64 sevens thirds pair [5] st1 = Ok st1 ∧
  min_setup round64 mask30 sqrt64 sevens thirds pair [5] st1 = Ok st1.
Proof.
  assert (H1 : ready line fresh6) by solve_ready line_slots.
  assert (H2 : setup round64 mask30 sqrt64 sevens thirds line [] fresh6 = Ok settled6)
    by (vm_compute; reflexivity).
  split; [exact H1|]. split; [exact H2|].
  exact (restarted_run_skips_setup round64 mask30 sqrt64 sevens thirds line [] fresh6 settled6
           fresh2 pair_atom pair [5] H1 H2).
Defined.
